(** * Contact-identity resolution of [scripts/process_daily_sync.py]

    A shallow embedding of the identity normaliser, the People-File index,
    the Contact Directory table and the new-people candidate resolver, with
    the properties the specification states about them; and of the outreach
    candidates, the email filter, the email export and the platform
    candidates, with further properties of the code.

    Modelling conventions.
    - A Python [str] is a Rocq [string]; a character is a code point in the
      range U+0000..U+00FF ([ascii]), and the Unicode-aware predicates of
      Python ([str.isspace], [str.isdigit], [str.lower], and the classes
      [\d], [\s] of [re]) are the restrictions of Python's to that range.
    - A [dict] used as a table is a [gmap string string], a [set] of strings
      is a [gset string].
    - [d.get(k)] of a contact or message dictionary is an [option string]:
      [None] stands for a missing key as well as for a stored [None].
    - Reading files and databases is input: the people directory is given as
      the list of its [*.md] files with their contents (or the fact that the
      read failed), the address books as the rows their two queries return,
      the clock as the value of [datetime.now()]. *)

From Stdlib Require Import String Ascii List Arith Bool Lia Sorted Permutation.
From stdpp Require Import base decidable option strings pretty gmap.

Import ListNotations.
Set Warnings "-abstract-large-number,-clear-no-such-hyp".
Local Open Scope string_scope.
Local Open Scope nat_scope.
Local Open Scope list_scope.
Local Open Scope stdpp_scope.

(** ** Characters *)

Module Char.

Definition code (c : ascii) : nat := nat_of_ascii c.

Definition between (lo hi : nat) (c : ascii) : bool :=
  (lo <=? code c) && (code c <=? hi).

(** [\d] of [re] on [str] patterns, and [str.isdecimal]: category Nd. *)
Definition is_decimal (c : ascii) : bool := between 48 57 c.

(** [str.isdigit] for one character: Nd, and the superscripts 1, 2, 3. *)
Definition is_digit (c : ascii) : bool :=
  is_decimal c || (code c =? 178) || (code c =? 179) || (code c =? 185).

(** [str.isspace] for one character, which is also [\s] of [re]. *)
Definition is_space (c : ascii) : bool :=
  between 9 13 c || between 28 32 c || (code c =? 133) || (code c =? 160).

(** [str.lower] for one character. *)
Definition lower (c : ascii) : ascii :=
  if between 65 90 c || (between 192 222 c && negb (code c =? 215))
  then ascii_of_nat (code c + 32) else c.

Definition is_az (c : ascii) : bool := between 97 122 c.
Definition is_AZ (c : ascii) : bool := between 65 90 c.
Definition is_alpha (c : ascii) : bool := is_az c || is_AZ c.

Definition eqb (a b : ascii) : bool := Ascii.eqb a b.

(** Membership of a character in a literal set of characters. *)
Fixpoint one_of (cs : string) (c : ascii) : bool :=
  match cs with
  | EmptyString => false
  | String d cs' => eqb c d || one_of cs' c
  end.

End Char.

(** ** The methods of [str] that the scripts use *)

Module Str.

Definition truthy (s : string) : bool :=
  match s with EmptyString => false | _ => true end.

(** [x or ''] for the result of a [dict.get]. *)
Definition or_empty (o : option string) : string := default "" o.

(** [str(x)] inside an f-string for the result of a [dict.get]. *)
Definition fmt (o : option string) : string := default "None" o.

Fixpoint filter (p : ascii -> bool) (s : string) : string :=
  match s with
  | EmptyString => EmptyString
  | String c s' => if p c then String c (filter p s') else filter p s'
  end.

Fixpoint map (f : ascii -> ascii) (s : string) : string :=
  match s with
  | EmptyString => EmptyString
  | String c s' => String (f c) (map f s')
  end.

Fixpoint all (p : ascii -> bool) (s : string) : bool :=
  match s with
  | EmptyString => true
  | String c s' => p c && all p s'
  end.

Fixpoint take (n : nat) (s : string) : string :=
  match n, s with
  | S n', String c s' => String c (take n' s')
  | _, _ => EmptyString
  end.

Fixpoint drop (n : nat) (s : string) : string :=
  match n, s with
  | S n', String _ s' => drop n' s'
  | _, _ => s
  end.

(** [s.lower()] *)
Definition lower (s : string) : string := map Char.lower s.

(** [s.lstrip(chars)], [s.rstrip(chars)] and [s.strip(chars)] for a set
    of characters given by its membership test. *)
Fixpoint lstrip_by (p : ascii -> bool) (s : string) : string :=
  match s with
  | EmptyString => EmptyString
  | String c s' => if p c then lstrip_by p s' else s
  end.

Fixpoint rstrip_by (p : ascii -> bool) (s : string) : string :=
  match s with
  | EmptyString => EmptyString
  | String c s' =>
      match rstrip_by p s' with
      | EmptyString => if p c then EmptyString else String c EmptyString
      | r => String c r
      end
  end.

Definition strip_by (p : ascii -> bool) (s : string) : string :=
  rstrip_by p (lstrip_by p s).

(** [s.strip()] *)
Definition strip (s : string) : string := strip_by Char.is_space s.

(** [s.startswith(p)] *)
Fixpoint startswith (p s : string) : bool :=
  match p, s with
  | EmptyString, _ => true
  | String a p', String b s' => Char.eqb a b && startswith p' s'
  | String _ _, EmptyString => false
  end.

(** [needle in s] *)
Fixpoint contains (needle s : string) : bool :=
  startswith needle s ||
  match s with
  | EmptyString => false
  | String _ s' => contains needle s'
  end.

(** [s.replace(c, "")] for a one-character [c]. *)
Definition remove (c : ascii) (s : string) : string :=
  filter (fun d => negb (Char.eqb d c)) s.

(** [s.isdigit()]: every character is a digit and there is at least one. *)
Definition isdigit (s : string) : bool := truthy s && all Char.is_digit s.

(** [sep.join(l)] *)
Fixpoint join (sep : string) (l : list string) : string :=
  match l with
  | [] => EmptyString
  | [x] => x
  | x :: l' => x +:+ sep +:+ join sep l'
  end.

(** [s[1:]] *)
Definition tail (s : string) : string := drop 1 s.

End Str.

(** ** The fragment of [re] that the scripts' patterns use

    Patterns are sequences and alternatives of character classes, greedy
    and lazy repetitions of a class, the anchors [^] and [$] (as under
    [re.MULTILINE], the only way the scripts use them) and capture groups.
    Matching is by backtracking with Python's priorities: the left
    alternative first, a greedy repetition as long as possible first, a
    lazy one as short as possible first. *)

Module Re.

Inductive regex : Type :=
| Eps
| Cls (p : ascii -> bool)
| Seq (r1 r2 : regex)
| Alt (r1 r2 : regex)
| Star (p : ascii -> bool)
| StarLazy (p : ascii -> bool)
| Bol
| Eol
| Grp (i : nat) (r : regex).

Definition caps : Type := list (nat * string).

Definition newline : ascii := ascii_of_nat 10.

(** [^] under MULTILINE: at the start, or just after a newline. *)
Definition at_bol (prev : option ascii) : bool :=
  match prev with
  | None => true
  | Some c => Char.eqb c newline
  end.

(** [$] under MULTILINE: at the end, or just before a newline. *)
Definition at_eol (s : string) : bool :=
  match s with
  | EmptyString => true
  | String c _ => Char.eqb c newline
  end.

Section Run.
Context {A : Type}.

(** The continuation receives the character before the current position,
    the rest of the subject and the groups captured so far. *)
Definition cont : Type := option ascii -> string -> caps -> option A.

Fixpoint star (p : ascii -> bool) (cs : caps) (k : cont)
    (prev : option ascii) (s : string) : option A :=
  match s with
  | String c s' =>
      if p c then
        match star p cs k (Some c) s' with
        | Some x => Some x
        | None => k prev s cs
        end
      else k prev s cs
  | EmptyString => k prev s cs
  end.

Fixpoint star_lazy (p : ascii -> bool) (cs : caps) (k : cont)
    (prev : option ascii) (s : string) : option A :=
  match k prev s cs with
  | Some x => Some x
  | None =>
      match s with
      | String c s' => if p c then star_lazy p cs k (Some c) s' else None
      | EmptyString => None
      end
  end.

Fixpoint run (r : regex) (prev : option ascii) (s : string) (cs : caps)
    (k : cont) : option A :=
  match r with
  | Eps => k prev s cs
  | Cls p =>
      match s with
      | String c s' => if p c then k (Some c) s' cs else None
      | EmptyString => None
      end
  | Seq r1 r2 =>
      run r1 prev s cs (fun prev' s' cs' => run r2 prev' s' cs' k)
  | Alt r1 r2 =>
      match run r1 prev s cs k with
      | Some x => Some x
      | None => run r2 prev s cs k
      end
  | Star p => star p cs k prev s
  | StarLazy p => star_lazy p cs k prev s
  | Bol => if at_bol prev then k prev s cs else None
  | Eol => if at_eol s then k prev s cs else None
  | Grp i r' =>
      run r' prev s cs (fun prev' s' cs' =>
        k prev' s' ((i, Str.take (String.length s - String.length s') s) :: cs'))
  end.

End Run.

(** Derived forms. *)
Definition Plus (p : ascii -> bool) : regex := Seq (Cls p) (Star p).
Definition PlusLazy (p : ascii -> bool) : regex := Seq (Cls p) (StarLazy p).
Definition Opt (r : regex) : regex := Alt r Eps.

Fixpoint Rep (n : nat) (r : regex) : regex :=
  match n with
  | 0 => Eps
  | S n' => Seq r (Rep n' r)
  end.

Fixpoint Lit (s : string) : regex :=
  match s with
  | EmptyString => Eps
  | String c s' => Seq (Cls (fun d => Char.eqb d c)) (Lit s')
  end.

(** A literal under [re.IGNORECASE]. *)
Fixpoint LitI (s : string) : regex :=
  match s with
  | EmptyString => Eps
  | String c s' =>
      Seq (Cls (fun d => Char.eqb (Char.lower d) (Char.lower c))) (LitI s')
  end.

Definition any_but_newline (c : ascii) : bool := negb (Char.eqb c newline).

(** The value of a group of a successful match. *)
Fixpoint group (i : nat) (cs : caps) : string :=
  match cs with
  | [] => EmptyString
  | (j, v) :: cs' => if j =? i then v else group i cs'
  end.

(** A match object: where the match starts in the subject, the matched
    text, the character before the end, what follows, and the groups. *)
Record found : Type := Found {
  f_start : nat;
  f_text : string;
  f_last : option ascii;
  f_rest : string;
  f_caps : caps
}.

(** A match that starts exactly at the current position. *)
Definition match_here (r : regex) (prev : option ascii) (s : string)
    : option found :=
  run r prev s [] (fun prev' s' cs =>
    Some (Found 0 (Str.take (String.length s - String.length s') s) prev' s' cs)).

(** [re.match(r, s)] *)
Definition match_ (r : regex) (s : string) : option found :=
  match_here r None s.

(** [re.fullmatch(r, s)], as a test. *)
Definition fullmatch (r : regex) (s : string) : bool :=
  match run r None s []
          (fun _ s' _ => if Str.truthy s' then None else Some tt) with
  | Some _ => true
  | None => false
  end.

Definition shift (f : found) : found :=
  Found (S (f_start f)) (f_text f) (f_last f) (f_rest f) (f_caps f).

(** The leftmost match at or after the current position. *)
Fixpoint search_from (r : regex) (prev : option ascii) (s : string)
    : option found :=
  match match_here r prev s with
  | Some f => Some f
  | None =>
      match s with
      | EmptyString => None
      | String c s' => shift <$> search_from r (Some c) s'
      end
  end.

(** [re.search(r, s)] *)
Definition search (r : regex) (s : string) : option found :=
  search_from r None s.

(** The successive non-overlapping matches, left to right. None of the
    patterns the scripts iterate over matches the empty string; if one
    did, the scan would move on by one character. *)
Fixpoint finditer_from (fuel : nat) (r : regex) (prev : option ascii)
    (s : string) : list found :=
  match fuel with
  | 0 => []
  | S fuel' =>
      match match_here r prev s with
      | Some f =>
          if String.length (f_rest f) <? String.length s
          then f :: finditer_from fuel' r (f_last f) (f_rest f)
          else f :: match s with
                    | EmptyString => []
                    | String c s' => finditer_from fuel' r (Some c) s'
                    end
      | None =>
          match s with
          | EmptyString => []
          | String c s' => finditer_from fuel' r (Some c) s'
          end
      end
  end.

(** [re.finditer(r, s)] *)
Definition finditer (r : regex) (s : string) : list found :=
  finditer_from (S (String.length s)) r None s.

(** [re.findall(r, s)] for a pattern without groups. *)
Definition findall (r : regex) (s : string) : list string :=
  f_text <$> finditer r s.

(** [re.sub(r, repl, s)] for a replacement without group references. *)
Fixpoint sub_from (fuel : nat) (r : regex) (repl : string)
    (prev : option ascii) (s : string) : string :=
  match fuel with
  | 0 => s
  | S fuel' =>
      match match_here r prev s with
      | Some f =>
          if String.length (f_rest f) <? String.length s
          then repl +:+ sub_from fuel' r repl (f_last f) (f_rest f)
          else repl +:+ match s with
                        | EmptyString => EmptyString
                        | String c s' =>
                            String c (sub_from fuel' r repl (Some c) s')
                        end
      | None =>
          match s with
          | EmptyString => EmptyString
          | String c s' => String c (sub_from fuel' r repl (Some c) s')
          end
      end
  end.

Definition sub (r : regex) (repl s : string) : string :=
  sub_from (S (String.length s)) r repl None s.

(** [re.split(r, s)] for a pattern without groups that cannot match the
    empty string: the pieces between the successive matches. *)
Fixpoint split_from (fuel : nat) (r : regex) (prev : option ascii)
    (s : string) (piece : string) : list string :=
  match fuel with
  | 0 => [piece +:+ s]
  | S fuel' =>
      match match_here r prev s with
      | Some f =>
          if String.length (f_rest f) <? String.length s
          then piece :: split_from fuel' r (f_last f) (f_rest f) EmptyString
          else match s with
               | EmptyString => [piece]
               | String c s' =>
                   split_from fuel' r (Some c) s' (piece +:+ String c EmptyString)
               end
      | None =>
          match s with
          | EmptyString => [piece]
          | String c s' =>
              split_from fuel' r (Some c) s' (piece +:+ String c EmptyString)
          end
      end
  end.

Definition split (r : regex) (s : string) : list string :=
  split_from (S (String.length s)) r None s EmptyString.

End Re.

(** ** Identity normaliser *)

Definition is_phone_number (name : string) : bool :=
  if negb (Str.truthy name) then false
  else
    let cleaned :=
      Str.remove ")" (Str.remove "(" (Str.remove " "
        (Str.remove "-" (Str.remove "+" name)))) in
    Str.isdigit cleaned && (7 <=? String.length cleaned).

(** [[^a-z0-9]] *)
Definition not_slug_char (c : ascii) : bool :=
  negb (Char.is_az c || Char.between 48 57 c).

Definition slugify (name : string) : string :=
  Str.strip_by (fun c => Char.eqb c "-")
    (Re.sub (Re.Plus not_slug_char) "-" (Str.lower name)).

(** [\D] *)
Definition not_decimal (c : ascii) : bool := negb (Char.is_decimal c).

Definition normalize_phone (raw : string) : string :=
  if negb (Str.truthy raw) then ""
  else
    let raw := Str.strip raw in
    let plus := if Str.startswith "+" raw then "+" else "" in
    let digits := Re.sub (Re.Plus not_decimal) "" raw in
    if Str.truthy digits then plus +:+ digits else "".

Definition normalize_email (raw : string) : string :=
  if negb (Str.truthy raw) then "" else Str.lower (Str.strip raw).

(** [[a-zA-Z0-9._%+-]], [[a-zA-Z0-9.-]] and [[a-zA-Z]] *)
Definition email_local_char (c : ascii) : bool :=
  Char.is_alpha c || Char.between 48 57 c || Char.one_of "._%+-" c.
Definition email_domain_char (c : ascii) : bool :=
  Char.is_alpha c || Char.between 48 57 c || Char.one_of ".-" c.

(** [[a-zA-Z0-9._%+-]+@[a-zA-Z0-9.-]+\.[a-zA-Z]{2,}] *)
Definition email_pattern : Re.regex :=
  Re.Seq (Re.Plus email_local_char)
    (Re.Seq (Re.Lit "@")
      (Re.Seq (Re.Plus email_domain_char)
        (Re.Seq (Re.Lit ".")
          (Re.Seq (Re.Rep 2 (Re.Cls Char.is_alpha)) (Re.Star Char.is_alpha))))).

(** The list the source returns is built from a set, so its order is not
    fixed; every caller turns it back into a set. *)
Definition extract_emails (text : string) : gset string :=
  if negb (Str.truthy text) then ∅
  else list_to_set (normalize_email <$> Re.findall email_pattern text).

(** [[\d()\s.\-]] *)
Definition phone_body_char (c : ascii) : bool :=
  Char.is_decimal c || Char.one_of "()" c || Char.is_space c
  || Char.one_of ".-" c.

(** [\+\d[\d()\s.\-]{7,}\d] *)
Definition phone_pattern : Re.regex :=
  Re.Seq (Re.Lit "+")
    (Re.Seq (Re.Cls Char.is_decimal)
      (Re.Seq (Re.Rep 7 (Re.Cls phone_body_char))
        (Re.Seq (Re.Star phone_body_char) (Re.Cls Char.is_decimal)))).

Definition extract_phones (text : string) : gset string :=
  if negb (Str.truthy text) then ∅
  else
    list_to_set
      (List.filter Str.truthy (normalize_phone <$> Re.findall phone_pattern text)).


(** ** Exceptions *)

Inductive exn : Type := ValueError.

Inductive result (A : Type) : Type :=
| Ok (a : A)
| Raise (e : exn).
Arguments Ok {A} a.
Arguments Raise {A} e.

Definition bind {A B : Type} (m : result A) (f : A -> result B) : result B :=
  match m with
  | Ok a => f a
  | Raise e => Raise e
  end.

#[global] Instance result_bind : MBind result := fun _ _ f m => bind m f.
#[global] Instance result_ret : MRet result := fun _ a => Ok a.

(** [try: return m / except Exception: pass], followed by [k]. *)
Definition try_return {A : Type} (m : result A) (k : result (option A))
    : result (option A) :=
  match m with
  | Ok a => Ok (Some a)
  | Raise _ => k
  end.

Fixpoint mapM {A B : Type} (f : A -> result B) (l : list A)
    : result (list B) :=
  match l with
  | [] => Ok []
  | x :: l' => y ← f x; ys ← mapM f l'; Ok (y :: ys)
  end.

(** ** [datetime] *)

(** A naive [datetime]. The microsecond is left out: [strptime] with the
    formats of the script sets it to zero, so does [datetime.min], and
    the report prints the clock to the minute. *)
Record datetime : Type := Datetime {
  year : nat; month : nat; day : nat;
  hour : nat; minute : nat; second : nat
}.

Definition datetime_min : datetime := Datetime 1 1 1 0 0 0.

Definition fields (d : datetime) : list nat :=
  [year d; month d; day d; hour d; minute d; second d].

Fixpoint lex_ltb (a b : list nat) : bool :=
  match a, b with
  | x :: a', y :: b' => (x <? y) || ((x =? y) && lex_ltb a' b')
  | [], _ :: _ => true
  | _, [] => false
  end.

(** [a < b] on [datetime]. *)
Definition dt_ltb (a b : datetime) : bool := lex_ltb (fields a) (fields b).

(** [a <= b] on [datetime]. *)
Definition dt_leb (a b : datetime) : bool := negb (dt_ltb b a).

Definition is_leap (y : nat) : bool :=
  (y mod 4 =? 0) && (negb (y mod 100 =? 0) || (y mod 400 =? 0)).

Definition days_in_month (y m : nat) : nat :=
  match m with
  | 2 => if is_leap y then 29 else 28
  | 4 | 6 | 9 | 11 => 30
  | _ => 31
  end.

(** The constructor [datetime(y, m, d, H, M, S)] with its range checks. *)
Definition make_datetime (y m d H M S : nat) : result datetime :=
  if (1 <=? y) && (y <=? 9999) && (1 <=? m) && (m <=? 12)
     && (1 <=? d) && (d <=? days_in_month y m)
     && (H <=? 23) && (M <=? 59) && (S <=? 59)
  then Ok (Datetime y m d H M S)
  else Raise ValueError.

(** [int(s)] for a string of decimal digits and blanks. *)
Definition int_of (s : string) : nat :=
  let fix go (acc : nat) (s : string) : nat :=
    match s with
    | EmptyString => acc
    | String c s' =>
        if Char.is_decimal c then go (10 * acc + (Char.code c - 48)) s'
        else go acc s'
    end in
  go 0 s.

(** *** [datetime.strptime]

    As in CPython's [_strptime]: the format is turned into a pattern, one
    group per directive, a run of blanks of the format standing for
    [\s+]; the pattern is matched at the start of the data, anything left
    over is an error, and so is a field out of range. Only the directives
    the script uses are given. *)
Module Strptime.

Definition range (lo hi : string) (c : ascii) : bool :=
  match lo, hi with
  | String l _, String h _ => Char.between (Char.code l) (Char.code h) c
  | _, _ => false
  end.

Definition dig : Re.regex := Re.Cls Char.is_decimal.

Definition directive (c : ascii) : option Re.regex :=
  let g := Re.Grp (Char.code c) in
  if Char.eqb c "Y" then
    (* \d\d\d\d *)
    Some (g (Re.Rep 4 dig))
  else if Char.eqb c "m" then
    (* 1[0-2]|0[1-9]|[1-9] *)
    Some (g (Re.Alt (Re.Seq (Re.Lit "1") (Re.Cls (range "0" "2")))
            (Re.Alt (Re.Seq (Re.Lit "0") (Re.Cls (range "1" "9")))
                    (Re.Cls (range "1" "9")))))
  else if Char.eqb c "d" then
    (* 3[0-1]|[1-2]\d|0[1-9]|[1-9]| [1-9] *)
    Some (g (Re.Alt (Re.Seq (Re.Lit "3") (Re.Cls (range "0" "1")))
            (Re.Alt (Re.Seq (Re.Cls (range "1" "2")) dig)
            (Re.Alt (Re.Seq (Re.Lit "0") (Re.Cls (range "1" "9")))
            (Re.Alt (Re.Cls (range "1" "9"))
                    (Re.Seq (Re.Lit " ") (Re.Cls (range "1" "9"))))))))
  else if Char.eqb c "H" then
    (* 2[0-3]|[0-1]\d|\d *)
    Some (g (Re.Alt (Re.Seq (Re.Lit "2") (Re.Cls (range "0" "3")))
            (Re.Alt (Re.Seq (Re.Cls (range "0" "1")) dig) dig)))
  else if Char.eqb c "M" then
    (* [0-5]\d|\d *)
    Some (g (Re.Alt (Re.Seq (Re.Cls (range "0" "5")) dig) dig))
  else if Char.eqb c "S" then
    (* 6[0-1]|[0-5]\d|\d *)
    Some (g (Re.Alt (Re.Seq (Re.Lit "6") (Re.Cls (range "0" "1")))
            (Re.Alt (Re.Seq (Re.Cls (range "0" "5")) dig) dig)))
  else None.

(** The pattern of a format; [None] for a directive that is not given
    above. [in_blank] is set inside a run of blanks of the format. *)
Fixpoint pattern (in_blank : bool) (fmt : string) : option Re.regex :=
  match fmt with
  | EmptyString => Some Re.Eps
  | String c fmt' =>
      if Char.eqb c "%" then
        match fmt' with
        | String d fmt'' =>
            r ← directive d; rest ← pattern false fmt''; Some (Re.Seq r rest)
        | EmptyString => None
        end
      else if Char.is_space c then
        rest ← pattern true fmt';
        Some (if in_blank then rest else Re.Seq (Re.Plus Char.is_space) rest)
      else
        rest ← pattern false fmt';
        Some (Re.Seq (Re.Cls (fun x => Char.eqb (Char.lower x) (Char.lower c))) rest)
  end.

(** The value of the group of a directive; a field the format does not
    set keeps its default. *)
Definition field (cs : Re.caps) (c : string) (dflt : nat) : nat :=
  match c with
  | String a _ =>
      if existsb (fun e => fst e =? Char.code a) cs
      then int_of (Re.group (Char.code a) cs) else dflt
  | EmptyString => dflt
  end.

Definition strptime (data fmt : string) : result datetime :=
  match pattern false fmt with
  | None => Raise ValueError
  | Some r =>
      match Re.match_ r data with
      | None => Raise ValueError
      | Some f =>
          if Str.truthy (Re.f_rest f) then Raise ValueError
          else
            let cs := Re.f_caps f in
            make_datetime (field cs "Y" 1900) (field cs "m" 1) (field cs "d" 1)
                          (field cs "H" 0) (field cs "M" 0) (field cs "S" 0)
      end
  end.

End Strptime.

Definition parse_dt_maybe (s : string) : result (option datetime) :=
  if negb (Str.truthy s) then Ok None
  else
    let s := Str.strip s in
    try_return (Strptime.strptime (Str.take 19 s) "%Y-%m-%d %H:%M:%S")
   (try_return (Strptime.strptime (Str.take 16 s) "%Y-%m-%d %H:%M")
   (try_return (Strptime.strptime (Str.take 10 s) "%Y-%m-%d")
   (Ok None))).


(** ** Contact Directory *)

(** A row of one of the two queries: the handle and the owner's name. *)
Definition row : Type := (string * string)%type.

(** What the two queries of one address book return. A read that fails
    part-way leaves the entries made so far, like an address book that
    ends with the rows read so far. *)
Record addressbook : Type := AddressBook {
  phone_rows : list row;
  email_rows : list row
}.

Definition register_phone (handle_to_name : gmap string string) (r : row)
    : gmap string string :=
  let phone := Str.strip (fst r) in
  let name := Str.strip (snd r) in
  if Str.truthy phone && Str.truthy name && negb (String.eqb name "Unknown")
  then
    let m := <[phone := name]> handle_to_name in
    let m := if Str.startswith "+" phone then <[Str.tail phone := name]> m else m in
    let normalized :=
      Str.remove "-" (Str.remove " " (Str.remove ")" (Str.remove "("
        (Str.remove "+" phone)))) in
    <[normalized := name]> m
  else handle_to_name.

Definition register_email (handle_to_name : gmap string string) (r : row)
    : gmap string string :=
  let email := Str.lower (Str.strip (fst r)) in
  let name := Str.strip (snd r) in
  if Str.truthy email && Str.truthy name && negb (String.eqb name "Unknown")
  then <[email := name]> handle_to_name
  else handle_to_name.

(** One round of the loop over [all_dbs]; [None] is a database file that
    is not there or cannot be opened. *)
Definition load_db (handle_to_name : gmap string string)
    (db : option addressbook) : gmap string string :=
  match db with
  | None => handle_to_name
  | Some ab =>
      foldl register_email
        (foldl register_phone handle_to_name (phone_rows ab))
        (email_rows ab)
  end.

Definition load_contacts_map (all_dbs : list (option addressbook))
    : gmap string string :=
  foldl load_db ∅ all_dbs.

Definition resolve_phone_to_name (identifier : string)
    (contacts_map : gmap string string) : string :=
  if negb (Str.truthy identifier) || negb (Str.startswith "+" identifier)
  then ""
  else
    match contacts_map !! identifier with
    | Some v => v
    | None =>
        match contacts_map !! Str.tail identifier with
        | Some v => v
        | None =>
            let normalized :=
              Str.remove "-" (Str.remove " " (Str.remove ")" (Str.remove "("
                (Str.remove "+" identifier)))) in
            match contacts_map !! normalized with
            | Some v => v
            | None => ""
            end
        end
    end.

(** ** People-File Index *)

(** [s.splitlines()] *)
Definition is_linebreak (c : ascii) : bool :=
  Char.between 10 13 c || Char.between 28 30 c || (Char.code c =? 133).

Fixpoint splitlines_from (cur : string) (after_cr : bool) (s : string)
    : list string :=
  match s with
  | EmptyString => if Str.truthy cur then [cur] else []
  | String c s' =>
      if after_cr && (Char.code c =? 10) then splitlines_from cur false s'
      else if is_linebreak c
      then cur :: splitlines_from EmptyString (Char.code c =? 13) s'
      else splitlines_from (cur +:+ String c EmptyString) false s'
  end.

Definition splitlines (s : string) : list string :=
  splitlines_from EmptyString false s.

(** [\d{4}-\d{2}-\d{2}] *)
Definition ymd : Re.regex :=
  Re.Seq (Re.Rep 4 Strptime.dig)
    (Re.Seq (Re.Lit "-") (Re.Seq (Re.Rep 2 Strptime.dig)
      (Re.Seq (Re.Lit "-") (Re.Rep 2 Strptime.dig)))).

(** [^\s*-\s*\*\*Last Updated:\*\*\s*(\d{4}-\d{2}-\d{2})\s*$] *)
Definition last_updated_field : Re.regex :=
  Re.Seq Re.Bol (Re.Seq (Re.Star Char.is_space) (Re.Seq (Re.Lit "-")
    (Re.Seq (Re.Star Char.is_space) (Re.Seq (Re.Lit "**Last Updated:**")
      (Re.Seq (Re.Star Char.is_space) (Re.Seq (Re.Grp 1 ymd)
        (Re.Seq (Re.Star Char.is_space) Re.Eol))))))).

(** [^\s*##\s+Last Updated\s*$] *)
Definition last_updated_heading : Re.regex :=
  Re.Seq Re.Bol (Re.Seq (Re.Star Char.is_space) (Re.Seq (Re.Lit "##")
    (Re.Seq (Re.Plus Char.is_space) (Re.Seq (Re.Lit "Last Updated")
      (Re.Seq (Re.Star Char.is_space) Re.Eol))))).

(** The loop over the lines after the heading: the first line with a
    date decides. *)
Fixpoint first_date (lines : list string) : option (result (option datetime)) :=
  match lines with
  | [] => None
  | line :: lines' =>
      match Re.search (Re.Grp 1 ymd) line with
      | Some dm => Some (parse_dt_maybe (Re.group 1 (Re.f_caps dm)))
      | None => first_date lines'
      end
  end.

Definition parse_last_updated_date (text : string) : result (option datetime) :=
  if negb (Str.truthy text) then Ok None
  else
    match Re.search last_updated_field text with
    | Some m => parse_dt_maybe (Re.group 1 (Re.f_caps m))
    | None =>
        match Re.search last_updated_heading text with
        | Some m =>
            let after_lines := splitlines (Re.f_rest m) in
            default (Ok None) (first_date (take 10 after_lines))
        | None => Ok None
        end
    end.

(** A file of the people directory: the stem of its name and what
    [read_text()] gives, [None] when the read raises. *)
Record people_file : Type := PeopleFile {
  pf_stem : string;
  pf_text : option string
}.

(** The record of one file, without its [path]. *)
Record person_record : Type := PersonRecord {
  slug : string;
  names : gset string;
  emails : gset string;
  phones : gset string;
  last_updated : option datetime
}.

(** [^\s*#\s+(.+?)\s*$] *)
Definition title_pattern : Re.regex :=
  Re.Seq Re.Bol (Re.Seq (Re.Star Char.is_space) (Re.Seq (Re.Lit "#")
    (Re.Seq (Re.Plus Char.is_space)
      (Re.Seq (Re.Grp 1 (Re.PlusLazy Re.any_but_newline))
        (Re.Seq (Re.Star Char.is_space) Re.Eol))))).

(** [^\s*-\s*\*\*Name:\*\*\s*(.+?)\s*$] *)
Definition name_field_pattern : Re.regex :=
  Re.Seq Re.Bol (Re.Seq (Re.Star Char.is_space) (Re.Seq (Re.Lit "-")
    (Re.Seq (Re.Star Char.is_space) (Re.Seq (Re.Lit "**Name:**")
      (Re.Seq (Re.Star Char.is_space)
        (Re.Seq (Re.Grp 1 (Re.PlusLazy Re.any_but_newline))
          (Re.Seq (Re.Star Char.is_space) Re.Eol))))))).

(** The two quote classes of the alias pattern, under IGNORECASE. Of the
    characters the source file lists in them, the double quote and U+00E2
    lie in the range of this model. *)
Definition alias_quote (c : ascii) : bool :=
  (Char.code c =? 34) || (Char.code (Char.lower c) =? 226).

(** [aka\s+[...](.+?)[...]] with [re.IGNORECASE] *)
Definition alias_pattern : Re.regex :=
  Re.Seq (Re.LitI "aka") (Re.Seq (Re.Plus Char.is_space)
    (Re.Seq (Re.Cls alias_quote)
      (Re.Seq (Re.Grp 1 (Re.PlusLazy Re.any_but_newline))
        (Re.Cls alias_quote)))).

(** The stripped, non-empty values of group 1 of a list of matches. *)
Definition group1_values (ms : list Re.found) : list string :=
  List.filter Str.truthy ((fun m => Str.strip (Re.group 1 (Re.f_caps m))) <$> ms).

Definition parse_people_file (md : people_file) : result person_record :=
  match pf_text md with
  | None =>
      Ok (PersonRecord (Str.lower (pf_stem md)) ∅ ∅ ∅ None)
  | Some text =>
      let title := group1_values (option_list (Re.search title_pattern text)) in
      let fields := group1_values (Re.finditer name_field_pattern text) in
      let names0 := title ++ fields in
      let aliases :=
        n ← names0; group1_values (Re.finditer alias_pattern n) in
      lu ← parse_last_updated_date text;
      Ok (PersonRecord (Str.lower (pf_stem md))
            (list_to_set (names0 ++ aliases))
            (extract_emails text) (extract_phones text) lu)
  end.

(** The four lookup sets. *)
Record people_index : Type := PeopleIndex {
  existing_slugs : gset string;
  existing_names : gset string;
  existing_emails : gset string;
  existing_phones : gset string
}.

Definition empty_index : people_index := PeopleIndex ∅ ∅ ∅ ∅.

Definition add_record (ix : people_index) (rec : person_record) : people_index :=
  PeopleIndex ({[slug rec]} ∪ existing_slugs ix)
              (set_map slugify (names rec) ∪ existing_names ix)
              (emails rec ∪ existing_emails ix)
              (phones rec ∪ existing_phones ix).

Fixpoint load_files (ix : people_index) (files : list people_file)
    : result people_index :=
  match files with
  | [] => Ok ix
  | md :: files' =>
      rec ← parse_people_file md;
      load_files (add_record ix rec) files'
  end.

(** [people_dir] is [None] when the directory does not exist, and
    otherwise the files that [glob("*.md")] yields. *)
Definition load_people_index (people_dir : option (list people_file))
    : result people_index :=
  match people_dir with
  | None => Ok empty_index
  | Some files => load_files empty_index files
  end.


(** ** Observed contacts *)

Record message : Type := Message {
  m_date : option string;
  m_sender : option string;
  m_preview : option string
}.

(** The keys of a contact dictionary that the resolver reads or writes;
    [c_recent] is [c.get('recent') or []]. *)
Record contact : Type := Contact {
  c_name : option string;
  c_identifier : option string;
  c_last_msg : option string;
  c_recent : list message;
  c_resolved_name : option string
}.

(** [c['resolved_name'] = v] *)
Definition set_resolved_name (v : string) (c : contact) : contact :=
  Contact (c_name c) (c_identifier c) (c_last_msg c) (c_recent c) (Some v).

Definition IMESSAGE_SYSTEM_MARKERS : list string :=
  [ "verification code"; "one-time passcode"; "we'll never ask you for it";
    "track your order"; "estimated delivery window"; "your order";
    "reply at http"; "reply at https"; "view at:"; "sent a text blast";
    "support@"; "noreply"; "no-reply";
    "x$versiony$archivert$topx$objects"; "nsattributedstring";
    "streamtyped@nsattributedstring" ].

Definition IMESSAGE_EXCLUDE_NAMES : gset string :=
  list_to_set ["dad"; "mom"; "mum"; "mother"; "father"; "grandma"; "grandpa"].

(** [\d{4,6}] *)
Definition short_code : Re.regex :=
  Re.Seq (Re.Rep 4 Strptime.dig)
    (Re.Seq (Re.Opt Strptime.dig) (Re.Opt Strptime.dig)).

Definition has_marker (previews : string) : bool :=
  existsb (fun marker => Str.contains marker previews) IMESSAGE_SYSTEM_MARKERS.

Definition is_likely_system_imessage_contact (c : contact) : bool :=
  let name := Str.strip (Str.or_empty (c_name c)) in
  let identifier := Str.strip (Str.or_empty (c_identifier c)) in
  if Re.fullmatch short_code (if Str.truthy name then name else identifier)
  then true
  else if bool_decide (Str.lower name ∈ ({["unknown"; "identifier"]} : gset string))
  then true
  else
    let previews :=
      Str.lower (Str.join " " ((fun m => Str.or_empty (m_preview m)) <$> c_recent c)) in
    if has_marker previews then true
    else if (Str.startswith "+" name || Str.startswith "+" identifier)
            && has_marker previews
    then true
    else false.

(** ** The resolver *)

Record loop_state : Type := LoopState {
  named_candidates : list contact;
  unknown_number_candidates : list contact;
  seen_unknown_numbers : gset string
}.

Definition add_named (c : contact) (st : loop_state) : loop_state :=
  LoopState (named_candidates st ++ [c]) (unknown_number_candidates st)
            (seen_unknown_numbers st).

Definition add_unknown (num : string) (c : contact) (st : loop_state)
    : loop_state :=
  LoopState (named_candidates st) (unknown_number_candidates st ++ [c])
            ({[num]} ∪ seen_unknown_numbers st).

(** The name/slug match against the people files: the slug of the name,
    and the slug of its first and last word. *)
Definition name_in_people (ix : people_index) (name : string) : bool :=
  let s := slugify name in
  if bool_decide (s ∈ existing_slugs ix) || bool_decide (s ∈ existing_names ix)
  then true
  else
    let parts := List.filter Str.truthy (Re.split (Re.Plus Char.is_space) name) in
    if 2 <=? length parts then
      let first_last :=
        slugify (default "" (head parts) +:+ " " +:+ default "" (last parts)) in
      bool_decide (first_last ∈ existing_slugs ix)
      || bool_decide (first_last ∈ existing_names ix)
    else false.

(** One round of the loop over [imessage_contacts]; a [continue] gives
    the state back unchanged. *)
Definition loop_body (ix : people_index) (contacts_map : gmap string string)
    (st : loop_state) (c : contact) : loop_state :=
  let name := Str.strip (Str.or_empty (c_name c)) in
  let identifier := Str.strip (Str.or_empty (c_identifier c)) in
  let '(name, c) :=
    if is_phone_number name || negb (Str.truthy name) then
      let resolved := resolve_phone_to_name identifier contacts_map in
      if Str.truthy resolved
      then (resolved, set_resolved_name resolved c)
      else (name, c)
    else (name, c) in
  if bool_decide (Str.lower name ∈ IMESSAGE_EXCLUDE_NAMES) then st
  else if is_likely_system_imessage_contact c then st
  else
    let identifier_email :=
      if Str.contains "@" identifier then normalize_email identifier else "" in
    if Str.truthy identifier_email
       && bool_decide (identifier_email ∈ existing_emails ix) then st
    else
      let norm_phone :=
        if Str.startswith "+" identifier then normalize_phone identifier
        else if Str.startswith "+" name then normalize_phone name
        else "" in
      if Str.truthy norm_phone && bool_decide (norm_phone ∈ existing_phones ix)
      then st
      else if Str.truthy name && negb (is_phone_number name)
              && negb (Str.contains "@" name) && name_in_people ix name
      then st
      else if Str.contains "@" name
              && bool_decide (normalize_email name ∈ existing_emails ix)
      then st
      else if Str.truthy name && negb (is_phone_number name)
              && negb (Str.contains "@" name)
      then add_named c st
      else if Str.contains "@" identifier
              && negb (bool_decide (normalize_email identifier ∈ existing_emails ix))
      then add_named c st
      else if Str.startswith "+" identifier || is_phone_number name then
        let num :=
          normalize_phone (if Str.startswith "+" identifier then identifier else name) in
        if Str.truthy num && negb (bool_decide (num ∈ seen_unknown_numbers st))
        then
          let resolved := resolve_phone_to_name identifier contacts_map in
          if Str.truthy resolved
          then add_named (set_resolved_name resolved c) st
          else add_unknown num c st
        else st
      else st.

Definition classify_contacts (ix : people_index)
    (contacts_map : gmap string string) (imessage_contacts : list contact)
    : loop_state :=
  foldl (loop_body ix contacts_map) (LoopState [] [] ∅) imessage_contacts.

(** [parse_dt_maybe(c.get('last_msg') or '') or datetime.min]; a
    [datetime] is never falsy. *)
Definition sort_key (c : contact) : result datetime :=
  d ← parse_dt_maybe (Str.or_empty (c_last_msg c));
  Ok (default datetime_min d).

(** [l.sort(key=sort_key, reverse=True)]: the keys are computed first,
    one per element; the sort is stable, and with [reverse=True] elements
    with equal keys still keep their order. *)
Fixpoint insert_desc (x : datetime * contact) (l : list (datetime * contact))
    : list (datetime * contact) :=
  match l with
  | [] => [x]
  | y :: l' =>
      if dt_ltb (fst x) (fst y) then y :: insert_desc x l' else x :: y :: l'
  end.

Definition sort_desc (l : list (datetime * contact)) : list (datetime * contact) :=
  foldr insert_desc [] l.

Definition sort_by_key_reverse (l : list contact) : result (list contact) :=
  keys ← mapM sort_key l;
  Ok (snd <$> sort_desc (zip keys l)).

(** ** The report *)

Definition nl : string := String Re.newline EmptyString.

(** The UTF-8 encoding of a text of this model. *)
Fixpoint utf8 (s : string) : string :=
  match s with
  | EmptyString => EmptyString
  | String c s' =>
      if Char.code c <? 128 then String c (utf8 s')
      else String (ascii_of_nat (192 + Char.code c / 64))
             (String (ascii_of_nat (128 + Char.code c mod 64)) (utf8 s'))
  end.

(** A number in decimal, filled with zeros on the left to [width]. *)
Definition zero_padded (width n : nat) : string :=
  let digits := pretty n in
  String.concat "" (replicate (width - String.length digits) "0") +:+ digits.

(** [d.strftime('%Y-%m-%d %H:%M')] *)
Definition strftime_minute (d : datetime) : string :=
  zero_padded 4 (year d) +:+ "-" +:+ zero_padded 2 (month d) +:+ "-"
  +:+ zero_padded 2 (day d) +:+ " " +:+ zero_padded 2 (hour d) +:+ ":"
  +:+ zero_padded 2 (minute d).

(** [a or b] on the results of [dict.get]. *)
Definition py_or (a b : option string) : option string :=
  match a with
  | Some s => if Str.truthy s then a else b
  | None => b
  end.

(** [l[-n:]] for [n > 0] *)
Definition last_n {A : Type} (n : nat) (l : list A) : list A :=
  drop (length l - n) l.

Definition write_lines (lines : list string) : string := String.concat "" lines.

(** The previews of a candidate: the last [n] of [c['recent']]. *)
Definition write_previews (n : nat) (c : contact) : string :=
  match c_recent c with
  | [] => ""
  | _ =>
      "  - Recent previews:" +:+ nl +:+
      write_lines ((fun m =>
        "    - [" +:+ utf8 (Str.fmt (m_date m)) +:+ "] "
        +:+ utf8 (Str.fmt (m_sender m)) +:+ ": "
        +:+ utf8 (Str.fmt (m_preview m)) +:+ nl) <$> last_n n (c_recent c))
  end.

Definition write_named (c : contact) : string :=
  let display_name :=
    py_or (c_resolved_name c) (py_or (c_name c) (c_identifier c)) in
  "- **" +:+ utf8 (Str.fmt display_name) +:+ "**" +:+ nl +:+
  (if Str.truthy (Str.or_empty (c_identifier c))
   then "  - Phone/ID: " +:+ utf8 (Str.fmt (c_identifier c)) +:+ nl else "") +:+
  "  - Last message: " +:+ utf8 (Str.fmt (c_last_msg c)) +:+ nl +:+
  write_previews 3 c.

Definition write_unknown (c : contact) : string :=
  let display := py_or (c_identifier c) (c_name c) in
  "- **" +:+ utf8 (Str.fmt display) +:+ "**" +:+ nl +:+
  "  - Last message: " +:+ utf8 (Str.fmt (c_last_msg c)) +:+ nl +:+
  write_previews 2 c.

(** The bytes written to the report, for the clock value [now]. The
    section headings are the bytes of the source's string literals. *)
Definition write_report (now : datetime) (named unknown : list contact) : string :=
  "# New People Candidates (from iMessages)" +:+ nl +:+
  "*Generated: " +:+ strftime_minute now +:+ "*" +:+ nl +:+ nl +:+
  "This report is a best-effort diff of iMessage contacts against `people/*.md`."
  +:+ nl +:+ nl +:+
  "## ðŸ“Š Summary" +:+ nl +:+ nl +:+
  "- **Named candidates:** " +:+ pretty (length named) +:+ nl +:+
  "- **Unknown-number candidates:** " +:+ pretty (length unknown) +:+ nl +:+ nl +:+
  (match named with
   | [] => ""
   | _ =>
       "## âœ… Named candidates (recommended)" +:+ nl +:+ nl +:+
       write_lines (write_named <$> named) +:+ nl
   end) +:+
  (match unknown with
   | [] => ""
   | _ =>
       "## ðŸ¤· Unknown-number candidates (manual triage)" +:+ nl +:+ nl +:+
       "*These phone numbers could not be resolved to a contact name.*"
       +:+ nl +:+ nl +:+
       write_lines (write_unknown <$> take 50 unknown) +:+
       (if 50 <? length unknown
        then nl +:+ "*...and " +:+ pretty (length unknown - 50)
             +:+ " more unknown-number candidates*" +:+ nl
        else "") +:+
       nl
   end).

(** What a run leaves behind: the two lists and the text of the report. *)
Record report : Type := Report {
  r_named : list contact;
  r_unknown : list contact;
  r_text : string
}.

(** The whole function, for the people directory, the address books and
    the clock it reads. *)
Definition generate_new_people_candidates_report
    (imessage_contacts : list contact)
    (people_dir : option (list people_file))
    (all_dbs : list (option addressbook))
    (now : datetime) : result report :=
  ix ← load_people_index people_dir;
  let contacts_map := load_contacts_map all_dbs in
  let st := classify_contacts ix contacts_map imessage_contacts in
  named ← sort_by_key_reverse (named_candidates st);
  unknown ← sort_by_key_reverse (unknown_number_candidates st);
  Ok (Report named unknown (write_report now named unknown)).


(** ** Outreach drafts *)

(** One round of the loop of [generate_outreach_drafts_report] over
    [imessage_contacts]; a [continue] gives the list back unchanged. *)
Definition outreach_body (ix : people_index) (contacts_map : gmap string string)
    (im_candidates : list contact) (c : contact) : list contact :=
  let name := Str.strip (Str.or_empty (c_name c)) in
  let identifier := Str.strip (Str.or_empty (c_identifier c)) in
  if negb (Str.startswith "+" identifier || Str.contains "@" identifier)
  then im_candidates
  else
    let resolved_or_skip :=
      if negb (Str.truthy name) || is_phone_number name then
        let resolved := resolve_phone_to_name identifier contacts_map in
        if Str.truthy resolved then Some resolved else None
      else Some name in
    match resolved_or_skip with
    | None => im_candidates
    | Some name =>
        if bool_decide (Str.lower name ∈ IMESSAGE_EXCLUDE_NAMES) then im_candidates
        else if is_likely_system_imessage_contact c then im_candidates
        else if Str.startswith "+" identifier
                && bool_decide (normalize_phone identifier ∈ existing_phones ix)
        then im_candidates
        else if Str.contains "@" identifier
                && bool_decide (normalize_email identifier ∈ existing_emails ix)
        then im_candidates
        else if bool_decide (slugify name ∈ existing_slugs ix)
                || bool_decide (slugify name ∈ existing_names ix)
        then im_candidates
        else im_candidates ++ [set_resolved_name name c]
    end.

(** The iMessage candidates of [generate_outreach_drafts_report], for the
    people directory and the address books it reads. *)
Definition outreach_im_candidates (imessage_contacts : list contact)
    (people_dir : option (list people_file))
    (all_dbs : list (option addressbook)) : result (list contact) :=
  ix ← load_people_index people_dir;
  let contacts_map := load_contacts_map all_dbs in
  Ok (foldl (outreach_body ix contacts_map) [] imessage_contacts).

(** ** Email export *)

Definition EMAIL_EXCLUDE_PATTERNS : list string :=
  [ "@newsletter."; "@email."; "@mail."; "@e."; "@news.";
    "@offers."; "@promo."; "@marketing."; "@notifications.";
    "@alerts."; "@updates."; "@digest."; "@info.";
    "noreply@"; "no-reply@"; "donotreply@";
    "@noreply."; "@no-reply.";
    "@substack.com"; "@beehiiv.com"; "@mailchimp.com";
    "@sendgrid.net"; "@amazonaws.com"; "@mailgun.org";
    "@constantcontact.com"; "@hubspot.com";
    "@linkedin.com"; "@slack.com"; "@github.com";
    "@twitter.com"; "@facebook.com"; "@instagram.com";
    "@reddit.com"; "@discord.com";
    "@paypal.com"; "@stripe.com"; "@venmo.com";
    "@square.com"; "@shopify.com";
    "adamandeve"; "bodybuilding.com"; "nordstrom";
    "cookunity"; "ubereats"; "doordash";
    "producthunt"; "parkmobile"; "experian";
    "rocketmoney"; "capitalone"; "schwab";
    "savethechildren"; "hims.com"; "nytimes";
    "@notification"; "@mailer."; "@bulk." ].

Definition SUBJECT_EXCLUDE_PATTERNS : list string :=
  [ "unsubscribe"; "verification code"; "password reset";
    "your order"; "your receipt"; "payment received";
    "budget update"; "price alert"; "just scheduled" ].

Definition should_exclude_email (email name subject : string) : bool :=
  let email_lower := Str.lower email in
  let name_lower := if Str.truthy name then Str.lower name else "" in
  let subject_lower := if Str.truthy subject then Str.lower subject else "" in
  if existsb (fun pattern => Str.contains (Str.lower pattern) email_lower)
       EMAIL_EXCLUDE_PATTERNS
  then true
  else if existsb (fun pattern => Str.contains (Str.lower pattern) subject_lower)
            SUBJECT_EXCLUDE_PATTERNS
  then true
  else false.

(** [a < b] on [str]: by code points, a proper prefix first. *)
Fixpoint str_ltb (a b : string) : bool :=
  match a, b with
  | String x a', String y b' =>
      (Char.code x <? Char.code y)
      || ((Char.code x =? Char.code y) && str_ltb a' b')
  | EmptyString, String _ _ => true
  | _, EmptyString => false
  end.

(** [s.split(sep)] for a one-character [sep]. *)
Fixpoint split_on_from (sep : ascii) (cur : string) (s : string) : list string :=
  match s with
  | EmptyString => [cur]
  | String c s' =>
      if Char.eqb c sep then cur :: split_on_from sep EmptyString s'
      else split_on_from sep (cur +:+ String c EmptyString) s'
  end.

Definition split_on (sep : ascii) (s : string) : list string :=
  split_on_from sep EmptyString s.

Definition is_dash (c : ascii) : bool := Char.eqb c "-".

(** [^-+\s*-+] *)
Definition separator_pattern : Re.regex :=
  Re.Seq Re.Bol (Re.Seq (Re.Plus is_dash)
    (Re.Seq (Re.Star Char.is_space) (Re.Plus is_dash))).

(** [\s{2,}] *)
Definition column_gap : Re.regex :=
  Re.Seq (Re.Cls Char.is_space) (Re.Plus Char.is_space).

(** [(.*?)\s*<(.+?)>] *)
Definition from_pattern : Re.regex :=
  Re.Seq (Re.Grp 1 (Re.StarLazy Re.any_but_newline))
    (Re.Seq (Re.Star Char.is_space) (Re.Seq (Re.Lit "<")
      (Re.Seq (Re.Grp 2 (Re.PlusLazy Re.any_but_newline)) (Re.Lit ">")))).

(** One round of the loop that picks the data lines: the flag [in_data]
    and the lines kept so far. *)
Definition scan_line (st : bool * list string) (line : string)
    : bool * list string :=
  let '(in_data, data_lines) := st in
  if negb (Str.truthy (Str.strip line)) then st
  else if bool_decide (is_Some (Re.match_ separator_pattern line))
  then (true, data_lines)
  else if Str.startswith "#" line || Str.startswith "Timeframe:" line then st
  else if Str.contains "Date" line && Str.contains "From" line
          && Str.contains "Subject" line
  then st
  else if in_data then (in_data, data_lines ++ [line])
  else st.

Definition data_lines_of (lines : list string) : list string :=
  snd (foldl scan_line (false, []) lines).

(** An entry of the list [emails] of a sender. *)
Record email_entry : Type := EmailEntry {
  e_date : string;
  e_subject : string;
  e_preview : string
}.

(** The summary of a sender: the keys of its dictionary. *)
Record sender : Type := Sender {
  s_emails : list email_entry;
  s_count : nat;
  s_last_date : option string;
  s_name : option string;
  s_email : option string
}.

(** The value the [defaultdict] makes for a new key. *)
Definition new_sender : sender := Sender [] 0 None None None.

(** The updates of [contacts[key]] for one email. *)
Definition record_email (contacts : gmap string sender)
    (date name email subject body_preview : string) : gmap string sender :=
  let key := Str.lower email in
  let entry := default new_sender (contacts !! key) in
  let last_date :=
    if negb (Str.truthy (Str.or_empty (s_last_date entry)))
       || str_ltb (Str.or_empty (s_last_date entry)) date
    then Some date else s_last_date entry in
  <[key := Sender (s_emails entry
                     ++ [EmailEntry date subject (Str.take 100 body_preview)])
                  (s_count entry + 1) last_date (Some name) (Some email)]> contacts.

(** One round of the loop over the data lines. *)
Definition parse_data_line (contacts : gmap string sender) (line : string)
    : gmap string sender :=
  let parts := Re.split column_gap (Str.strip line) in
  if 3 <=? length parts then
    let date := Str.strip (nth 0 parts "") in
    let from_addr := Str.strip (nth 1 parts "") in
    let subject := if 2 <? length parts then Str.strip (nth 2 parts "") else "" in
    let body_preview :=
      if 3 <? length parts then Str.strip (nth 3 parts "") else "" in
    if Str.truthy from_addr && Str.contains "@" from_addr then
      let '(name, email) :=
        match Re.search from_pattern from_addr with
        | Some name_match =>
            (Str.strip (Re.group 1 (Re.f_caps name_match)),
             Str.strip (Re.group 2 (Re.f_caps name_match)))
        | None => (from_addr, from_addr)
        end in
      if should_exclude_email email name subject then contacts
      else record_email contacts date name email subject body_preview
    else contacts
  else contacts.

(** [parse_email_export], for the text of the file. *)
Definition parse_email_export (content : string) : gmap string sender :=
  let lines := split_on Re.newline content in
  foldl parse_data_line ∅ (data_lines_of lines).

(** ** Platform candidates *)

(** A candidate from a received email: the keys of its dictionary. *)
Record platform_candidate : Type := PlatformCandidate {
  pc_name : string;
  pc_email : string;
  pc_date : string;
  pc_subject : string;
  pc_snippet : string
}.

(** One round of the loop over the data lines. *)
Definition platform_line (ix : people_index)
    (candidates : list platform_candidate) (line : string)
    : list platform_candidate :=
  let parts := Re.split column_gap (Str.strip line) in
  if length parts <? 3 then candidates
  else
    let date := Str.strip (nth 0 parts "") in
    let from_addr := Str.strip (nth 1 parts "") in
    let subject := if 2 <? length parts then Str.strip (nth 2 parts "") else "" in
    let body := if 3 <? length parts then Str.strip (nth 3 parts "") else "" in
    match Re.search from_pattern from_addr with
    | None => candidates
    | Some m =>
        let name := Str.strip (Re.group 1 (Re.f_caps m)) in
        let email := normalize_email (Str.strip (Re.group 2 (Re.f_caps m))) in
        let is_linkedin_invite :=
          Str.contains "linkedin.com" email
          && (Str.contains "requested to connect" (Str.lower subject)
              || Str.contains "just messaged you" (Str.lower subject)
              || Str.contains "requested to connect" (Str.lower body)) in
        if negb is_linkedin_invite then candidates
        else if Str.truthy name
                && (bool_decide (slugify name ∈ existing_slugs ix)
                    || bool_decide (slugify name ∈ existing_names ix))
        then candidates
        else
          let snippet := if Str.truthy body then Str.take 200 body else "" in
          candidates ++ [PlatformCandidate name email date subject snippet]
    end.

(** [candidates.sort(key=lambda c: c.get('date') or '', reverse=True)]:
    stable, the latest date first. *)
Fixpoint insert_by_date (x : platform_candidate) (l : list platform_candidate)
    : list platform_candidate :=
  match l with
  | [] => [x]
  | y :: l' =>
      if str_ltb (pc_date x) (pc_date y) then y :: insert_by_date x l'
      else x :: y :: l'
  end.

Definition sort_by_date_reverse (l : list platform_candidate)
    : list platform_candidate :=
  foldr insert_by_date [] l.

(** The function, for what [read_text()] gives ([None] when it raises)
    and the people directory. *)
Definition extract_platform_people_candidates_from_received_emails
    (content : option string) (people_dir : option (list people_file))
    : result (list platform_candidate) :=
  ix ← load_people_index people_dir;
  match content with
  | None => Ok []
  | Some content =>
      let lines := splitlines content in
      Ok (sort_by_date_reverse (foldl (platform_line ix) [] (data_lines_of lines)))
  end.


(** * Properties *)

(** ** Strings *)

Module StrFacts.

Lemma truthy_false (s : string) : Str.truthy s = false <-> s = "".
Proof. destruct s; simpl; split; congruence. Qed.

Lemma truthy_true (s : string) : Str.truthy s = true <-> s <> "".
Proof. destruct s; simpl; split; congruence. Qed.

Lemma length_lstrip_by p s :
  String.length (Str.lstrip_by p s) <= String.length s.
Proof. induction s as [|c s IH]; simpl; [lia|]. destruct (p c); simpl; lia. Qed.

Lemma filter_app p a b :
  Str.filter p (a +:+ b) = Str.filter p a +:+ Str.filter p b.
Proof.
  induction a as [|c a IH]; [reflexivity|].
  change (String c a +:+ b) with (String c (a +:+ b)). simpl.
  destruct (p c); rewrite IH; reflexivity.
Qed.

Lemma filter_filter p q s :
  Str.filter p (Str.filter q s) = Str.filter (fun c => q c && p c) s.
Proof.
  induction s as [|c s IH]; simpl; [reflexivity|].
  destruct (q c); simpl; [destruct (p c)|]; rewrite ?IH; reflexivity.
Qed.

Lemma filter_ext p q s :
  (forall c, p c = q c) -> Str.filter p s = Str.filter q s.
Proof.
  intros E. induction s as [|c s IH]; simpl; [reflexivity|].
  rewrite E, IH. reflexivity.
Qed.

Lemma filter_all p s : Str.all p (Str.filter p s) = true.
Proof.
  induction s as [|c s IH]; simpl; [reflexivity|].
  destruct (p c) eqn:E; simpl; rewrite ?E; assumption.
Qed.

Lemma filter_id p s : Str.all p s = true -> Str.filter p s = s.
Proof.
  induction s as [|c s IH]; simpl; [reflexivity|].
  intros [-> H]%andb_true_iff. rewrite IH; auto.
Qed.

(** Dropping characters of a class on the left or on the right does not
    touch the characters outside the class. *)
Lemma filter_lstrip_by p q s :
  (forall c, p c = true -> q c = false) ->
  Str.filter q (Str.lstrip_by p s) = Str.filter q s.
Proof.
  intros D. induction s as [|c s IH]; simpl; [reflexivity|].
  destruct (p c) eqn:E; simpl; [|reflexivity].
  rewrite (D _ E). assumption.
Qed.

Lemma filter_rstrip_by p q s :
  (forall c, p c = true -> q c = false) ->
  Str.filter q (Str.rstrip_by p s) = Str.filter q s.
Proof.
  intros D. induction s as [|c s IH]; simpl; [reflexivity|].
  destruct (Str.rstrip_by p s) as [|d r] eqn:R.
  - destruct (p c) eqn:E; simpl in *.
    + rewrite (D _ E). assumption.
    + rewrite <- IH. reflexivity.
  - simpl in *. rewrite IH. reflexivity.
Qed.

Lemma filter_strip q s :
  (forall c, Char.is_space c = true -> q c = false) ->
  Str.filter q (Str.strip s) = Str.filter q s.
Proof.
  intros D. unfold Str.strip, Str.strip_by.
  rewrite filter_rstrip_by, filter_lstrip_by; auto.
Qed.

(** A string that begins with a character outside the class keeps it
    under [rstrip]. *)
Lemma rstrip_by_head p c s :
  p c = false -> exists r, Str.rstrip_by p (String c s) = String c r.
Proof.
  intros E. simpl. destruct (Str.rstrip_by p s); rewrite ?E; eauto.
Qed.

Lemma lstrip_by_head p c s :
  p c = false -> Str.lstrip_by p (String c s) = String c s.
Proof. intros E. simpl. rewrite E. reflexivity. Qed.

Lemma strip_head c s :
  Char.is_space c = false -> exists r, Str.strip (String c s) = String c r.
Proof.
  intros E. unfold Str.strip, Str.strip_by.
  rewrite lstrip_by_head by assumption. apply rstrip_by_head; assumption.
Qed.

Lemma lstrip_by_fixed p s :
  Str.lstrip_by p (Str.lstrip_by p s) = Str.lstrip_by p s.
Proof.
  induction s as [|c s IH]; simpl; [reflexivity|].
  destruct (p c) eqn:E; [assumption|]. simpl. rewrite E. reflexivity.
Qed.

Lemma rstrip_by_cons p c s :
  Str.rstrip_by p (String c s)
  = match Str.rstrip_by p s with
    | EmptyString => if p c then EmptyString else String c EmptyString
    | r => String c r
    end.
Proof. reflexivity. Qed.

Lemma rstrip_by_fixed p s :
  Str.rstrip_by p (Str.rstrip_by p s) = Str.rstrip_by p s.
Proof.
  induction s as [|c s IH]; simpl; [reflexivity|].
  destruct (Str.rstrip_by p s) as [|d r] eqn:R.
  - destruct (p c) eqn:E; simpl; rewrite ?E; reflexivity.
  - rewrite rstrip_by_cons, IH. reflexivity.
Qed.

(** What [lstrip] leaves does not begin with a character of the class,
    and [rstrip] does not change that. *)
Lemma lstrip_rstrip_by p s :
  Str.lstrip_by p (Str.rstrip_by p (Str.lstrip_by p s))
  = Str.rstrip_by p (Str.lstrip_by p s).
Proof.
  induction s as [|c s IH]; simpl; [reflexivity|].
  destruct (p c) eqn:E; [assumption|].
  destruct (rstrip_by_head p c s E) as [r ->].
  apply lstrip_by_head; assumption.
Qed.

Lemma strip_by_fixed p s : Str.strip_by p (Str.strip_by p s) = Str.strip_by p s.
Proof.
  unfold Str.strip_by. rewrite lstrip_rstrip_by. apply rstrip_by_fixed.
Qed.

Lemma strip_fixed s : Str.strip (Str.strip s) = Str.strip s.
Proof. apply strip_by_fixed. Qed.

Lemma startswith_plus s :
  Str.startswith "+" s = true <-> exists r, s = String "+" r.
Proof.
  destruct s as [|c s].
  - split; [discriminate | intros [r H]; discriminate].
  - change (Str.startswith "+" (String c s))
      with (Ascii.eqb "+" c && true).
    rewrite andb_true_r, Ascii.eqb_eq.
    split; [intros <-; eauto | intros [r [= <- _]]; reflexivity].
Qed.

Lemma app_nil_l (b : string) : "" +:+ b = b.
Proof. reflexivity. Qed.

Lemma app_cons c (a b : string) : String c a +:+ b = String c (a +:+ b).
Proof. reflexivity. Qed.

Lemma map_app f a b : Str.map f (a +:+ b) = Str.map f a +:+ Str.map f b.
Proof.
  induction a as [|c a IH]; [reflexivity|].
  rewrite app_cons. simpl. rewrite IH. reflexivity.
Qed.

Lemma length_map f s : String.length (Str.map f s) = String.length s.
Proof. induction s as [|c s IH]; simpl; [|rewrite IH]; reflexivity. Qed.

Lemma app_empty_r (s : string) : s +:+ "" = s.
Proof.
  induction s as [|c s IH]; [reflexivity|]. rewrite app_cons, IH. reflexivity.
Qed.

Lemma app_assoc (a b c : string) : (a +:+ b) +:+ c = a +:+ (b +:+ c).
Proof.
  induction a as [|x a IH]; [reflexivity|]. rewrite !app_cons, IH. reflexivity.
Qed.

Lemma app_inv_head (a b c : string) : a +:+ b = a +:+ c -> b = c.
Proof.
  induction a as [|x a IH]; [auto|]. rewrite !app_cons. intros [= H]. auto.
Qed.

Lemma length_app (a b : string) :
  String.length (a +:+ b) = String.length a + String.length b.
Proof.
  induction a as [|x a IH]; [reflexivity|].
  rewrite app_cons. simpl. rewrite IH. reflexivity.
Qed.

Lemma app_inv_tail (a b c : string) : a +:+ c = b +:+ c -> a = b.
Proof.
  revert b. induction a as [|x a IH]; intros [|y b]; rewrite ?app_cons; intros H.
  - reflexivity.
  - apply (f_equal String.length) in H. rewrite app_nil_l in H. simpl in H.
    rewrite length_app in H. lia.
  - apply (f_equal String.length) in H. rewrite app_nil_l in H. simpl in H.
    rewrite length_app in H. lia.
  - injection H as -> H. f_equal. auto.
Qed.

Lemma take_app (a b : string) :
  Str.take (String.length (a +:+ b) - String.length b) (a +:+ b) = a.
Proof.
  rewrite length_app. replace (_ + _ - _) with (String.length a) by lia.
  induction a as [|x a IH]; [destruct b; reflexivity|].
  rewrite app_cons. simpl. rewrite IH. reflexivity.
Qed.

End StrFacts.

(** ** Characters, by cases *)

Module CharFacts.

Ltac by_cases c :=
  destruct c as [[] [] [] [] [] [] [] []]; vm_compute; try reflexivity;
  try discriminate; try tauto.

Lemma space_not_decimal c : Char.is_space c = true -> Char.is_decimal c = false.
Proof. by_cases c. Qed.

Lemma space_not_plus c : Char.is_space c = true -> c <> "+"%char.
Proof. by_cases c. Qed.

Lemma decimal_not_space c : Char.is_decimal c = true -> Char.is_space c = false.
Proof. by_cases c. Qed.

Lemma decimal_is_digit c : Char.is_decimal c = true -> Char.is_digit c = true.
Proof. by_cases c. Qed.

Lemma eqb_eq a b : Char.eqb a b = true <-> a = b.
Proof. apply Ascii.eqb_eq. Qed.

Lemma eqb_neq a b : Char.eqb a b = false <-> a <> b.
Proof. apply Ascii.eqb_neq. Qed.

End CharFacts.

(** ** The matcher *)

Module ReFacts.
Import StrFacts.

(** The words of a pattern, anchors apart: what a match can consume. *)
Fixpoint in_lang (r : Re.regex) (w : string) : Prop :=
  match r with
  | Re.Eps | Re.Bol | Re.Eol => w = ""
  | Re.Cls p => exists c, w = String c "" /\ p c = true
  | Re.Seq r1 r2 => exists w1 w2, w = w1 +:+ w2 /\ in_lang r1 w1 /\ in_lang r2 w2
  | Re.Alt r1 r2 => in_lang r1 w \/ in_lang r2 w
  | Re.Star p | Re.StarLazy p => Str.all p w = true
  | Re.Grp _ r' => in_lang r' w
  end.

Section Sound.
Context {A : Type}.
Implicit Types (k : @Re.cont A).

Lemma star_sound p cs k prev s x :
  Re.star p cs k prev s = Some x ->
  exists w s' prev', s = w +:+ s' /\ Str.all p w = true /\ k prev' s' cs = Some x.
Proof.
  revert prev. induction s as [|c s IH]; intros prev; simpl.
  - intros H. exists "", "", prev. auto.
  - destruct (p c) eqn:E.
    + destruct (Re.star p cs k (Some c) s) eqn:R.
      * intros [= ->]. destruct (IH _ R) as (w & s' & prev' & -> & Hw & Hk).
        exists (String c w), s', prev'. simpl. rewrite E. auto.
      * intros H. exists "", (String c s), prev. auto.
    + intros H. exists "", (String c s), prev. auto.
Qed.

Lemma star_lazy_sound p cs k prev s x :
  Re.star_lazy p cs k prev s = Some x ->
  exists w s' prev', s = w +:+ s' /\ Str.all p w = true /\ k prev' s' cs = Some x.
Proof.
  revert prev. induction s as [|c s IH]; intros prev; simpl.
  - destruct (k prev "" cs) eqn:K; [|discriminate].
    intros [= ->]. exists "", "", prev. auto.
  - destruct (k prev (String c s) cs) eqn:K.
    + intros [= ->]. exists "", (String c s), prev. auto.
    + destruct (p c) eqn:E; [|discriminate]. intros R.
      destruct (IH _ R) as (w & s' & prev' & -> & Hw & Hk).
      exists (String c w), s', prev'. simpl. rewrite E. auto.
Qed.

End Sound.

(** A successful run consumed a word of the pattern and handed the rest
    to its continuation, which succeeded. *)
Lemma run_sound {A} r : forall prev s cs (k : @Re.cont A) x,
  Re.run r prev s cs k = Some x ->
  exists w s' prev' cs',
    s = w +:+ s' /\ in_lang r w /\ k prev' s' cs' = Some x.
Proof.
  induction r as [|p|r1 IH1 r2 IH2|r1 IH1 r2 IH2|p|p| | |i r IH];
    intros prev s cs k x; simpl.
  - intros H. exists "", s, prev, cs. auto.
  - destruct s as [|c s]; [discriminate|]. destruct (p c) eqn:E; [|discriminate].
    intros H. exists (String c ""), s, (Some c), cs. eauto.
  - intros H. apply IH1 in H as (w1 & s1 & prev1 & cs1 & -> & L1 & H).
    apply IH2 in H as (w2 & s2 & prev2 & cs2 & -> & L2 & H).
    exists (w1 +:+ w2), s2, prev2, cs2. rewrite app_assoc. eauto 10.
  - destruct (Re.run r1 prev s cs k) eqn:R1.
    + intros [= ->]. apply IH1 in R1 as (w & s' & prev' & cs' & -> & L & H).
      exists w, s', prev', cs'. auto.
    + intros R2. apply IH2 in R2 as (w & s' & prev' & cs' & -> & L & H).
      exists w, s', prev', cs'. auto.
  - intros H. apply star_sound in H as (w & s' & prev' & -> & L & H).
    exists w, s', prev', cs. auto.
  - intros H. apply star_lazy_sound in H as (w & s' & prev' & -> & L & H).
    exists w, s', prev', cs. auto.
  - destruct (Re.at_bol prev); [|discriminate]. intros H.
    exists "", s, prev, cs. auto.
  - destruct (Re.at_eol s); [|discriminate]. intros H.
    exists "", s, prev, cs. auto.
  - intros H. apply IH in H as (w & s' & prev' & cs' & -> & L & H). eauto 10.
Qed.

(** The text of a match at the current position is a word of the
    pattern, and the subject is that text followed by the rest. *)
Lemma match_here_sound r prev s f :
  Re.match_here r prev s = Some f ->
  s = Re.f_text f +:+ Re.f_rest f /\ in_lang r (Re.f_text f).
Proof.
  unfold Re.match_here. intros H.
  apply run_sound in H as (w & s' & prev' & cs' & -> & L & [= <-]).
  simpl. rewrite take_app. auto.
Qed.

Lemma finditer_from_sound r fuel : forall prev s f,
  In f (Re.finditer_from fuel r prev s) -> in_lang r (Re.f_text f).
Proof.
  induction fuel as [|fuel IH]; intros prev s f; simpl; [tauto|].
  destruct (Re.match_here r prev s) as [g|] eqn:M.
  - apply match_here_sound in M as [_ L].
    destruct (_ <? _).
    + intros [<-|H]; [assumption | eauto].
    + intros [<-|H]; [assumption|]. destruct s; [destruct H | eauto].
  - destruct s; [intros [] | eauto].
Qed.

Lemma findall_sound r s w : In w (Re.findall r s) -> in_lang r w.
Proof.
  unfold Re.findall, Re.finditer. rewrite <- list_elem_of_In, list_elem_of_fmap.
  intros (f & -> & H). rewrite list_elem_of_In in H.
  eapply finditer_from_sound; eassumption.
Qed.

(** With a continuation that takes whatever is left, a greedy
    repetition of a class takes the whole run of the class. *)
Lemma star_greedy_all {A} p cs (k : @Re.cont A) :
  (forall prev s cs, k prev s cs <> None) ->
  forall s prev, exists prev',
    Re.star p cs k prev s = k prev' (Str.lstrip_by p s) cs.
Proof.
  intros K. induction s as [|c s IH]; intros prev; simpl; [eauto|].
  destruct (p c); [|eauto].
  destruct (IH (Some c)) as [prev' E]. rewrite E.
  destruct (k prev' (Str.lstrip_by p s) cs) eqn:R; [eauto|].
  destruct (K _ _ _ R).
Qed.

(** [p+] at the current position. *)
Lemma match_here_plus p prev c s :
  match Re.match_here (Re.Plus p) prev (String c s) with
  | Some f => p c = true /\ Re.f_rest f = Str.lstrip_by p s
  | None => p c = false
  end.
Proof.
  unfold Re.match_here, Re.Plus. cbn [Re.run]. destruct (p c); [|reflexivity].
  match goal with |- context [Re.star p [] ?k _ _] =>
    destruct (star_greedy_all p [] k ltac:(discriminate) s (Some c)) as [prev' ->]
  end.
  simpl. auto.
Qed.

Lemma match_here_plus_nil p prev : Re.match_here (Re.Plus p) prev "" = None.
Proof. reflexivity. Qed.

(** Replacing every run of a class by nothing leaves the characters
    outside the class. *)
Lemma sub_from_plus_empty p fuel : forall prev s,
  String.length s < fuel ->
  Re.sub_from fuel (Re.Plus p) "" prev s = Str.filter (fun c => negb (p c)) s.
Proof.
  induction fuel as [|fuel IH]; intros prev s Hl; [lia|].
  destruct s as [|c s]; [reflexivity|].
  cbn [Re.sub_from]. pose proof (match_here_plus p prev c s) as M.
  destruct (Re.match_here (Re.Plus p) prev (String c s)) as [f|].
  - destruct M as [E R]. rewrite R.
    pose proof (length_lstrip_by p s) as Hs. simpl in Hl.
    replace (_ <? _) with true by (symmetry; apply Nat.ltb_lt; simpl; lia).
    rewrite app_nil_l, IH by lia. simpl. rewrite E. simpl.
    apply filter_lstrip_by. intros d ->. reflexivity.
  - simpl. rewrite M. simpl. rewrite IH by (simpl in Hl; lia). reflexivity.
Qed.

Lemma sub_plus_empty p s :
  Re.sub (Re.Plus p) "" s = Str.filter (fun c => negb (p c)) s.
Proof. apply sub_from_plus_empty. lia. Qed.

End ReFacts.

(** ** The normaliser *)

Module NormFacts.
Import StrFacts.

(** [normalize_phone] in closed form: the decimal digits of the input,
    behind a [+] when the input begins with one once it is stripped. *)
Lemma normalize_phone_eq raw :
  normalize_phone raw =
    let digits := Str.filter Char.is_decimal raw in
    if Str.truthy digits
    then (if Str.startswith "+" (Str.strip raw) then "+" else "") +:+ digits
    else "".
Proof.
  unfold normalize_phone. destruct raw as [|c raw]; [reflexivity|].
  cbn [Str.truthy negb]. rewrite ReFacts.sub_plus_empty.
  rewrite (filter_ext _ Char.is_decimal)
    by (intros d; unfold not_decimal; apply negb_involutive).
  rewrite filter_strip by apply CharFacts.space_not_decimal.
  reflexivity.
Qed.

(** A well-formed phone token: a [+] and then decimal digits, at least
    one. *)
Definition phone_token (p : string) : Prop :=
  exists ds, p = String "+" ds /\ ds <> "" /\ Str.all Char.is_decimal ds = true.

Lemma lit_plus_lang w : ReFacts.in_lang (Re.Lit "+") w -> w = "+".
Proof.
  simpl. intros (w1 & w2 & -> & (c & -> & E) & ->).
  apply CharFacts.eqb_eq in E as ->. reflexivity.
Qed.

(** A match of the phone pattern begins with [+] and a digit. *)
Lemma phone_pattern_lang w :
  ReFacts.in_lang phone_pattern w ->
  exists d rest, w = String "+" (String d rest) /\ Char.is_decimal d = true.
Proof.
  unfold phone_pattern. cbn [ReFacts.in_lang].
  intros (w1 & w2 & -> & L1 & (w3 & w4 & -> & (d & -> & D) & _)).
  apply lit_plus_lang in L1 as ->. exists d, w4. auto.
Qed.

Lemma normalize_phone_of_match w :
  ReFacts.in_lang phone_pattern w -> phone_token (normalize_phone w).
Proof.
  intros (d & rest & -> & D)%phone_pattern_lang.
  rewrite normalize_phone_eq. cbn [Str.filter]. change (Char.is_decimal "+") with false.
  cbn iota. rewrite D. cbn [Str.truthy].
  destruct (strip_head "+" (String d rest) eq_refl) as [r ->].
  change (Str.startswith "+" (String "+" r)) with true. cbn iota.
  eexists. split; [reflexivity|]. split; [discriminate|].
  simpl. rewrite D. apply filter_all.
Qed.

Lemma extract_phones_tokens text p :
  p ∈ extract_phones text -> phone_token p.
Proof.
  unfold extract_phones. destruct (negb _); [set_solver|].
  rewrite elem_of_list_to_set, list_elem_of_In, filter_In, <- list_elem_of_In.
  rewrite list_elem_of_fmap. intros [(w & -> & Hw) _].
  apply normalize_phone_of_match. apply (ReFacts.findall_sound _ text).
  apply list_elem_of_In. assumption.
Qed.

End NormFacts.

(** ** Dates *)

Module DateFacts.

Lemma try_return_ok {A} (m : result A) k :
  (exists v, k = Ok v) -> exists v, try_return m k = Ok v.
Proof. destruct m; simpl; eauto. Qed.

(** No input makes [parse_dt_maybe] raise. *)
Lemma parse_dt_maybe_total s : exists v, parse_dt_maybe s = Ok v.
Proof.
  unfold parse_dt_maybe. destruct (negb _); [eauto|].
  repeat apply try_return_ok. eauto.
Qed.

(** The value of [parse_dt_maybe]. *)
Definition parsed (s : string) : option datetime :=
  match parse_dt_maybe s with Ok v => v | Raise _ => None end.

Lemma parse_dt_maybe_parsed s : parse_dt_maybe s = Ok (parsed s).
Proof.
  unfold parsed. destruct (parse_dt_maybe_total s) as [v ->]. reflexivity.
Qed.

Lemma make_datetime_ge_min y m d H M S dt :
  make_datetime y m d H M S = Ok dt -> dt_leb datetime_min dt = true.
Proof.
  unfold make_datetime. destruct (_ && _) eqn:E; [|discriminate].
  intros [= <-]. repeat apply andb_prop in E as [E ?].
  repeat match goal with H : (_ <=? _) = true |- _ => apply Nat.leb_le in H end.
  unfold dt_leb, dt_ltb. simpl.
  destruct y as [|[|y]]; [lia| |reflexivity].
  destruct m as [|[|m]]; [lia| |reflexivity].
  destruct d as [|[|d]]; [lia| |reflexivity].
  simpl. rewrite !andb_false_r. reflexivity.
Qed.

Lemma strptime_ge_min data fmt dt :
  Strptime.strptime data fmt = Ok dt -> dt_leb datetime_min dt = true.
Proof.
  unfold Strptime.strptime. destruct (Strptime.pattern _ _); [|discriminate].
  destruct (Re.match_ _ _); [|discriminate]. destruct (Str.truthy _); [discriminate|].
  apply make_datetime_ge_min.
Qed.

Lemma try_return_ge_min (m : result datetime) k dt :
  (forall d, m = Ok d -> dt_leb datetime_min d = true) ->
  (k = Ok (Some dt) -> dt_leb datetime_min dt = true) ->
  try_return m k = Ok (Some dt) -> dt_leb datetime_min dt = true.
Proof. destruct m; simpl; intros H1 H2; [intros [= <-]|]; auto. Qed.

(** Every date [parse_dt_maybe] returns is at or after [datetime.min]. *)
Lemma parse_dt_maybe_ge_min s dt :
  parse_dt_maybe s = Ok (Some dt) -> dt_leb datetime_min dt = true.
Proof.
  unfold parse_dt_maybe. destruct (negb _); [discriminate|].
  repeat (apply try_return_ge_min; [intros ?; apply strptime_ge_min|]).
  discriminate.
Qed.

(** The order on dates. *)
Lemma lex_ltb_irrefl a : lex_ltb a a = false.
Proof.
  induction a as [|x a IH]; simpl; [reflexivity|].
  rewrite Nat.ltb_irrefl, Nat.eqb_refl, IH. reflexivity.
Qed.

Lemma lex_ltb_trans a : forall b c,
  lex_ltb a b = true -> lex_ltb b c = true -> lex_ltb a c = true.
Proof.
  induction a as [|x a IH]; intros [|y b] [|z c]; simpl; try discriminate; auto.
  rewrite !orb_true_iff, !andb_true_iff, !Nat.ltb_lt, !Nat.eqb_eq.
  intros [H1|[-> H1]] [H2|[-> H2]]; [left; lia | left; lia | left; lia |].
  right. eauto.
Qed.

Lemma lex_ltb_total a : forall b,
  length a = length b -> lex_ltb a b = false -> lex_ltb b a = false -> a = b.
Proof.
  induction a as [|x a IH]; intros [|y b]; simpl; try discriminate; auto.
  intros [= L]. rewrite !orb_false_iff, !andb_false_iff, !Nat.ltb_ge, !Nat.eqb_neq.
  intros [H1 H1'] [H2 H2']. assert (x = y) as -> by lia.
  f_equal. apply IH; [assumption| |]; tauto.
Qed.

Lemma lex_ltb_asym a b : lex_ltb a b = true -> lex_ltb b a = false.
Proof.
  intros H. destruct (lex_ltb b a) eqn:E; [|reflexivity].
  pose proof (lex_ltb_trans _ _ _ H E) as T. rewrite lex_ltb_irrefl in T.
  discriminate.
Qed.

Lemma dt_leb_refl a : dt_leb a a = true.
Proof. unfold dt_leb, dt_ltb. rewrite lex_ltb_irrefl. reflexivity. Qed.

Lemma dt_leb_total a b : dt_leb a b = true \/ dt_leb b a = true.
Proof.
  unfold dt_leb, dt_ltb. destruct (lex_ltb (fields b) (fields a)) eqn:E; [|auto].
  right. rewrite (lex_ltb_asym _ _ E). reflexivity.
Qed.

Lemma dt_ltb_leb a b : dt_ltb a b = true -> dt_leb a b = true.
Proof.
  unfold dt_leb, dt_ltb. intros H. rewrite (lex_ltb_asym _ _ H). reflexivity.
Qed.

Lemma lex_ltb_leb_trans a b c :
  length b = length c ->
  lex_ltb a b = true -> lex_ltb c b = false -> lex_ltb a c = true.
Proof.
  intros L H1 H2. destruct (lex_ltb b c) eqn:E.
  - eapply lex_ltb_trans; eassumption.
  - rewrite <- (lex_ltb_total b c L E H2). assumption.
Qed.

Lemma dt_leb_trans a b c :
  dt_leb a b = true -> dt_leb b c = true -> dt_leb a c = true.
Proof.
  unfold dt_leb, dt_ltb. rewrite !negb_true_iff. intros H1 H2.
  destruct (lex_ltb (fields c) (fields a)) eqn:E; [|reflexivity].
  assert (lex_ltb (fields c) (fields b) = true) as T
    by (apply (lex_ltb_leb_trans _ (fields a)); auto).
  congruence.
Qed.

Lemma dt_leb_antisym a b : dt_leb a b = true -> dt_leb b a = true -> a = b.
Proof.
  unfold dt_leb, dt_ltb. rewrite !negb_true_iff. intros H1 H2.
  assert (fields a = fields b) as E by (apply lex_ltb_total; auto).
  destruct a, b. unfold fields in E. simpl in E. congruence.
Qed.

End DateFacts.

(** ** The people index *)

Module PeopleFacts.
Import DateFacts.

Lemma first_date_ok lines r :
  first_date lines = Some r -> exists v, r = Ok v.
Proof.
  induction lines as [|line lines IH]; simpl; [discriminate|].
  destruct (Re.search _ _); [|assumption].
  intros [= <-]. apply parse_dt_maybe_total.
Qed.

Lemma parse_last_updated_date_total text :
  exists v, parse_last_updated_date text = Ok v.
Proof.
  unfold parse_last_updated_date. destruct (negb _); [eauto|].
  destruct (Re.search last_updated_field text); [apply parse_dt_maybe_total|].
  destruct (Re.search last_updated_heading text); [|eauto].
  destruct (first_date _) as [r|] eqn:F; simpl; [|eauto].
  eapply first_date_ok; eassumption.
Qed.

(** The record of a file, which [parse_people_file] always returns. *)
Definition record_of (md : people_file) : person_record :=
  match parse_people_file md with
  | Ok rec => rec
  | Raise _ => PersonRecord "" ∅ ∅ ∅ None
  end.

Lemma parse_people_file_ok md : parse_people_file md = Ok (record_of md).
Proof.
  unfold record_of, parse_people_file. destruct (pf_text md) as [text|]; [|reflexivity].
  destruct (parse_last_updated_date_total text) as [v ->]. reflexivity.
Qed.

Lemma record_of_unreadable stem :
  record_of (PeopleFile stem None) = PersonRecord (Str.lower stem) ∅ ∅ ∅ None.
Proof. reflexivity. Qed.

Lemma record_of_phones md p : p ∈ phones (record_of md) -> NormFacts.phone_token p.
Proof.
  unfold record_of, parse_people_file. destruct (pf_text md) as [text|].
  - destruct (parse_last_updated_date_total text) as [v ->]. simpl.
    apply NormFacts.extract_phones_tokens.
  - simpl. set_solver.
Qed.

Lemma load_files_ok files : forall ix,
  load_files ix files = Ok (foldl add_record ix (record_of <$> files)).
Proof.
  induction files as [|md files IH]; intros ix; simpl; [reflexivity|].
  rewrite parse_people_file_ok. simpl. apply IH.
Qed.

(** What is in the four sets after a run over the records. *)
Lemma foldl_add_record recs : forall ix,
  (forall x, x ∈ existing_slugs (foldl add_record ix recs)
     <-> x ∈ existing_slugs ix \/ exists r, r ∈ recs /\ x = slug r)
  /\ (forall x, x ∈ existing_names (foldl add_record ix recs)
     <-> x ∈ existing_names ix \/ exists r, r ∈ recs /\ x ∈ (set_map slugify (names r) : gset string))
  /\ (forall x, x ∈ existing_emails (foldl add_record ix recs)
     <-> x ∈ existing_emails ix \/ exists r, r ∈ recs /\ x ∈ emails r)
  /\ (forall x, x ∈ existing_phones (foldl add_record ix recs)
     <-> x ∈ existing_phones ix \/ exists r, r ∈ recs /\ x ∈ phones r).
Proof.
  induction recs as [|rec recs IH]; intros ix; simpl.
  - split; [|split; [|split]]; intros x; set_solver.
  - destruct (IH (add_record ix rec)) as (I1 & I2 & I3 & I4).
    split; [|split; [|split]]; intros x;
      [rewrite I1 | rewrite I2 | rewrite I3 | rewrite I4];
      simpl; set_solver.
Qed.

End PeopleFacts.

(** ** The resolver loop *)

Module LoopFacts.

(** What one round does with a contact, as far as it does not depend on
    the numbers seen so far: nothing, a named candidate, or the phone
    branch with its number and the result of the last look-up. *)
Inductive verdict : Type :=
| Skip
| Named (c : contact)
| Phone (num : string) (c : contact) (resolved : string).

Definition verdict_of (ix : people_index) (contacts_map : gmap string string)
    (c : contact) : verdict :=
  let name := Str.strip (Str.or_empty (c_name c)) in
  let identifier := Str.strip (Str.or_empty (c_identifier c)) in
  let '(name, c) :=
    if is_phone_number name || negb (Str.truthy name) then
      let resolved := resolve_phone_to_name identifier contacts_map in
      if Str.truthy resolved
      then (resolved, set_resolved_name resolved c)
      else (name, c)
    else (name, c) in
  if bool_decide (Str.lower name ∈ IMESSAGE_EXCLUDE_NAMES) then Skip
  else if is_likely_system_imessage_contact c then Skip
  else if Str.truthy (if Str.contains "@" identifier
                      then normalize_email identifier else "")
          && bool_decide ((if Str.contains "@" identifier
                           then normalize_email identifier else "")
                          ∈ existing_emails ix) then Skip
  else if Str.truthy (if Str.startswith "+" identifier
                      then normalize_phone identifier
                      else if Str.startswith "+" name
                      then normalize_phone name else "")
          && bool_decide ((if Str.startswith "+" identifier
                           then normalize_phone identifier
                           else if Str.startswith "+" name
                           then normalize_phone name else "")
                          ∈ existing_phones ix) then Skip
  else if Str.truthy name && negb (is_phone_number name)
          && negb (Str.contains "@" name) && name_in_people ix name then Skip
  else if Str.contains "@" name
          && bool_decide (normalize_email name ∈ existing_emails ix) then Skip
  else if Str.truthy name && negb (is_phone_number name)
          && negb (Str.contains "@" name) then Named c
  else if Str.contains "@" identifier
          && negb (bool_decide (normalize_email identifier ∈ existing_emails ix))
  then Named c
  else if Str.startswith "+" identifier || is_phone_number name then
    Phone (normalize_phone
             (if Str.startswith "+" identifier then identifier else name))
          c (resolve_phone_to_name identifier contacts_map)
  else Skip.

Definition apply_verdict (st : loop_state) (v : verdict) : loop_state :=
  match v with
  | Skip => st
  | Named c => add_named c st
  | Phone num c resolved =>
      if Str.truthy num && negb (bool_decide (num ∈ seen_unknown_numbers st))
      then if Str.truthy resolved
           then add_named (set_resolved_name resolved c) st
           else add_unknown num c st
      else st
  end.

Lemma apply_verdict_if st (b : bool) v1 v2 :
  apply_verdict st (if b then v1 else v2)
  = if b then apply_verdict st v1 else apply_verdict st v2.
Proof. destruct b; reflexivity. Qed.

Lemma loop_body_verdict ix cm st c :
  loop_body ix cm st c = apply_verdict st (verdict_of ix cm c).
Proof.
  unfold loop_body, verdict_of.
  destruct (if is_phone_number _ || _ then _ else _) as [name c'].
  rewrite !apply_verdict_if. reflexivity.
Qed.

End LoopFacts.

(** ** Sorting *)

Module SortFacts.
Import DateFacts.

(** The sort key of a contact, which [sort_key] always returns. *)
Definition key (c : contact) : datetime :=
  default datetime_min (parsed (Str.or_empty (c_last_msg c))).

Lemma sort_key_ok c : sort_key c = Ok (key c).
Proof. unfold sort_key, key. rewrite parse_dt_maybe_parsed. reflexivity. Qed.

Lemma mapM_sort_key l : mapM sort_key l = Ok (key <$> l).
Proof.
  induction l as [|c l IH]; simpl; [reflexivity|].
  rewrite sort_key_ok, IH. reflexivity.
Qed.

Definition decorate (c : contact) : datetime * contact := (key c, c).

Lemma zip_keys l : zip (key <$> l) l = decorate <$> l.
Proof.
  induction l as [|c l IH]; [reflexivity|].
  change (decorate c :: zip (key <$> l) l = decorate c :: (decorate <$> l)).
  rewrite IH. reflexivity.
Qed.

(** The sorted list, which [sort_by_key_reverse] always returns. *)
Definition sorted (l : list contact) : list contact :=
  snd <$> sort_desc (decorate <$> l).

Lemma sort_by_key_reverse_ok l : sort_by_key_reverse l = Ok (sorted l).
Proof.
  unfold sort_by_key_reverse, sorted. rewrite mapM_sort_key.
  unfold mbind, result_bind, bind. rewrite zip_keys. reflexivity.
Qed.

Lemma insert_desc_perm x l : Permutation (insert_desc x l) (x :: l).
Proof.
  induction l as [|y l IH]; simpl; [reflexivity|].
  destruct (dt_ltb _ _); [|reflexivity].
  rewrite IH. apply perm_swap.
Qed.

Lemma sort_desc_perm l : Permutation (sort_desc l) l.
Proof.
  induction l as [|x l IH]; simpl; [reflexivity|].
  rewrite insert_desc_perm, IH. reflexivity.
Qed.

Lemma sorted_perm l : Permutation (sorted l) l.
Proof.
  unfold sorted. rewrite sort_desc_perm, <- list_fmap_compose.
  change (snd ∘ decorate) with (@id contact). rewrite list_fmap_id. reflexivity.
Qed.

Lemma elem_of_sorted x l : x ∈ sorted l <-> x ∈ l.
Proof. rewrite sorted_perm. reflexivity. Qed.

(** Not before: [x] may stand in front of [y]. *)
Definition ge_key (x y : datetime * contact) : Prop :=
  dt_leb (fst y) (fst x) = true.

Lemma insert_desc_sorted x l :
  StronglySorted ge_key l -> StronglySorted ge_key (insert_desc x l).
Proof.
  induction l as [|y l IH]; simpl; intros S.
  - constructor; constructor.
  - inversion S as [|? ? S' F]; subst.
    destruct (dt_ltb (fst x) (fst y)) eqn:E.
    + constructor; [auto|].
      rewrite insert_desc_perm. constructor; [|assumption].
      apply dt_ltb_leb. assumption.
    + assert (ge_key x y) as G by (unfold ge_key, dt_leb; rewrite E; reflexivity).
      constructor; [assumption|]. constructor; [assumption|].
      eapply Forall_impl; [exact F|]. intros z Hz. unfold ge_key in *.
      eapply dt_leb_trans; eassumption.
Qed.

Lemma sort_desc_sorted l : StronglySorted ge_key (sort_desc l).
Proof.
  induction l as [|x l IH]; simpl; [constructor|].
  apply insert_desc_sorted. assumption.
Qed.

(** The sorted list has its keys in descending order: no contact is
    followed, at any distance, by one with a later date. *)
Definition descending (l : list contact) : Prop :=
  StronglySorted (fun a b => dt_leb (key b) (key a) = true) l.

Lemma sorted_descending l : descending (sorted l).
Proof.
  unfold descending, sorted.
  assert (Forall (fun p => fst p = key (snd p)) (sort_desc (decorate <$> l))) as D.
  { rewrite sort_desc_perm. apply Forall_fmap, Forall_forall. reflexivity. }
  pose proof (sort_desc_sorted (decorate <$> l)) as S.
  induction S as [|p q S IH F]; simpl; [constructor|].
  inversion D as [|? ? Dp Dq]; subst.
  constructor; [auto|].
  apply Forall_fmap. rewrite Forall_forall in *. intros z Hz.
  unfold ge_key in F. simpl. rewrite <- Dp, <- (Dq z Hz). auto.
Qed.

End SortFacts.

(** ** What the loop puts out *)

Module ResolverFacts.
Import LoopFacts.

Section Loop.
Variables (ix : people_index) (cm : gmap string string).

Ltac split_ifs :=
  repeat match goal with
         | |- context [if ?b then _ else _] => destruct b eqn:?
         end.

(** The candidate of a verdict is the contact itself, with or without a
    resolved name. *)
Lemma verdict_shape c :
  match verdict_of ix cm c with
  | Skip => True
  | Named x | Phone _ x _ => x = c \/ exists r, x = set_resolved_name r c
  end.
Proof.
  unfold verdict_of.
  destruct (is_phone_number _ || _);
    [destruct (Str.truthy (resolve_phone_to_name _ _))|];
    split_ifs; eauto.
Qed.

(** Whether a contact is passed over does not depend on its resolved
    name. *)
Definition skipped (c : contact) : bool :=
  match verdict_of ix cm c with Skip => true | _ => false end.

Lemma skipped_set_resolved r c : skipped (set_resolved_name r c) = skipped c.
Proof.
  unfold skipped, verdict_of, is_likely_system_imessage_contact.
  cbn [set_resolved_name c_name c_identifier c_recent].
  destruct (is_phone_number _ || _);
    [destruct (Str.truthy (resolve_phone_to_name _ _))|];
    cbn [set_resolved_name c_name c_identifier c_recent];
    split_ifs; reflexivity.
Qed.

Lemma verdict_candidate_not_skipped c :
  match verdict_of ix cm c with
  | Skip => True
  | Named x => skipped x = false
  | Phone _ x r => skipped x = false /\ skipped (set_resolved_name r x) = false
  end.
Proof.
  pose proof (verdict_shape c) as S.
  destruct (verdict_of ix cm c) as [|x|num x r] eqn:V; [exact I| |];
    assert (skipped c = false) as Hc by (unfold skipped; rewrite V; reflexivity);
    rewrite ?skipped_set_resolved;
    destruct S as [->|[r' ->]]; rewrite ?skipped_set_resolved; auto.
Qed.

Definition run (st : loop_state) (l : list contact) : loop_state :=
  foldl (loop_body ix cm) st l.

Lemma run_cons st c l :
  run st (c :: l) = run (apply_verdict st (verdict_of ix cm c)) l.
Proof. unfold run. simpl. rewrite loop_body_verdict. reflexivity. Qed.

Definition in_output (st : loop_state) (x : contact) : Prop :=
  x ∈ named_candidates st \/ x ∈ unknown_number_candidates st.

(** A candidate that the loop adds is not one it passes over. *)
Lemma apply_verdict_output st c x :
  in_output (apply_verdict st (verdict_of ix cm c)) x ->
  in_output st x \/ skipped x = false.
Proof.
  pose proof (verdict_candidate_not_skipped c) as N. unfold in_output.
  destruct (verdict_of ix cm c) as [|y|num y r]; simpl; [auto| |].
  - rewrite elem_of_app, list_elem_of_singleton. intros [[H| ->]|H]; auto.
  - destruct N as [N1 N2].
    destruct (_ && _); [|auto]. destruct (Str.truthy r); simpl;
      rewrite elem_of_app, list_elem_of_singleton; intros H;
      destruct_or!; subst; auto.
Qed.

Lemma run_output l : forall st x,
  in_output (run st l) x -> in_output st x \/ skipped x = false.
Proof.
  induction l as [|c l IH]; intros st x; [auto|].
  rewrite run_cons. intros H. apply IH in H as [H|H]; [|auto].
  eapply apply_verdict_output; eassumption.
Qed.

(** No contact that the loop would pass over is among the candidates. *)
Lemma classify_output l x :
  in_output (classify_contacts ix cm l) x -> skipped x = false.
Proof.
  intros H. apply (run_output l (LoopState [] [] ∅)) in H as [[H|H]|H];
    [| |assumption]; simpl in H; apply elem_of_nil in H; destruct H.
Qed.

(** *** The numbers seen *)

(** The number under which line 423 files a contact whose name was not
    replaced by a resolved one. *)
Definition dedup_key (c : contact) : string :=
  let name := Str.strip (Str.or_empty (c_name c)) in
  let identifier := Str.strip (Str.or_empty (c_identifier c)) in
  normalize_phone (if Str.startswith "+" identifier then identifier else name).

Lemma verdict_phone_unresolved c num x :
  verdict_of ix cm c = Phone num x "" -> x = c /\ num = dedup_key c.
Proof.
  unfold verdict_of, dedup_key.
  destruct (is_phone_number _ || _);
    [destruct (Str.truthy (resolve_phone_to_name _ _)) eqn:T|];
    split_ifs; try discriminate; intros [= <- <- R]; auto;
    rewrite R in T; discriminate.
Qed.

Definition keys (st : loop_state) : list string :=
  dedup_key <$> unknown_number_candidates st.

Definition seen_inv (st : loop_state) : Prop :=
  NoDup (keys st) /\ forall t, t ∈ seen_unknown_numbers st <-> t ∈ keys st.

Lemma apply_verdict_seen_inv st c :
  seen_inv st -> seen_inv (apply_verdict st (verdict_of ix cm c)).
Proof.
  intros [ND S]. destruct (verdict_of ix cm c) as [|y|num y r] eqn:V; simpl.
  - split; assumption.
  - split; assumption.
  - destruct (Str.truthy num && _) eqn:C; [|split; assumption].
    destruct r as [|a r]; simpl; [|split; assumption].
    apply verdict_phone_unresolved in V as [-> ->].
    apply andb_prop in C as [_ C]. apply negb_true_iff, bool_decide_eq_false in C.
    unfold seen_inv, keys. simpl. rewrite fmap_app. simpl. split.
    + apply NoDup_app. split; [assumption|]. split; [|apply NoDup_singleton].
      intros t Ht ->%list_elem_of_singleton. apply C, S. assumption.
    + intros t. rewrite elem_of_union, elem_of_singleton, elem_of_app,
        list_elem_of_singleton, S. unfold keys. tauto.
Qed.

Lemma run_seen_inv l : forall st, seen_inv st -> seen_inv (run st l).
Proof.
  induction l as [|c l IH]; intros st H; [assumption|].
  rewrite run_cons. apply IH, apply_verdict_seen_inv. assumption.
Qed.

Lemma apply_verdict_seen_mono st v t :
  t ∈ seen_unknown_numbers st -> t ∈ seen_unknown_numbers (apply_verdict st v).
Proof.
  destruct v as [|y|num y r]; simpl; auto.
  destruct (_ && _); [|auto]. destruct (Str.truthy r); simpl; [auto|].
  set_solver.
Qed.

Lemma run_seen_mono l : forall st t,
  t ∈ seen_unknown_numbers st -> t ∈ seen_unknown_numbers (run st l).
Proof.
  induction l as [|c l IH]; intros st t H; [assumption|].
  rewrite run_cons. apply IH, apply_verdict_seen_mono. assumption.
Qed.

(** A contact that gets to line 423 with a number, and that the last
    look-up does not resolve. *)
Definition unresolved_number (c : contact) (t : string) : Prop :=
  verdict_of ix cm c = Phone t c "" /\ Str.truthy t = true.

Lemma run_seen_unresolved l : forall st c t,
  c ∈ l -> unresolved_number c t -> t ∈ seen_unknown_numbers (run st l).
Proof.
  induction l as [|d l IH]; intros st c t Hc U; [apply elem_of_nil in Hc; tauto|].
  rewrite run_cons. apply elem_of_cons in Hc as [<-|Hc]; [|eauto].
  apply run_seen_mono. destruct U as [-> T]. simpl. rewrite T. simpl.
  destruct (bool_decide _) eqn:B; simpl.
  - apply bool_decide_eq_true in B. assumption.
  - set_solver.
Qed.

End Loop.

Lemma count_once {A} (f : A -> string) t l :
  NoDup (f <$> l) -> t ∈ f <$> l ->
  length (List.filter (fun x => String.eqb (f x) t) l) = 1.
Proof.
  induction l as [|x l IH]; simpl; intros ND H; [apply elem_of_nil in H; tauto|].
  apply NoDup_cons in ND as [Nx ND]. destruct (String.eqb_spec (f x) t) as [E|E].
  - simpl. f_equal. subst t.
    clear -Nx. induction l as [|y l IH]; [reflexivity|]. simpl.
    apply not_elem_of_cons in Nx as [Ny Nx].
    destruct (String.eqb_spec (f y) (f x)); [congruence | auto].
  - apply elem_of_cons in H as [H|H]; [congruence | auto].
Qed.

Lemma filter_length_perm {A} (p : A -> bool) l l' :
  Permutation l l' -> length (List.filter p l) = length (List.filter p l').
Proof.
  induction 1 as [|x l l' _ IH|x y l|l l' l'' _ IH1 _ IH2]; simpl.
  - reflexivity.
  - destruct (p x); simpl; rewrite IH; reflexivity.
  - destruct (p x), (p y); reflexivity.
  - rewrite IH1. assumption.
Qed.

(** *** The whole function *)

(** The index, which [load_people_index] always returns. *)
Definition index_of (people_dir : option (list people_file)) : people_index :=
  match people_dir with
  | None => empty_index
  | Some files => foldl add_record empty_index (PeopleFacts.record_of <$> files)
  end.

Lemma load_people_index_ok people_dir :
  load_people_index people_dir = Ok (index_of people_dir).
Proof.
  destruct people_dir as [files|]; [|reflexivity]. apply PeopleFacts.load_files_ok.
Qed.

Lemma index_phones people_dir p :
  p ∈ existing_phones (index_of people_dir) -> NormFacts.phone_token p.
Proof.
  destruct people_dir as [files|]; simpl; [|set_solver].
  destruct (PeopleFacts.foldl_add_record (PeopleFacts.record_of <$> files) empty_index)
    as (_ & _ & _ & I).
  rewrite I. intros [H|(r & Hr & Hp)]; [set_solver|].
  apply list_elem_of_fmap in Hr as (md & -> & _).
  eapply PeopleFacts.record_of_phones; eassumption.
Qed.

(** The function always returns, and what it returns. *)
Lemma generate_ok contacts people_dir all_dbs now :
  let st := classify_contacts (index_of people_dir) (load_contacts_map all_dbs)
              contacts in
  let named := SortFacts.sorted (named_candidates st) in
  let unknown := SortFacts.sorted (unknown_number_candidates st) in
  generate_new_people_candidates_report contacts people_dir all_dbs now
  = Ok (Report named unknown (write_report now named unknown)).
Proof.
  unfold generate_new_people_candidates_report.
  rewrite load_people_index_ok. unfold mbind, result_bind, bind.
  rewrite !SortFacts.sort_by_key_reverse_ok. reflexivity.
Qed.

(** What is in the two lists of the report was not passed over. *)
Lemma report_output contacts people_dir all_dbs now rep x :
  generate_new_people_candidates_report contacts people_dir all_dbs now = Ok rep ->
  x ∈ r_named rep \/ x ∈ r_unknown rep ->
  skipped (index_of people_dir) (load_contacts_map all_dbs) x = false.
Proof.
  rewrite generate_ok. intros [= <-]. simpl.
  rewrite !SortFacts.elem_of_sorted. apply classify_output.
Qed.

End ResolverFacts.

(** ** Contacts the loop passes over *)

Module SkipFacts.
Import StrFacts LoopFacts ResolverFacts.

(** The punctuation that the directory look-up removes. *)
Definition is_formatting (c : ascii) : bool := Char.one_of "+() -" c.

(** The chain of [replace] calls of [load_contacts_map] and
    [resolve_phone_to_name]. *)
Definition strip_formatting (s : string) : string :=
  Str.remove "-" (Str.remove " " (Str.remove ")" (Str.remove "("
    (Str.remove "+" s)))).

Lemma strip_formatting_filter s :
  strip_formatting s = Str.filter (fun c => negb (is_formatting c)) s.
Proof.
  unfold strip_formatting, Str.remove. rewrite !filter_filter.
  apply filter_ext. intros c. unfold is_formatting. simpl.
  destruct (Char.eqb c "+"), (Char.eqb c "("), (Char.eqb c ")"),
    (Char.eqb c " "), (Char.eqb c "-"); reflexivity.
Qed.

Lemma strip_formatting_fixed s :
  strip_formatting (strip_formatting s) = strip_formatting s.
Proof.
  rewrite !strip_formatting_filter, filter_filter. apply filter_ext.
  intros c. destruct (is_formatting c); reflexivity.
Qed.

Lemma strip_formatting_plus r :
  strip_formatting (String "+" r) = strip_formatting r.
Proof. reflexivity. Qed.

Lemma decimal_not_formatting c :
  Char.is_decimal c = true -> is_formatting c = false.
Proof. CharFacts.by_cases c. Qed.

Lemma filter_decimal_strip_formatting s :
  Str.filter Char.is_decimal (strip_formatting s) = Str.filter Char.is_decimal s.
Proof.
  rewrite strip_formatting_filter, filter_filter. apply filter_ext. intros c.
  destruct (Char.is_decimal c) eqn:D; [|apply andb_false_r].
  rewrite (decimal_not_formatting _ D). reflexivity.
Qed.

Lemma strip_formatting_digits ds :
  Str.all Char.is_decimal ds = true -> strip_formatting ds = ds.
Proof.
  intros D. rewrite strip_formatting_filter. apply filter_id.
  induction ds as [|c ds IH]; [reflexivity|]. simpl in *.
  apply andb_prop in D as [Dc D]. rewrite (decimal_not_formatting _ Dc). auto.
Qed.

(** An identifier that starts with [+] and has the digits of a phone
    token, formatting apart, normalises to that token. *)
Lemma normalize_phone_same_formatting i t :
  NormFacts.phone_token t ->
  Str.startswith "+" i = true ->
  strip_formatting i = strip_formatting t ->
  normalize_phone i = t.
Proof.
  intros (ds & -> & N & D) [r ->]%startswith_plus E.
  rewrite !strip_formatting_plus, (strip_formatting_digits ds D) in E.
  rewrite NormFacts.normalize_phone_eq. cbv zeta.
  change (Str.filter Char.is_decimal (String "+" r))
    with (Str.filter Char.is_decimal r).
  rewrite <- filter_decimal_strip_formatting, E, (filter_id _ _ D).
  destruct ds as [|d ds]; [congruence|]. cbn [Str.truthy].
  destruct (strip_head "+" r eq_refl) as [r' ->]. reflexivity.
Qed.

Section Skip.
Variables (ix : people_index) (cm : gmap string string).

Lemma is_likely_system_set_resolved r c :
  is_likely_system_imessage_contact (set_resolved_name r c)
  = is_likely_system_imessage_contact c.
Proof. reflexivity. Qed.

(** The system heuristic makes the loop pass a contact over. *)
Lemma likely_system_skipped c :
  is_likely_system_imessage_contact c = true -> skipped ix cm c = true.
Proof.
  intros H. unfold skipped, verdict_of.
  destruct (is_phone_number _ || _);
    [destruct (Str.truthy (resolve_phone_to_name _ _))|];
    (destruct (bool_decide _); [reflexivity|]);
    rewrite ?is_likely_system_set_resolved, H; reflexivity.
Qed.

Lemma letter_not_phone c s :
  Char.is_az (Char.lower c) = true -> is_phone_number (String c s) = false.
Proof. revert s. CharFacts.by_cases c. Qed.

Lemma excluded_name_not_phone n :
  Str.lower n ∈ IMESSAGE_EXCLUDE_NAMES ->
  is_phone_number n = false /\ Str.truthy n = true.
Proof.
  unfold IMESSAGE_EXCLUDE_NAMES. rewrite elem_of_list_to_set. intros H.
  destruct n as [|c n]; [repeat (apply elem_of_cons in H as [H|H]; [discriminate|]);
                         apply elem_of_nil in H; destruct H|].
  split; [|reflexivity]. apply letter_not_phone.
  repeat (apply elem_of_cons in H as [H|H];
          [injection H as -> _; reflexivity|]).
  apply elem_of_nil in H. destruct H.
Qed.

(** A name of the exclusion list makes the loop pass a contact over. *)
Lemma excluded_name_skipped c :
  Str.lower (Str.strip (Str.or_empty (c_name c))) ∈ IMESSAGE_EXCLUDE_NAMES ->
  skipped ix cm c = true.
Proof.
  intros H. destruct (excluded_name_not_phone _ H) as [P T].
  unfold skipped, verdict_of. rewrite P, T. cbn [orb negb].
  rewrite (bool_decide_eq_true_2 _ H). reflexivity.
Qed.

Lemma resolve_without_plus i :
  Str.startswith "+" i = false -> resolve_phone_to_name i cm = "".
Proof.
  intros H. unfold resolve_phone_to_name. rewrite H, orb_true_r. reflexivity.
Qed.

(** No name, and an identifier that is neither an address nor starts
    with [+]: the loop passes the contact over. *)
Lemma nameless_without_plus_skipped c :
  Str.strip (Str.or_empty (c_name c)) = "" ->
  Str.contains "@" (Str.strip (Str.or_empty (c_identifier c))) = false ->
  Str.startswith "+" (Str.strip (Str.or_empty (c_identifier c))) = false ->
  skipped ix cm c = true.
Proof.
  intros Hn Ha Hp. unfold skipped, verdict_of.
  rewrite Hn, (resolve_without_plus _ Hp), Ha, Hp.
  change (is_phone_number "") with false. cbn [orb negb Str.truthy].
  destruct (bool_decide _); [reflexivity|].
  destruct (is_likely_system_imessage_contact c); reflexivity.
Qed.

(** An identifier that starts with [+] and normalises to a phone of the
    people files: the loop passes the contact over. *)
Lemma known_phone_skipped c :
  let identifier := Str.strip (Str.or_empty (c_identifier c)) in
  Str.startswith "+" identifier = true ->
  Str.truthy (normalize_phone identifier) = true ->
  normalize_phone identifier ∈ existing_phones ix ->
  skipped ix cm c = true.
Proof.
  intros identifier Hp Ht Hin. unfold skipped, verdict_of. fold identifier.
  rewrite Hp, Ht, (bool_decide_eq_true_2 _ Hin). cbn [andb].
  destruct (is_phone_number _ || _);
    [destruct (Str.truthy (resolve_phone_to_name _ _))|];
    (destruct (bool_decide _); [reflexivity|]);
    (destruct (is_likely_system_imessage_contact _); [reflexivity|]);
    (destruct (_ && _); reflexivity).
Qed.

End Skip.

(** A contact that the loop passes over is in neither list of the
    report, which the function always returns. *)
Lemma skipped_absent contacts people_dir all_dbs now x :
  skipped (index_of people_dir) (load_contacts_map all_dbs) x = true ->
  exists rep,
    generate_new_people_candidates_report contacts people_dir all_dbs now = Ok rep
    /\ (x ∉ r_named rep) /\ (x ∉ r_unknown rep).
Proof.
  intros S. eexists. split; [apply generate_ok|].
  split; intros H;
    pose proof (report_output contacts people_dir all_dbs now _ x
                  (generate_ok _ _ _ _)) as N;
    rewrite N in S; [discriminate|auto|discriminate|auto].
Qed.

End SkipFacts.

(** ** The directory table *)

Module DirectoryFacts.
Import StrFacts SkipFacts.

Lemma register_phone_keeps (m : gmap string string) r k :
  is_Some (m !! k) -> is_Some (register_phone m r !! k).
Proof.
  intros H. unfold register_phone. destruct (_ && _); [|assumption].
  rewrite lookup_insert_is_Some'. right.
  destruct (Str.startswith "+" _); [rewrite lookup_insert_is_Some'; right|];
    rewrite lookup_insert_is_Some'; right; assumption.
Qed.

Lemma register_email_keeps (m : gmap string string) r k :
  is_Some (m !! k) -> is_Some (register_email m r !! k).
Proof.
  intros H. unfold register_email. destruct (_ && _); [|assumption].
  rewrite lookup_insert_is_Some'. right. assumption.
Qed.

Lemma foldl_keeps {A} (f : gmap string string -> A -> gmap string string) l :
  (forall m a k, is_Some (m !! k) -> is_Some (f m a !! k)) ->
  forall m k, is_Some (m !! k) -> is_Some (foldl f m l !! k).
Proof.
  intros Hf. induction l as [|a l IH]; intros m k H; simpl; [assumption|].
  apply IH, Hf, H.
Qed.

Lemma foldl_adds {A} (f : gmap string string -> A -> gmap string string) l a k :
  (forall m a k, is_Some (m !! k) -> is_Some (f m a !! k)) ->
  (forall m, is_Some (f m a !! k)) ->
  a ∈ l -> forall m, is_Some (foldl f m l !! k).
Proof.
  intros Hf Ha. induction l as [|b l IH]; intros Hin m; simpl.
  - apply elem_of_nil in Hin. destruct Hin.
  - apply elem_of_cons in Hin as [<-|Hin]; [|auto].
    apply foldl_keeps; [assumption|]. apply Ha.
Qed.

Lemma load_db_keeps (m : gmap string string) db k :
  is_Some (m !! k) -> is_Some (load_db m db !! k).
Proof.
  intros H. destruct db as [ab|]; simpl; [|assumption].
  apply foldl_keeps; [apply register_email_keeps|].
  apply foldl_keeps; [apply register_phone_keeps|]. assumption.
Qed.

(** A phone row with a handle and a usable name puts the handle without
    its formatting into the table. *)
Lemma register_phone_adds (m : gmap string string) p n :
  Str.strip p <> "" -> Str.strip n <> "" -> Str.strip n <> "Unknown" ->
  is_Some (register_phone m (p, n) !! strip_formatting (Str.strip p)).
Proof.
  intros Hp Hn Hu. unfold register_phone. simpl.
  rewrite (proj2 (truthy_true _) Hp), (proj2 (truthy_true _) Hn).
  rewrite (proj2 (String.eqb_neq _ _) Hu). simpl.
  rewrite lookup_insert_is_Some'. left. reflexivity.
Qed.

Lemma load_contacts_map_has all_dbs ab p n :
  Some ab ∈ all_dbs -> (p, n) ∈ phone_rows ab ->
  Str.strip p <> "" -> Str.strip n <> "" -> Str.strip n <> "Unknown" ->
  is_Some (load_contacts_map all_dbs !! strip_formatting (Str.strip p)).
Proof.
  intros Hdb Hrow Hp Hn Hu. unfold load_contacts_map.
  apply (foldl_adds load_db all_dbs (Some ab)); [apply load_db_keeps| |assumption].
  intros m. simpl. apply foldl_keeps; [apply register_email_keeps|].
  apply (foldl_adds register_phone _ (p, n)); [apply register_phone_keeps| |assumption].
  intros m'. apply register_phone_adds; assumption.
Qed.

Lemma resolve_phone_to_name_eq i (cm : gmap string string) :
  resolve_phone_to_name i cm =
    if negb (Str.truthy i) || negb (Str.startswith "+" i) then ""
    else match cm !! i with
         | Some v => v
         | None =>
             match cm !! Str.tail i with
             | Some v => v
             | None => default "" (cm !! strip_formatting i)
             end
         end.
Proof.
  unfold resolve_phone_to_name. destruct (_ || _); [reflexivity|].
  destruct (cm !! i); [reflexivity|]. destruct (cm !! Str.tail i); [reflexivity|].
  unfold strip_formatting. destruct (cm !! _); reflexivity.
Qed.

(** The look-up of an identifier that starts with [+] returns the entry
    of one of its three variants, all the same up to formatting. *)
Lemma resolve_plus_identifier i (cm : gmap string string) name :
  Str.startswith "+" i = true ->
  is_Some (cm !! strip_formatting i) ->
  (forall k v, cm !! k = Some v -> strip_formatting k = strip_formatting i ->
               v = name) ->
  resolve_phone_to_name i cm = name.
Proof.
  intros [r ->]%startswith_plus [v Hv] U. rewrite resolve_phone_to_name_eq.
  change (negb (Str.truthy (String "+" r)) || negb (Str.startswith "+" (String "+" r)))
    with false. cbv iota.
  destruct (cm !! String "+" r) as [v1|] eqn:E1; [apply (U _ _ E1); reflexivity|].
  change (Str.tail (String "+" r)) with r.
  destruct (cm !! r) as [v2|] eqn:E2; [apply (U _ _ E2); reflexivity|].
  rewrite Hv. simpl. apply (U _ _ Hv), strip_formatting_fixed.
Qed.

End DirectoryFacts.

(** * The claims of the specification *)

Module Claims.
Import StrFacts.

(** A decidable statement about concrete data holds when its decision
    procedure computes to true. *)
Ltac by_compute :=
  match goal with
  | |- ?P => refine (@bool_decide_unpack P _ _); vm_compute; exact I
  end.

(** ** [normalize_phone] *)

(** The value the specification gives: the digits of the input, behind a
    [+] exactly when the input itself starts with one. *)
Definition normalize_phone_as_specified (raw : string) : string :=
  let digits := Str.filter Char.is_decimal raw in
  if Str.truthy digits
  then (if Str.startswith "+" raw then "+" else "") +:+ digits
  else "".

(** C7, as stated, fails: the input [" +1"] does not start with [+], so
    the stated value is ["1"], but the code strips the blank first and
    gives ["+1"]. *)
Lemma normalize_phone_strips_before_plus :
  Str.startswith "+" " +1" = false
  /\ normalize_phone_as_specified " +1" = "1"
  /\ normalize_phone " +1" = "+1".
Proof. repeat split; vm_compute; reflexivity. Qed.

(** C7, amended: for every input, [normalize_phone] is the decimal
    digits of the input in order, every other character dropped, behind a
    single [+] exactly when the input starts with [+] once its
    surrounding blanks are stripped; it is empty when the input has no
    digit; so two inputs with the same digits that agree on that leading
    [+] have the same token. *)
Theorem normalize_phone_digits_behind_plus :
  (forall raw,
     normalize_phone raw =
       if Str.truthy (Str.filter Char.is_decimal raw)
       then (if Str.startswith "+" (Str.strip raw) then "+" else "")
            +:+ Str.filter Char.is_decimal raw
       else "")
  /\ (forall raw, Str.filter Char.is_decimal raw = "" -> normalize_phone raw = "")
  /\ (forall a b,
        Str.filter Char.is_decimal a = Str.filter Char.is_decimal b ->
        Str.startswith "+" (Str.strip a) = Str.startswith "+" (Str.strip b) ->
        normalize_phone a = normalize_phone b).
Proof.
  split; [|split].
  - intros raw. apply NormFacts.normalize_phone_eq.
  - intros raw E. rewrite NormFacts.normalize_phone_eq. cbv zeta. rewrite E. reflexivity.
  - intros a b E P. rewrite !NormFacts.normalize_phone_eq. cbv zeta.
    rewrite E, P. reflexivity.
Qed.

(** Two spellings of one number, both with the leading [+]. *)
Lemma normalize_phone_digits_behind_plus_witness :
  normalize_phone "+1 (415) 555-1234" = normalize_phone " +14155551234 ".
Proof.
  apply (proj2 (proj2 normalize_phone_digits_behind_plus)); reflexivity.
Defined.

(** ** The people index *)

Definition jane_file : people_file :=
  PeopleFile "jane-doe"
    (Some ("# Jane Doe" +:+ nl +:+ "- **Phone:** +1 (415) 555-1234" +:+ nl)).

(** C9: every phone of the index that [load_people_index] returns is a
    [+] followed by decimal digits only, at least one; so a string that
    does not start with [+] is not in that set. *)
Theorem people_phones_are_plus_digits people_dir ix :
  load_people_index people_dir = Ok ix ->
  (forall p, p ∈ existing_phones ix ->
     exists ds, p = String "+" ds /\ ds <> "" /\ Str.all Char.is_decimal ds = true)
  /\ (forall identifier,
        Str.startswith "+" identifier = false -> identifier ∉ existing_phones ix).
Proof.
  rewrite ResolverFacts.load_people_index_ok. intros [= <-].
  assert (forall p, p ∈ existing_phones (ResolverFacts.index_of people_dir) ->
            NormFacts.phone_token p) as T
    by (intros p; apply ResolverFacts.index_phones).
  split; [exact T|].
  intros identifier E H. apply T in H as (ds & -> & _). discriminate.
Qed.

(** The index of a directory with one file that gives a phone number. *)
Lemma people_phones_are_plus_digits_witness :
  exists ix,
    load_people_index (Some [jane_file]) = Ok ix
    /\ "+14155551234" ∈ existing_phones ix
    /\ (exists ds, "+14155551234" = String "+" ds /\ ds <> ""
                   /\ Str.all Char.is_decimal ds = true)
    /\ "14155551234" ∉ existing_phones ix.
Proof.
  exists (ResolverFacts.index_of (Some [jane_file])).
  pose proof (people_phones_are_plus_digits (Some [jane_file]) _
                (ResolverFacts.load_people_index_ok _)) as [T N].
  assert ("+14155551234" ∈ existing_phones (ResolverFacts.index_of (Some [jane_file])))
    as M by by_compute.
  split; [apply ResolverFacts.load_people_index_ok|].
  split; [exact M|]. split; [apply T, M | apply N; reflexivity].
Defined.

(** C6, as stated, fails for the slugs: a file that cannot be read still
    puts the slug of its name into the slug set. *)
Lemma unreadable_file_adds_its_slug :
  match load_people_index (Some [PeopleFile "Bob" None]),
        load_people_index (Some []) with
  | Ok with_file, Ok without =>
      "bob" ∈ existing_slugs with_file /\ existing_slugs without = ∅
  | _, _ => False
  end.
Proof.
  rewrite !ResolverFacts.load_people_index_ok. cbv beta iota.
  split; by_compute.
Qed.

(** C6, amended: a file whose contents cannot be read yields, without
    raising, a record with its slug and no names, emails or phones; in
    the index it adds nothing to the names, emails and phones, and adds
    its slug to the slugs. *)
Theorem unreadable_file_adds_only_its_slug before after stem :
  parse_people_file (PeopleFile stem None)
    = Ok (PersonRecord (Str.lower stem) ∅ ∅ ∅ None)
  /\ exists ix ix',
       load_people_index (Some (before ++ PeopleFile stem None :: after)) = Ok ix
       /\ load_people_index (Some (before ++ after)) = Ok ix'
       /\ existing_names ix = existing_names ix'
       /\ existing_emails ix = existing_emails ix'
       /\ existing_phones ix = existing_phones ix'
       /\ existing_slugs ix = {[Str.lower stem]} ∪ existing_slugs ix'.
Proof.
  split; [reflexivity|].
  eexists _, _. split; [apply ResolverFacts.load_people_index_ok|].
  split; [apply ResolverFacts.load_people_index_ok|].
  unfold ResolverFacts.index_of.
  rewrite !fmap_app, fmap_cons, PeopleFacts.record_of_unreadable.
  set (A := PeopleFacts.record_of <$> before).
  set (B := PeopleFacts.record_of <$> after).
  set (bad := PersonRecord (Str.lower stem) ∅ ∅ ∅ None).
  destruct (PeopleFacts.foldl_add_record (A ++ bad :: B) empty_index)
    as (S1 & N1 & E1 & P1).
  destruct (PeopleFacts.foldl_add_record (A ++ B) empty_index)
    as (S2 & N2 & E2 & P2).
  assert (forall (P : person_record -> Prop),
            (exists r, r ∈ A ++ bad :: B /\ P r)
            <-> P bad \/ exists r, r ∈ A ++ B /\ P r) as X.
  { intros P. setoid_rewrite elem_of_app. setoid_rewrite elem_of_cons.
    split; [intros (r & [H|[->|H]] & Hr) | intros [H|(r & [H|H] & Hr)]]; eauto 6. }
  assert (forall x : string, x ∉ (set_map slugify (∅ : gset string) : gset string)) as M
    by (intros x (y & _ & []%not_elem_of_empty)%elem_of_map).
  repeat split; apply set_eq; intros x.
  - rewrite N1, N2, X. subst bad. simpl. specialize (M x). tauto.
  - rewrite E1, E2, X. subst bad. simpl. pose proof (not_elem_of_empty (C:=gset string) x). tauto.
  - rewrite P1, P2, X. subst bad. simpl. pose proof (not_elem_of_empty (C:=gset string) x). tauto.
  - rewrite elem_of_union, elem_of_singleton, S1, S2, X. subst bad. simpl. tauto.
Qed.

(** ** The clock *)

(** C8, as stated, fails: the report carries the time of the run, so two
    runs on the same inputs a minute apart write different reports. *)
Lemma report_text_changes_with_the_clock :
  match generate_new_people_candidates_report [] None [] (Datetime 2026 1 1 9 0 0),
        generate_new_people_candidates_report [] None [] (Datetime 2026 1 1 9 1 0)
  with
  | Ok first, Ok second =>
      r_named first = r_named second /\ r_unknown first = r_unknown second
      /\ String.eqb (r_text first) (r_text second) = false
  | _, _ => False
  end.
Proof. vm_compute. auto. Qed.

(** C8, amended: on the same contacts, people directory and address
    books the function returns the same two candidate lists whatever the
    clock says, and the same report text exactly when the clock, printed
    to the minute, is the same. *)
Theorem report_depends_on_inputs_and_minute contacts people_dir all_dbs now1 now2 :
  exists named unknown text1 text2,
    generate_new_people_candidates_report contacts people_dir all_dbs now1
      = Ok (Report named unknown text1)
    /\ generate_new_people_candidates_report contacts people_dir all_dbs now2
      = Ok (Report named unknown text2)
    /\ (text1 = text2 <-> strftime_minute now1 = strftime_minute now2).
Proof.
  eexists _, _, _, _.
  split; [apply ResolverFacts.generate_ok|].
  split; [apply ResolverFacts.generate_ok|].
  unfold write_report. split.
  - intros H. do 3 apply app_inv_head in H. apply app_inv_tail in H. exact H.
  - intros ->. reflexivity.
Qed.

(** ** The resolver *)

Import LoopFacts ResolverFacts SkipFacts.

Definition at_9 : datetime := Datetime 2026 1 1 9 0 0.

Definition plain (name identifier last_msg : string) : contact :=
  Contact (Some name) (Some identifier) (Some last_msg) [] None.

(** C3: a contact whose name, stripped and in lower case, is in
    [IMESSAGE_EXCLUDE_NAMES] is in neither list of the report, whatever
    the contacts, the people directory and the address books are. *)
Theorem excluded_names_never_candidates contacts people_dir all_dbs now x :
  Str.lower (Str.strip (Str.or_empty (c_name x))) ∈ IMESSAGE_EXCLUDE_NAMES ->
  exists rep,
    generate_new_people_candidates_report contacts people_dir all_dbs now = Ok rep
    /\ (x ∉ r_named rep) /\ (x ∉ r_unknown rep).
Proof.
  intros H. apply skipped_absent, excluded_name_skipped. exact H.
Qed.

(** A contact named Mom, with blanks and a capital. *)
Lemma excluded_names_never_candidates_witness :
  exists rep,
    generate_new_people_candidates_report
      [plain " Mom " "+15550001111" "2025-01-09"] None [] at_9 = Ok rep
    /\ (plain " Mom " "+15550001111" "2025-01-09" ∉ r_named rep)
    /\ (plain " Mom " "+15550001111" "2025-01-09" ∉ r_unknown rep).
Proof.
  apply (excluded_names_never_candidates
           [plain " Mom " "+15550001111" "2025-01-09"] None [] at_9
           (plain " Mom " "+15550001111" "2025-01-09")).
  by_compute.
Defined.

(** The previews as the heuristic reads them: joined by blanks. *)
Definition joined_previews (c : contact) : string :=
  Str.join " " ((fun m => Str.or_empty (m_preview m)) <$> c_recent c).

Lemma startswith_map f p : forall s,
  Str.startswith p s = true -> Str.startswith (Str.map f p) (Str.map f s) = true.
Proof.
  induction p as [|a p IH]; intros [|b s]; simpl; try discriminate; auto.
  intros [E H]%andb_prop. apply CharFacts.eqb_eq in E as ->.
  unfold Char.eqb. rewrite Ascii.eqb_refl. simpl. auto.
Qed.

Lemma contains_map f p s :
  Str.contains p s = true -> Str.contains (Str.map f p) (Str.map f s) = true.
Proof.
  induction s as [|b s IH]; simpl.
  - rewrite !orb_false_r. apply (startswith_map f p "").
  - intros [H|H]%orb_prop; apply orb_true_iff;
      [left; apply (startswith_map f p (String b s)) | right]; auto.
Qed.

Lemma markers_lower_case :
  Forall (fun m => Str.lower m = m) IMESSAGE_SYSTEM_MARKERS.
Proof. repeat constructor. Qed.

(** A marker in the previews is still there once they are in lower
    case. *)
Lemma has_marker_lower previews :
  has_marker previews = true -> has_marker (Str.lower previews) = true.
Proof.
  unfold has_marker. rewrite !existsb_exists. intros (m & Hm & C).
  exists m. split; [assumption|].
  pose proof markers_lower_case as L. rewrite Forall_forall in L.
  rewrite <- (L m) by (apply list_elem_of_In; assumption).
  apply contains_map. assumption.
Qed.

(** C4, as stated, fails: a short code as identifier does not drop a
    contact that has a name, and neither does the identifier ["unknown"]:
    both contacts below are named candidates. *)
Lemma named_contact_with_short_code_is_candidate :
  Re.fullmatch short_code "12345" = true
  /\ match generate_new_people_candidates_report
             [plain "Bob Smith" "12345" "2025-01-02";
              plain "Ann Lee" "unknown" "2025-01-01"] None [] at_9 with
     | Ok rep =>
         r_named rep = [plain "Bob Smith" "12345" "2025-01-02";
                        plain "Ann Lee" "unknown" "2025-01-01"]
     | Raise _ => False
     end.
Proof. split; vm_compute; reflexivity. Qed.

(** C4, amended: a contact is in neither list of the report if its name
    is a string of 4 to 6 digits, or it has no name and its identifier is
    such a string, or its name in lower case is ["unknown"] or
    ["identifier"], or its previews, joined by blanks, contain a phrase of
    [IMESSAGE_SYSTEM_MARKERS], as they are or in lower case. Name and
    identifier are taken without surrounding blanks. *)
Theorem system_contacts_never_candidates contacts people_dir all_dbs now x :
  let name := Str.strip (Str.or_empty (c_name x)) in
  let identifier := Str.strip (Str.or_empty (c_identifier x)) in
  Re.fullmatch short_code name = true
  \/ (name = "" /\ Re.fullmatch short_code identifier = true)
  \/ Str.lower name = "unknown"
  \/ Str.lower name = "identifier"
  \/ has_marker (joined_previews x) = true
  \/ has_marker (Str.lower (joined_previews x)) = true ->
  exists rep,
    generate_new_people_candidates_report contacts people_dir all_dbs now = Ok rep
    /\ (x ∉ r_named rep) /\ (x ∉ r_unknown rep).
Proof.
  intros name identifier H. apply skipped_absent, likely_system_skipped.
  unfold is_likely_system_imessage_contact. fold name identifier.
  fold (joined_previews x).
  destruct H as [H|[[E H]|[H|[H|[H|H]]]]].
  - destruct name; [discriminate|]. cbn [Str.truthy]. rewrite H. reflexivity.
  - rewrite E. cbn [Str.truthy]. rewrite H. reflexivity.
  - destruct (Re.fullmatch _ _); [reflexivity|]. rewrite H. reflexivity.
  - destruct (Re.fullmatch _ _); [reflexivity|]. rewrite H. reflexivity.
  - destruct (Re.fullmatch _ _); [reflexivity|]. destruct (bool_decide _); [reflexivity|].
    rewrite (has_marker_lower _ H). reflexivity.
  - destruct (Re.fullmatch _ _); [reflexivity|]. destruct (bool_decide _); [reflexivity|].
    rewrite H. reflexivity.
Qed.

Definition code_sender : contact :=
  Contact (Some "") (Some "+15550002222") (Some "2025-01-03")
    [Message (Some "2025-01-03") (Some "+15550002222")
       (Some "Your Verification Code is 123456")] None.

(** A sender of verification codes, as its preview shows. *)
Lemma system_contacts_never_candidates_witness :
  exists rep,
    generate_new_people_candidates_report [code_sender] None [] at_9 = Ok rep
    /\ (code_sender ∉ r_named rep) /\ (code_sender ∉ r_unknown rep).
Proof.
  apply (system_contacts_never_candidates [code_sender] None [] at_9 code_sender).
  do 5 right. vm_compute. reflexivity.
Defined.

(** C10: a contact without a name whose identifier has no [@] and does
    not start with [+] is in neither list of the report; the look-up in
    the directory fails for such an identifier, and whether it is shaped
    like a phone number makes no difference. Name and identifier are
    taken without surrounding blanks. *)
Theorem nameless_without_plus_never_candidates contacts people_dir all_dbs now x :
  Str.strip (Str.or_empty (c_name x)) = "" ->
  Str.contains "@" (Str.strip (Str.or_empty (c_identifier x))) = false ->
  Str.startswith "+" (Str.strip (Str.or_empty (c_identifier x))) = false ->
  resolve_phone_to_name (Str.strip (Str.or_empty (c_identifier x)))
    (load_contacts_map all_dbs) = ""
  /\ exists rep,
       generate_new_people_candidates_report contacts people_dir all_dbs now = Ok rep
       /\ (x ∉ r_named rep) /\ (x ∉ r_unknown rep).
Proof.
  intros Hn Ha Hp. split; [apply resolve_without_plus; exact Hp|].
  apply skipped_absent, nameless_without_plus_skipped; assumption.
Qed.

(** A group-chat handle without a name. *)
Lemma nameless_without_plus_never_candidates_witness :
  resolve_phone_to_name "chat123456" (load_contacts_map []) = ""
  /\ exists rep,
       generate_new_people_candidates_report
         [plain "" "chat123456" "2025-01-04"] None [] at_9 = Ok rep
       /\ (plain "" "chat123456" "2025-01-04" ∉ r_named rep)
       /\ (plain "" "chat123456" "2025-01-04" ∉ r_unknown rep).
Proof.
  apply (nameless_without_plus_never_candidates
           [plain "" "chat123456" "2025-01-04"] None [] at_9
           (plain "" "chat123456" "2025-01-04")); reflexivity.
Defined.

(** A contact that, taken alone, is filed as an unknown-number candidate
    under the number [t]. *)
Definition filed_unknown (ix : people_index) (cm : gmap string string)
    (c : contact) (t : string) : Prop :=
  let st := loop_body ix cm (LoopState [] [] ∅) c in
  unknown_number_candidates st = [c] /\ t ∈ seen_unknown_numbers st.

Lemma filed_unknown_unresolved ix cm c t :
  filed_unknown ix cm c t -> unresolved_number ix cm c t.
Proof.
  unfold filed_unknown, unresolved_number. rewrite loop_body_verdict.
  destruct (verdict_of ix cm c) as [|y|num y r]; simpl;
    [intros [H _]; discriminate H | intros [H _]; discriminate H |].
  destruct (Str.truthy num) eqn:T; simpl; [|intros [H _]; discriminate H].
  destruct (bool_decide _); simpl; [intros [H _]; discriminate H|].
  destruct r as [|a r]; simpl; [|intros [H _]; discriminate H].
  intros [H Ht]. injection H as ->.
  apply elem_of_union in Ht as [->%elem_of_singleton|[]%not_elem_of_empty].
  auto.
Qed.

(** C2: when two contacts of the input both get to the unknown-number
    branch with numbers that normalise to the same token, the
    unknown-number list of the report has exactly one candidate with that
    token. *)
Theorem same_number_listed_once l1 c1 l2 c2 l3 people_dir all_dbs now ix t :
  load_people_index people_dir = Ok ix ->
  filed_unknown ix (load_contacts_map all_dbs) c1 t ->
  filed_unknown ix (load_contacts_map all_dbs) c2 t ->
  exists rep,
    generate_new_people_candidates_report
      (l1 ++ c1 :: l2 ++ c2 :: l3) people_dir all_dbs now = Ok rep
    /\ length (List.filter (fun x => String.eqb (dedup_key x) t) (r_unknown rep)) = 1.
Proof.
  rewrite load_people_index_ok. intros [= <-] F1 _.
  apply filed_unknown_unresolved in F1.
  eexists. split; [apply generate_ok|]. simpl.
  rewrite (filter_length_perm _ _ _ (SortFacts.sorted_perm _)).
  set (ix := index_of people_dir) in *. set (cm := load_contacts_map all_dbs) in *.
  destruct (run_seen_inv ix cm (l1 ++ c1 :: l2 ++ c2 :: l3) (LoopState [] [] ∅))
    as [ND S].
  { split; [constructor|]. intros u. simpl. unfold keys. simpl.
    split; [intros []%not_elem_of_empty | intros []%elem_of_nil]. }
  apply count_once; [exact ND|]. apply S.
  apply (run_seen_unresolved ix cm _ _ c1); [|exact F1].
  apply elem_of_app. right. apply elem_of_cons. left. reflexivity.
Qed.

(** One number in two spellings, with another contact in between. *)
Lemma same_number_listed_once_witness :
  exists rep,
    generate_new_people_candidates_report
      ([] ++ plain "" "+19998887777" "2025-01-05"
          :: [plain "Zed" "zed@x.org" "2025-01-03"]
          ++ plain "" "+1 (999) 888-7777" "2025-01-06" :: [])
      None [] at_9 = Ok rep
    /\ length (List.filter (fun x => String.eqb (dedup_key x) "+19998887777")
                 (r_unknown rep)) = 1.
Proof.
  apply (same_number_listed_once [] (plain "" "+19998887777" "2025-01-05")
           [plain "Zed" "zed@x.org" "2025-01-03"]
           (plain "" "+1 (999) 888-7777" "2025-01-06") []
           None [] at_9 empty_index "+19998887777").
  - reflexivity.
  - split; [reflexivity | by_compute].
  - split; [reflexivity | by_compute].
Defined.

(** The keys of a list are in descending order: no contact is followed,
    at any distance, by one with a later key. *)
Definition latest_first (l : list contact) : Prop :=
  forall i j a b, i < j -> l !! i = Some a -> l !! j = Some b ->
    exists ka kb, sort_key a = Ok ka /\ sort_key b = Ok kb /\ dt_leb kb ka = true.

Lemma strongly_sorted_lookup {A} (R : A -> A -> Prop) l :
  StronglySorted R l ->
  forall i j a b, i < j -> l !! i = Some a -> l !! j = Some b -> R a b.
Proof.
  induction 1 as [|x l S IH F]; intros i j a b Hij Ha Hb.
  - rewrite lookup_nil in Ha. discriminate.
  - destruct j as [|j]; [lia|]. simpl in Hb. destruct i as [|i]; simpl in Ha.
    + injection Ha as <-. rewrite Forall_forall in F. apply F.
      eapply list_elem_of_lookup_2. eassumption.
    + apply (IH i j); [lia | assumption | assumption].
Qed.

Lemma sorted_latest_first l : latest_first (SortFacts.sorted l).
Proof.
  intros i j a b Hij Ha Hb. exists (SortFacts.key a), (SortFacts.key b).
  rewrite !SortFacts.sort_key_ok. split; [reflexivity|]. split; [reflexivity|].
  apply (strongly_sorted_lookup _ _ (SortFacts.sorted_descending l) i j); assumption.
Qed.

(** C5: both lists of the report have their last-message dates in
    descending order, where a last message that [parse_dt_maybe] cannot
    parse, the empty one included, counts as [datetime.min], which no
    date precedes, so that in such a list only contacts with that key
    follow it; [parse_dt_maybe] raises on no input; and the order on
    dates is total. *)
Theorem candidates_sorted_latest_first contacts people_dir all_dbs now :
  (exists rep,
     generate_new_people_candidates_report contacts people_dir all_dbs now = Ok rep
     /\ latest_first (r_named rep) /\ latest_first (r_unknown rep))
  /\ (forall s, exists v, parse_dt_maybe s = Ok v)
  /\ parse_dt_maybe "" = Ok None
  /\ (forall c, parse_dt_maybe (Str.or_empty (c_last_msg c)) = Ok None ->
        sort_key c = Ok datetime_min)
  /\ (forall c, exists k, sort_key c = Ok k /\ dt_leb datetime_min k = true)
  /\ (forall l i j a b,
        latest_first l -> i < j -> l !! i = Some a -> l !! j = Some b ->
        sort_key a = Ok datetime_min -> sort_key b = Ok datetime_min)
  /\ (forall a b, dt_leb a b = true \/ dt_leb b a = true)
  /\ (forall a b c, dt_leb a b = true -> dt_leb b c = true -> dt_leb a c = true)
  /\ (forall a b, dt_leb a b = true -> dt_leb b a = true -> a = b).
Proof.
  split.
  { eexists. split; [apply generate_ok|]. simpl. split; apply sorted_latest_first. }
  split; [apply DateFacts.parse_dt_maybe_total|].
  split; [reflexivity|].
  split. { intros c H. unfold sort_key. rewrite H. reflexivity. }
  split.
  { intros c. unfold sort_key.
    destruct (parse_dt_maybe (Str.or_empty (c_last_msg c))) as [[d|]|e] eqn:P.
    - exists d. split; [reflexivity|]. eapply DateFacts.parse_dt_maybe_ge_min, P.
    - exists datetime_min. split; [reflexivity|]. apply DateFacts.dt_leb_refl.
    - destruct (DateFacts.parse_dt_maybe_total (Str.or_empty (c_last_msg c))) as [v E].
      congruence. }
  split.
  { intros l i j a b S Hij Ha Hb Ka.
    destruct (S i j a b Hij Ha Hb) as (ka & kb & Ea & Eb & L).
    rewrite Ka in Ea. injection Ea as <-. rewrite Eb. f_equal.
    apply DateFacts.dt_leb_antisym; [exact L|].
    unfold sort_key in Eb.
    destruct (parse_dt_maybe (Str.or_empty (c_last_msg b))) as [[d|]|e] eqn:P;
      simpl in Eb; [|injection Eb as <-; apply DateFacts.dt_leb_refl|discriminate].
    injection Eb as <-. eapply DateFacts.parse_dt_maybe_ge_min, P. }
  split; [apply DateFacts.dt_leb_total|].
  split; [apply DateFacts.dt_leb_trans | apply DateFacts.dt_leb_antisym].
Qed.

(** Two dated and two undated contacts: the dated ones come first, the
    later one before the earlier, the undated ones in their own order. *)
Lemma candidates_sorted_latest_first_witness :
  match generate_new_people_candidates_report
          [plain "Al" "al@x.org" "not a date"; plain "Bo" "bo@x.org" "2025-01-01";
           plain "Cy" "cy@x.org" ""; plain "Di" "di@x.org" "2025-01-05 10:30"]
          None [] at_9 with
  | Ok rep =>
      r_named rep
      = [plain "Di" "di@x.org" "2025-01-05 10:30"; plain "Bo" "bo@x.org" "2025-01-01";
         plain "Al" "al@x.org" "not a date"; plain "Cy" "cy@x.org" ""]
      /\ latest_first (r_named rep)
  | Raise _ => False
  end.
Proof.
  destruct (candidates_sorted_latest_first
              [plain "Al" "al@x.org" "not a date"; plain "Bo" "bo@x.org" "2025-01-01";
               plain "Cy" "cy@x.org" ""; plain "Di" "di@x.org" "2025-01-05 10:30"]
              None [] at_9) as [(rep & E & N & _) _].
  rewrite E. split; [|exact N].
  revert E. vm_compute. intros [= <-]. reflexivity.
Defined.

(** ** Matching up to formatting *)

Definition jane_book : list (option addressbook) :=
  [Some (AddressBook [("+14155551234", "Jane Doe")] [])].

Definition two_books : list (option addressbook) :=
  [Some (AddressBook [("+1 415 555 1234", "Jane Doe"); ("+14155551234", "Bob Roe")] [])].

(** C1, as stated, fails. The directory holds [+14155551234] for Jane
    Doe and the identifier [14155551234] differs from it by the leading
    [+] only, yet the look-up finds nothing; with the same number stored
    twice in different formatting under two names, an identifier that
    differs from both by formatting only gets the name stored last, not
    the other; and with [+14155551234] in the people files, a named
    contact with the identifier [14155551234] is a candidate, not
    known. *)
Lemma identifier_without_plus_is_not_matched :
  SkipFacts.strip_formatting "14155551234" = SkipFacts.strip_formatting "+14155551234"
  /\ resolve_phone_to_name "14155551234" (load_contacts_map jane_book) = ""
  /\ resolve_phone_to_name "+1 (415) 555-1234" (load_contacts_map two_books) = "Bob Roe"
  /\ match load_people_index (Some [jane_file]),
           generate_new_people_candidates_report
             [plain "Zed Roe" "14155551234" "2025-01-01"] (Some [jane_file]) [] at_9
     with
     | Ok ix, Ok rep =>
         "+14155551234" ∈ existing_phones ix
         /\ r_named rep = [plain "Zed Roe" "14155551234" "2025-01-01"]
     | _, _ => False
     end.
Proof.
  split; [reflexivity|]. split; [vm_compute; reflexivity|].
  split; [vm_compute; reflexivity|].
  rewrite load_people_index_ok, generate_ok. cbv beta iota zeta.
  split; [by_compute | vm_compute; reflexivity].
Qed.

(** C1, amended. An identifier that starts with [+] and equals a phone
    number stored in the Contact Directory once [+], parentheses, blanks
    and hyphens are removed from both resolves to the stored display name,
    provided no entry that is the same up to that formatting carries
    another name; an identifier that does not start with [+] resolves to
    nothing. A contact whose identifier starts with [+] and equals a phone
    of the people files up to the same formatting normalises to that
    phone and is in neither list of the report. With the people phone
    [+14155551234], the contact without a name and with the identifier
    [4155551234] is in neither list. Identifiers are taken without
    surrounding blanks. *)
Theorem plus_identifier_matches_up_to_formatting :
  (forall all_dbs ab p n i,
     Some ab ∈ all_dbs -> (p, n) ∈ phone_rows ab ->
     Str.strip p <> "" -> Str.strip n <> "" -> Str.strip n <> "Unknown" ->
     Str.startswith "+" i = true ->
     SkipFacts.strip_formatting i = SkipFacts.strip_formatting (Str.strip p) ->
     (forall k v, load_contacts_map all_dbs !! k = Some v ->
        SkipFacts.strip_formatting k = SkipFacts.strip_formatting i ->
        v = Str.strip n) ->
     resolve_phone_to_name i (load_contacts_map all_dbs) = Str.strip n)
  /\ (forall i contacts_map,
        Str.startswith "+" i = false -> resolve_phone_to_name i contacts_map = "")
  /\ (forall contacts people_dir all_dbs now ix t x,
        load_people_index people_dir = Ok ix ->
        t ∈ existing_phones ix ->
        Str.startswith "+" (Str.strip (Str.or_empty (c_identifier x))) = true ->
        SkipFacts.strip_formatting (Str.strip (Str.or_empty (c_identifier x)))
          = SkipFacts.strip_formatting t ->
        normalize_phone (Str.strip (Str.or_empty (c_identifier x))) = t
        /\ exists rep,
             generate_new_people_candidates_report contacts people_dir all_dbs now
               = Ok rep
             /\ (x ∉ r_named rep) /\ (x ∉ r_unknown rep))
  /\ match load_people_index (Some [jane_file]),
           generate_new_people_candidates_report
             [plain "" "4155551234" "2025-01-01"] (Some [jane_file]) [] at_9
     with
     | Ok ix, Ok rep =>
         existing_phones ix = {["+14155551234"]}
         /\ r_named rep = [] /\ r_unknown rep = []
     | _, _ => False
     end.
Proof.
  split; [|split; [|split]].
  - intros all_dbs ab p n i Hdb Hrow Hp Hn Hu Hi E U.
    apply DirectoryFacts.resolve_plus_identifier; [assumption| |assumption].
    rewrite E. eapply DirectoryFacts.load_contacts_map_has; eassumption.
  - intros i cm. apply resolve_without_plus.
  - intros contacts people_dir all_dbs now ix t x L Ht Hi E.
    rewrite load_people_index_ok in L. injection L as <-.
    pose proof (index_phones _ _ Ht) as T.
    pose proof (normalize_phone_same_formatting _ _ T Hi E) as N.
    split; [exact N|].
    apply skipped_absent, known_phone_skipped; cbv zeta; rewrite ?N.
    + assumption.
    + destruct T as (ds & -> & _). reflexivity.
    + assumption.
  - rewrite load_people_index_ok, generate_ok. cbv beta iota zeta.
    split; [by_compute|]. split; vm_compute; reflexivity.
Qed.

(** The stored number in two other spellings, each with its [+]. *)
Lemma plus_identifier_matches_up_to_formatting_witness :
  resolve_phone_to_name "+1 (415) 555-1234" (load_contacts_map jane_book) = "Jane Doe"
  /\ exists rep,
       generate_new_people_candidates_report
         [plain "Zed Roe" "+1 415-555-1234" "2025-01-01"] (Some [jane_file]) [] at_9
         = Ok rep
       /\ (plain "Zed Roe" "+1 415-555-1234" "2025-01-01" ∉ r_named rep)
       /\ (plain "Zed Roe" "+1 415-555-1234" "2025-01-01" ∉ r_unknown rep).
Proof.
  destruct plus_identifier_matches_up_to_formatting as (D & _ & P & _).
  split.
  - apply (D jane_book (AddressBook [("+14155551234", "Jane Doe")] [])
             "+14155551234" "Jane Doe" "+1 (415) 555-1234");
      try (left; fail); try discriminate; try reflexivity.
    assert (map_Forall (fun _ v => v = "Jane Doe") (load_contacts_map jane_book)) as A
      by by_compute.
    intros k v Hk _. exact (A k v Hk).
  - apply (P [plain "Zed Roe" "+1 415-555-1234" "2025-01-01"] (Some [jane_file]) []
             at_9 (index_of (Some [jane_file])) "+14155551234"
             (plain "Zed Roe" "+1 415-555-1234" "2025-01-01")).
    + apply load_people_index_ok.
    + by_compute.
    + reflexivity.
    + reflexivity.
Defined.

End Claims.

(** * Further properties of the code *)

Module Extras.
Import StrFacts LoopFacts ResolverFacts SkipFacts.

(** ** Addresses *)

Lemma lower_char_fixed c : Char.lower (Char.lower c) = Char.lower c.
Proof. CharFacts.by_cases c. Qed.

Lemma lower_char_space c : Char.is_space (Char.lower c) = Char.is_space c.
Proof. CharFacts.by_cases c. Qed.

Lemma lower_fixed s : Str.lower (Str.lower s) = Str.lower s.
Proof.
  unfold Str.lower. induction s as [|c s IH]; simpl; [reflexivity|].
  rewrite lower_char_fixed, IH. reflexivity.
Qed.

Lemma lstrip_by_map p f s :
  (forall c, p (f c) = p c) ->
  Str.lstrip_by p (Str.map f s) = Str.map f (Str.lstrip_by p s).
Proof.
  intros E. induction s as [|c s IH]; simpl; [reflexivity|].
  rewrite E. destruct (p c); [assumption | reflexivity].
Qed.

Lemma rstrip_by_map p f s :
  (forall c, p (f c) = p c) ->
  Str.rstrip_by p (Str.map f s) = Str.map f (Str.rstrip_by p s).
Proof.
  intros E. induction s as [|c s IH]; [reflexivity|].
  change (Str.map f (String c s)) with (String (f c) (Str.map f s)).
  rewrite !rstrip_by_cons, IH, E.
  destruct (Str.rstrip_by p s); simpl; [destruct (p c)|]; reflexivity.
Qed.

Lemma strip_lower s : Str.strip (Str.lower s) = Str.lower (Str.strip s).
Proof.
  unfold Str.strip, Str.strip_by, Str.lower.
  rewrite lstrip_by_map, rstrip_by_map by apply lower_char_space. reflexivity.
Qed.

Lemma normalize_email_stripped raw :
  Str.strip (normalize_email raw) = normalize_email raw.
Proof.
  unfold normalize_email. destruct raw as [|c raw]; [reflexivity|].
  cbn [Str.truthy negb]. rewrite strip_lower, strip_fixed. reflexivity.
Qed.

Lemma normalize_email_lowered raw :
  Str.lower (normalize_email raw) = normalize_email raw.
Proof.
  unfold normalize_email. destruct raw as [|c raw]; [reflexivity|].
  cbn [Str.truthy negb]. apply lower_fixed.
Qed.

Lemma normalize_email_fixed raw :
  normalize_email (normalize_email raw) = normalize_email raw.
Proof.
  unfold normalize_email at 1.
  destruct (normalize_email raw) eqn:E; [reflexivity|].
  cbn [Str.truthy negb]. rewrite <- E.
  rewrite normalize_email_stripped, normalize_email_lowered. reflexivity.
Qed.

(** X1: [normalize_email] is idempotent, its result has no surrounding
    blanks and no capital, and the case of the input makes no
    difference. *)
Theorem normalize_email_canonical raw :
  normalize_email (normalize_email raw) = normalize_email raw
  /\ Str.strip (normalize_email raw) = normalize_email raw
  /\ Str.lower (normalize_email raw) = normalize_email raw
  /\ normalize_email (Str.lower raw) = normalize_email raw.
Proof.
  split; [apply normalize_email_fixed|].
  split; [apply normalize_email_stripped|].
  split; [apply normalize_email_lowered|].
  unfold normalize_email. destruct raw as [|c raw]; [reflexivity|].
  change (Str.lower (String c raw)) with (String (Char.lower c) (Str.lower raw)).
  cbn [Str.truthy negb].
  change (String (Char.lower c) (Str.lower raw)) with (Str.lower (String c raw)).
  rewrite strip_lower, lower_fixed. reflexivity.
Qed.

(** ** Phone numbers *)

Lemma phone_cleaning_filter s :
  Str.remove ")" (Str.remove "(" (Str.remove " " (Str.remove "-" (Str.remove "+" s))))
  = Str.filter (fun c => negb (is_formatting c)) s.
Proof.
  unfold Str.remove. rewrite !filter_filter.
  apply filter_ext. intros c. unfold is_formatting. simpl.
  destruct (Char.eqb c "+"), (Char.eqb c "("), (Char.eqb c ")"),
    (Char.eqb c " "), (Char.eqb c "-"); reflexivity.
Qed.

Lemma is_phone_number_eq s :
  is_phone_number s =
    Str.truthy s
    && Str.isdigit (Str.filter (fun c => negb (is_formatting c)) s)
    && (7 <=? String.length (Str.filter (fun c => negb (is_formatting c)) s)).
Proof.
  unfold is_phone_number. rewrite phone_cleaning_filter.
  destruct s; reflexivity.
Qed.

Lemma all_decimal_digit s :
  Str.all Char.is_decimal s = true -> Str.all Char.is_digit s = true.
Proof.
  induction s as [|c s IH]; simpl; [reflexivity|].
  intros [D H]%andb_prop. rewrite (CharFacts.decimal_is_digit _ D). auto.
Qed.

Lemma filter_not_formatting_digits ds :
  Str.all Char.is_decimal ds = true ->
  Str.filter (fun c => negb (is_formatting c)) ds = ds.
Proof.
  intros D. apply filter_id.
  induction ds as [|c ds IH]; [reflexivity|]. simpl in *.
  apply andb_prop in D as [Dc D]. rewrite (decimal_not_formatting _ Dc). auto.
Qed.

(** X2: a normalised phone token is shaped like a phone number for
    [is_phone_number] exactly when the raw string has at least seven
    decimal digits. *)
Theorem normalized_token_is_phone_number raw :
  is_phone_number (normalize_phone raw)
  = (7 <=? String.length (Str.filter Char.is_decimal raw)).
Proof.
  rewrite NormFacts.normalize_phone_eq. cbv zeta.
  pose proof (filter_all Char.is_decimal raw) as D.
  destruct (Str.filter Char.is_decimal raw) as [|d ds] eqn:E; [reflexivity|].
  cbn [Str.truthy]. rewrite is_phone_number_eq.
  assert (Str.filter (fun c => negb (is_formatting c))
            ((if Str.startswith "+" (Str.strip raw) then "+" else "") +:+ String d ds)
          = String d ds) as C.
  { rewrite filter_app, (filter_not_formatting_digits _ D).
    destruct (Str.startswith "+" (Str.strip raw)); reflexivity. }
  rewrite C. unfold Str.isdigit. rewrite (all_decimal_digit _ D).
  destruct (Str.startswith "+" (Str.strip raw)); reflexivity.
Qed.

(** ** The directory table *)

(** A row that [load_contacts_map] takes in: a handle and a name with
    something left once stripped, the name not the placeholder. *)
Definition usable_row (r : row) : Prop :=
  Str.strip (fst r) <> "" /\ Str.strip (snd r) <> ""
  /\ Str.strip (snd r) <> "Unknown".

Lemma register_phone_usable (m : gmap string string) p n :
  usable_row (p, n) ->
  register_phone m (p, n) =
    <[strip_formatting (Str.strip p) := Str.strip n]>
      ((if Str.startswith "+" (Str.strip p)
        then <[Str.tail (Str.strip p) := Str.strip n]> else id)
         (<[Str.strip p := Str.strip n]> m)).
Proof.
  intros (Hp & Hn & Hu). simpl in Hp, Hn, Hu. unfold register_phone. cbn [fst snd].
  rewrite (proj2 (truthy_true _) Hp), (proj2 (truthy_true _) Hn).
  rewrite (proj2 (String.eqb_neq _ _) Hu). cbn [andb negb].
  destruct (Str.startswith "+" (Str.strip p)); reflexivity.
Qed.

(** X3: once a usable phone row is registered, looking up its handle,
    when that starts with [+], gives the name of the row, whatever the
    table held before. *)
Theorem registered_phone_resolves (m : gmap string string) p n :
  usable_row (p, n) ->
  Str.startswith "+" (Str.strip p) = true ->
  resolve_phone_to_name (Str.strip p) (register_phone m (p, n)) = Str.strip n.
Proof.
  intros U P. rewrite (register_phone_usable _ _ _ U), P.
  rewrite DirectoryFacts.resolve_phone_to_name_eq, P.
  destruct U as (Hp & _). simpl in Hp.
  rewrite (proj2 (truthy_true _) Hp). cbn [negb orb].
  match goal with |- context [?t !! Str.strip p] =>
    assert (t !! Str.strip p = Some (Str.strip n)) as ->
      by (rewrite !lookup_insert; repeat case_decide; congruence)
  end.
  reflexivity.
Qed.

(** Two spellings of a handle, the second without blanks around it. *)
Lemma registered_phone_resolves_witness :
  resolve_phone_to_name (Str.strip " +1 (415) 555-1234 ")
    (register_phone ∅ (" +1 (415) 555-1234 ", " Jane Doe ")) = "Jane Doe".
Proof.
  apply (registered_phone_resolves ∅ " +1 (415) 555-1234 " " Jane Doe ").
  - repeat split; vm_compute; discriminate.
  - reflexivity.
Defined.

(** A name as the table stores it. *)
Definition stored_name (v : string) : Prop :=
  v <> "" /\ v <> "Unknown" /\ Str.strip v = v.

Lemma register_phone_names (m : gmap string string) r :
  map_Forall (fun _ v => stored_name v) m ->
  map_Forall (fun _ v => stored_name v) (register_phone m r).
Proof.
  intros H. unfold register_phone.
  destruct (Str.truthy (Str.strip (fst r))) eqn:Hp; [|assumption].
  destruct (Str.truthy (Str.strip (snd r))) eqn:Hn; [|assumption].
  destruct (String.eqb_spec (Str.strip (snd r)) "Unknown") as [|Hu]; [assumption|].
  cbn [andb negb]. assert (stored_name (Str.strip (snd r))) as G.
  { split; [apply truthy_true; assumption|]. split; [assumption|apply strip_fixed]. }
  apply map_Forall_insert_2; [exact G|].
  destruct (Str.startswith "+" (Str.strip (fst r)));
    [apply map_Forall_insert_2; [exact G|]|];
    apply map_Forall_insert_2; assumption.
Qed.

Lemma register_email_names (m : gmap string string) r :
  map_Forall (fun _ v => stored_name v) m ->
  map_Forall (fun _ v => stored_name v) (register_email m r).
Proof.
  intros H. unfold register_email.
  destruct (Str.truthy (Str.lower _)) eqn:Hp; [|assumption].
  destruct (Str.truthy (Str.strip (snd r))) eqn:Hn; [|assumption].
  destruct (String.eqb_spec (Str.strip (snd r)) "Unknown") as [|Hu]; [assumption|].
  cbn [andb negb]. apply map_Forall_insert_2; [|assumption].
  split; [apply truthy_true; assumption|]. split; [assumption|apply strip_fixed].
Qed.

Lemma foldl_names {A} (f : gmap string string -> A -> gmap string string) l :
  (forall m a, map_Forall (fun _ v => stored_name v) m ->
               map_Forall (fun _ v => stored_name v) (f m a)) ->
  forall m, map_Forall (fun _ v => stored_name v) m ->
            map_Forall (fun _ v => stored_name v) (foldl f m l).
Proof.
  intros Hf. induction l as [|a l IH]; intros m H; simpl; [assumption|].
  apply IH, Hf, H.
Qed.

Lemma load_contacts_map_names all_dbs :
  map_Forall (fun _ v => stored_name v) (load_contacts_map all_dbs).
Proof.
  unfold load_contacts_map. apply foldl_names; [|apply map_Forall_empty].
  intros m [ab|] H; simpl; [|assumption].
  apply foldl_names; [apply register_email_names|].
  apply foldl_names; [apply register_phone_names|]. assumption.
Qed.

(** X4: whatever the address books hold, a look-up gives either nothing
    or a name that is stored in the table: one that is not empty, has no
    blanks around it and is not the placeholder ["Unknown"]. *)
Theorem resolved_name_is_stored all_dbs identifier :
  let cm := load_contacts_map all_dbs in
  resolve_phone_to_name identifier cm = ""
  \/ (exists k, cm !! k = Some (resolve_phone_to_name identifier cm))
     /\ resolve_phone_to_name identifier cm <> "Unknown"
     /\ Str.strip (resolve_phone_to_name identifier cm)
        = resolve_phone_to_name identifier cm.
Proof.
  intros cm. pose proof (load_contacts_map_names all_dbs) as N. fold cm in N.
  rewrite DirectoryFacts.resolve_phone_to_name_eq.
  destruct (_ || _); [left; reflexivity|].
  destruct (cm !! identifier) as [v|] eqn:E1;
    [right; destruct (N _ _ E1) as (_ & ? & ?); eauto|].
  destruct (cm !! Str.tail identifier) as [v|] eqn:E2;
    [right; destruct (N _ _ E2) as (_ & ? & ?); eauto|].
  destruct (cm !! strip_formatting identifier) as [v|] eqn:E3;
    [right; destruct (N _ _ E3) as (_ & ? & ?); simpl; eauto | left; reflexivity].
Qed.

(** ** The people index *)

Lemma record_of_slug md : slug (PeopleFacts.record_of md) = Str.lower (pf_stem md).
Proof.
  unfold PeopleFacts.record_of, parse_people_file.
  destruct (pf_text md) as [text|]; [|reflexivity].
  destruct (PeopleFacts.parse_last_updated_date_total text) as [v ->]. reflexivity.
Qed.

Lemma index_eq (a b : people_index) :
  existing_slugs a = existing_slugs b -> existing_names a = existing_names b ->
  existing_emails a = existing_emails b -> existing_phones a = existing_phones b ->
  a = b.
Proof. destruct a, b. simpl. intros -> -> -> ->. reflexivity. Qed.

(** X5: the index does not depend on the order in which the directory
    yields its files, and it is built without raising, whatever the
    files hold. *)
Theorem people_index_any_order files files' :
  Permutation files files' ->
  exists ix,
    load_people_index (Some files) = Ok ix
    /\ load_people_index (Some files') = Ok ix.
Proof.
  intros P. exists (index_of (Some files)).
  split; [apply load_people_index_ok|]. rewrite load_people_index_ok. f_equal.
  unfold index_of.
  destruct (PeopleFacts.foldl_add_record (PeopleFacts.record_of <$> files) empty_index)
    as (S1 & N1 & E1 & P1).
  destruct (PeopleFacts.foldl_add_record (PeopleFacts.record_of <$> files') empty_index)
    as (S2 & N2 & E2 & P2).
  assert (forall r, r ∈ PeopleFacts.record_of <$> files'
                    <-> r ∈ PeopleFacts.record_of <$> files) as M
    by (intros r; rewrite P; reflexivity).
  apply index_eq; apply set_eq; intros x;
    [rewrite S1, S2 | rewrite N1, N2 | rewrite E1, E2 | rewrite P1, P2];
    setoid_rewrite M; reflexivity.
Qed.

Definition bob_file : people_file := PeopleFile "Bob-Roe" None.

Lemma people_index_any_order_witness :
  exists ix,
    load_people_index (Some [Claims.jane_file; bob_file]) = Ok ix
    /\ load_people_index (Some [bob_file; Claims.jane_file]) = Ok ix.
Proof.
  apply (people_index_any_order [Claims.jane_file; bob_file]
           [bob_file; Claims.jane_file]).
  apply perm_swap.
Defined.

(** X6: the slugs of the index are exactly the file stems in lower
    case, one for every file, readable or not. *)
Theorem index_slugs_are_file_stems files ix s :
  load_people_index (Some files) = Ok ix ->
  s ∈ existing_slugs ix <-> exists md, md ∈ files /\ s = Str.lower (pf_stem md).
Proof.
  rewrite load_people_index_ok. intros [= <-]. unfold index_of.
  destruct (PeopleFacts.foldl_add_record (PeopleFacts.record_of <$> files) empty_index)
    as (S1 & _). rewrite S1. simpl. split.
  - intros [[]%not_elem_of_empty|(r & (md & -> & Hmd)%list_elem_of_fmap & ->)].
    exists md. rewrite record_of_slug. auto.
  - intros (md & Hmd & ->). right. exists (PeopleFacts.record_of md).
    split; [apply list_elem_of_fmap; eauto | symmetry; apply record_of_slug].
Qed.

Lemma index_slugs_are_file_stems_witness :
  "bob-roe" ∈ existing_slugs (index_of (Some [Claims.jane_file; bob_file]))
  <-> exists md, md ∈ [Claims.jane_file; bob_file] /\ "bob-roe" = Str.lower (pf_stem md).
Proof.
  apply (index_slugs_are_file_stems [Claims.jane_file; bob_file]).
  apply load_people_index_ok.
Defined.

(** [c in s] for a single character. *)
Lemma contains_char c s :
  Str.contains (String c "") s = Str.truthy (Str.filter (fun d => Char.eqb c d) s).
Proof.
  induction s as [|b s IH]; [reflexivity|].
  change (Str.contains (String c "") (String b s))
    with (Char.eqb c b && true || Str.contains (String c "") s).
  rewrite andb_true_r, IH. simpl. destruct (Char.eqb c b); reflexivity.
Qed.

Lemma lower_char_at c : Char.eqb "@" (Char.lower c) = Char.eqb "@" c.
Proof. CharFacts.by_cases c. Qed.

Lemma filter_at_lower s :
  Str.filter (fun d => Char.eqb "@" d) (Str.lower s)
  = Str.filter (fun d => Char.eqb "@" d) s.
Proof.
  unfold Str.lower. induction s as [|c s IH]; [reflexivity|].
  cbn [Str.map Str.filter]. rewrite lower_char_at, IH.
  destruct (Char.eqb "@" c) eqn:E; [|reflexivity].
  apply CharFacts.eqb_eq in E as <-. reflexivity.
Qed.

Lemma space_not_at c : Char.is_space c = true -> Char.eqb "@" c = false.
Proof. CharFacts.by_cases c. Qed.

(** Stripping and lowering keep an [@]. *)
Lemma contains_at_lower_strip s :
  Str.contains "@" (Str.lower (Str.strip s)) = Str.contains "@" s.
Proof.
  rewrite !contains_char, filter_at_lower, filter_strip by apply space_not_at.
  reflexivity.
Qed.

Lemma contains_at_normalize_email s :
  Str.contains "@" (normalize_email s) = Str.contains "@" s.
Proof.
  unfold normalize_email. destruct s as [|c s]; [reflexivity|].
  cbn [Str.truthy negb]. apply contains_at_lower_strip.
Qed.

Lemma lit_at_lang w : ReFacts.in_lang (Re.Lit "@") w -> w = "@".
Proof.
  simpl. intros (w1 & w2 & -> & (c & -> & E) & ->).
  apply CharFacts.eqb_eq in E as ->. reflexivity.
Qed.

Lemma contains_app_at a b : Str.contains "@" (a +:+ "@" +:+ b) = true.
Proof.
  induction a as [|c a IH].
  - rewrite app_nil_l. reflexivity.
  - rewrite app_cons.
    change (Str.contains "@" (String c (a +:+ "@" +:+ b)))
      with (Str.startswith "@" (String c (a +:+ "@" +:+ b))
            || Str.contains "@" (a +:+ "@" +:+ b)).
    rewrite IH. apply orb_true_r.
Qed.

Lemma email_pattern_lang w :
  ReFacts.in_lang email_pattern w -> Str.contains "@" w = true.
Proof.
  unfold email_pattern. cbn [ReFacts.in_lang].
  intros (w1 & w2 & -> & _ & (w3 & w4 & -> & L & _)).
  apply lit_at_lang in L as ->. apply contains_app_at.
Qed.

Lemma extract_emails_addresses text e :
  e ∈ extract_emails text -> Str.contains "@" e = true /\ normalize_email e = e.
Proof.
  unfold extract_emails. destruct (negb _); [set_solver|].
  rewrite elem_of_list_to_set, list_elem_of_fmap. intros (w & -> & Hw).
  split; [|apply normalize_email_fixed].
  rewrite contains_at_normalize_email. apply email_pattern_lang.
  apply (ReFacts.findall_sound _ text), list_elem_of_In, Hw.
Qed.

(** X7: every email of the index has an [@] and is in normal form:
    lower case, no blanks around it. *)
Theorem index_emails_are_normalized people_dir ix e :
  load_people_index people_dir = Ok ix ->
  e ∈ existing_emails ix ->
  Str.contains "@" e = true /\ normalize_email e = e.
Proof.
  rewrite load_people_index_ok. intros [= <-].
  destruct people_dir as [files|]; simpl; [|set_solver].
  destruct (PeopleFacts.foldl_add_record (PeopleFacts.record_of <$> files) empty_index)
    as (_ & _ & E1 & _).
  rewrite E1. intros [[]%not_elem_of_empty|(r & (md & -> & _)%list_elem_of_fmap & He)].
  revert He. unfold PeopleFacts.record_of, parse_people_file.
  destruct (pf_text md) as [text|]; [|simpl; set_solver].
  destruct (PeopleFacts.parse_last_updated_date_total text) as [v ->]. simpl.
  apply extract_emails_addresses.
Qed.

Definition ann_file : people_file :=
  PeopleFile "ann-lee"
    (Some ("# Ann Lee" +:+ nl +:+ "Mail: Ann.Lee@Example.COM, or call." +:+ nl)).

Lemma index_emails_are_normalized_witness :
  "ann.lee@example.com" ∈ existing_emails (index_of (Some [ann_file]))
  /\ Str.contains "@" "ann.lee@example.com" = true
  /\ normalize_email "ann.lee@example.com" = "ann.lee@example.com".
Proof.
  assert ("ann.lee@example.com" ∈ existing_emails (index_of (Some [ann_file]))) as M
    by Claims.by_compute.
  split; [exact M|].
  apply (index_emails_are_normalized (Some [ann_file]) _ _
           (load_people_index_ok _) M).
Defined.

(** ** Dates *)

(** A date of the calendar with a time of day. *)
Definition valid_datetime (d : datetime) : Prop :=
  1 <= year d <= 9999 /\ 1 <= month d <= 12
  /\ 1 <= day d <= days_in_month (year d) (month d)
  /\ hour d <= 23 /\ minute d <= 59 /\ second d <= 59.

Lemma make_datetime_valid y m d H M S dt :
  make_datetime y m d H M S = Ok dt -> valid_datetime dt.
Proof.
  unfold make_datetime. destruct (_ && _) eqn:E; [|discriminate].
  intros [= <-]. repeat apply andb_prop in E as [E ?].
  repeat match goal with H : (_ <=? _) = true |- _ => apply Nat.leb_le in H end.
  unfold valid_datetime. cbn [year month day hour minute second].
  repeat split; assumption.
Qed.

Lemma strptime_valid data fmt dt :
  Strptime.strptime data fmt = Ok dt -> valid_datetime dt.
Proof.
  unfold Strptime.strptime. destruct (Strptime.pattern _ _); [|discriminate].
  destruct (Re.match_ _ _); [|discriminate]. destruct (Str.truthy _); [discriminate|].
  apply make_datetime_valid.
Qed.

Lemma try_return_valid (m : result datetime) k dt :
  (forall d, m = Ok d -> valid_datetime d) ->
  (k = Ok (Some dt) -> valid_datetime dt) ->
  try_return m k = Ok (Some dt) -> valid_datetime dt.
Proof. destruct m; simpl; intros H1 H2; [intros [= <-]|]; auto. Qed.

(** X8: a date that [parse_dt_maybe] returns is a date of the calendar:
    the month and the day exist in that year, leap years counted, and the
    time is a time of day. *)
Theorem parsed_dates_are_valid s dt :
  parse_dt_maybe s = Ok (Some dt) -> valid_datetime dt.
Proof.
  unfold parse_dt_maybe. destruct (negb _); [discriminate|].
  repeat (apply try_return_valid; [intros ?; apply strptime_valid|]).
  discriminate.
Qed.

Lemma parsed_dates_are_valid_witness :
  parse_dt_maybe "2024-02-29 23:59" = Ok (Some (Datetime 2024 2 29 23 59 0))
  /\ valid_datetime (Datetime 2024 2 29 23 59 0)
  /\ parse_dt_maybe "2025-02-29 23:59" = Ok None.
Proof.
  assert (parse_dt_maybe "2024-02-29 23:59" = Ok (Some (Datetime 2024 2 29 23 59 0)))
    as E by (vm_compute; reflexivity).
  split; [exact E|]. split; [exact (parsed_dates_are_valid _ _ E)|].
  vm_compute. reflexivity.
Defined.

(** X9: blanks around a timestamp make no difference to
    [parse_dt_maybe], and a string of blanks only is no date. *)
Theorem parse_dt_maybe_ignores_blanks s :
  parse_dt_maybe (Str.strip s) = parse_dt_maybe s
  /\ (Str.strip s = "" -> parse_dt_maybe s = Ok None).
Proof.
  assert (Str.strip s = "" -> parse_dt_maybe s = Ok None) as B.
  { intros E. unfold parse_dt_maybe. destruct (negb _); [reflexivity|].
    rewrite E. vm_compute. reflexivity. }
  split; [|exact B].
  destruct (Str.strip s) as [|c r] eqn:E.
  - rewrite (B eq_refl). reflexivity.
  - unfold parse_dt_maybe. cbn [Str.truthy negb]. rewrite <- E, strip_fixed.
    destruct s as [|b s]; [discriminate E|]. reflexivity.
Qed.

(** ** Sorting *)

(** The dates equal to [k]. *)
Definition eq_key (k d : datetime) : bool := dt_leb d k && dt_leb k d.

(** The contacts that sort under the key [k]. *)
Definition has_key (k : datetime) (c : contact) : bool :=
  match sort_key c with
  | Ok d => eq_key k d
  | Raise _ => false
  end.

Lemma insert_desc_filter k x l :
  List.filter (fun p => eq_key k (fst p)) (insert_desc x l)
  = List.filter (fun p => eq_key k (fst p)) (x :: l).
Proof.
  induction l as [|y l IH]; [reflexivity|].
  cbn [insert_desc]. destruct (dt_ltb (fst x) (fst y)) eqn:E; [|reflexivity].
  cbn [List.filter] in *. rewrite IH.
  destruct (eq_key k (fst y)) eqn:Ky; [|reflexivity].
  destruct (eq_key k (fst x)) eqn:Kx; [|reflexivity].
  exfalso. unfold eq_key in *.
  apply andb_prop in Ky as [Y1 Y2]. apply andb_prop in Kx as [X1 X2].
  pose proof (DateFacts.dt_leb_trans _ _ _ Y1 X2) as T.
  unfold dt_leb in T. rewrite E in T. discriminate.
Qed.

Lemma sort_desc_filter k l :
  List.filter (fun p => eq_key k (fst p)) (sort_desc l)
  = List.filter (fun p => eq_key k (fst p)) l.
Proof.
  induction l as [|x l IH]; [reflexivity|].
  cbn [sort_desc foldr]. fold (sort_desc l).
  rewrite insert_desc_filter. cbn [List.filter]. rewrite IH. reflexivity.
Qed.

Lemma filter_snd_decorated k (L : list (datetime * contact)) :
  Forall (fun p => fst p = SortFacts.key (snd p)) L ->
  List.filter (has_key k) (snd <$> L)
  = snd <$> List.filter (fun p => eq_key k (fst p)) L.
Proof.
  induction 1 as [|p L Hp _ IH]; [reflexivity|].
  cbn [fmap list_fmap List.filter]. fold (@fmap list _ _ _ (@snd datetime contact)).
  unfold has_key at 1. rewrite SortFacts.sort_key_ok, <- Hp.
  destruct (eq_key k (fst p)); cbn [fmap list_fmap]; rewrite <- IH; reflexivity.
Qed.

(** X10: the sort of the candidates always returns, loses and adds
    nothing, and is stable: the contacts with the same date keep the
    order they had in the export. *)
Theorem sort_is_stable l :
  exists l',
    sort_by_key_reverse l = Ok l'
    /\ Permutation l' l
    /\ forall k, List.filter (has_key k) l' = List.filter (has_key k) l.
Proof.
  exists (SortFacts.sorted l).
  split; [apply SortFacts.sort_by_key_reverse_ok|].
  split; [apply SortFacts.sorted_perm|].
  intros k. unfold SortFacts.sorted.
  assert (forall L, Forall (fun p => fst p = SortFacts.key (snd p)) (SortFacts.decorate <$> L))
    as D by (intros L; apply Forall_fmap, Forall_forall; reflexivity).
  rewrite filter_snd_decorated
    by (rewrite SortFacts.sort_desc_perm; apply D).
  rewrite sort_desc_filter, <- filter_snd_decorated by apply D.
  rewrite <- list_fmap_compose.
  change (snd ∘ SortFacts.decorate) with (@id contact). rewrite list_fmap_id.
  reflexivity.
Qed.

(** ** The candidates *)

Ltac split_ifs :=
  repeat match goal with
         | |- context [if ?b then _ else _] => destruct b eqn:?
         end.

Ltac split_ands :=
  repeat match goal with
         | H : _ && _ = true |- _ => apply andb_prop in H as [? ?]
         end.

Section Candidates.
Variables (ix : people_index) (cm : gmap string string).

(** Where a named candidate comes from. *)
Lemma run_named l : forall st x,
  x ∈ named_candidates (run ix cm st l) ->
  x ∈ named_candidates st
  \/ exists c, c ∈ l
       /\ (verdict_of ix cm c = Named x
           \/ exists num y r,
                verdict_of ix cm c = Phone num y r
                /\ Str.truthy r = true /\ x = set_resolved_name r y).
Proof.
  induction l as [|c l IH]; intros st x; [auto|].
  rewrite run_cons. intros H. apply IH in H as [H|(d & Hd & H)].
  - destruct (verdict_of ix cm c) as [|y|num y r] eqn:V; simpl in H; [auto| |].
    + apply elem_of_app in H as [H| ->%list_elem_of_singleton]; [auto|].
      right. exists c. split; [left|]; auto.
    + destruct (_ && _); [|auto]. destruct (Str.truthy r) eqn:T; simpl in H; [|auto].
      apply elem_of_app in H as [H| ->%list_elem_of_singleton]; [auto|].
      right. exists c. split; [left|right]; eauto 6.
  - right. exists d. split; [right|]; assumption.
Qed.

(** Where an unknown-number candidate comes from. *)
Lemma run_unknown l : forall st x,
  x ∈ unknown_number_candidates (run ix cm st l) ->
  x ∈ unknown_number_candidates st
  \/ (x ∈ l /\ exists num,
        verdict_of ix cm x = Phone num x "" /\ Str.truthy num = true).
Proof.
  induction l as [|c l IH]; intros st x; [auto|].
  rewrite run_cons. intros H. apply IH in H as [H|(Hd & H)].
  - destruct (verdict_of ix cm c) as [|y|num y r] eqn:V; simpl in H; [auto|auto|].
    destruct (Str.truthy num) eqn:T; simpl in H; [|auto].
    destruct (negb _); simpl in H; [|auto].
    destruct r as [|a r]; simpl in H; [|auto].
    apply elem_of_app in H as [H| ->%list_elem_of_singleton]; [auto|].
    destruct (verdict_phone_unresolved ix cm _ _ _ V) as [-> ->].
    right. split; [left|]. eauto.
  - right. split; [right|]; assumption.
Qed.

Lemma apply_verdict_length st v :
  length (named_candidates (apply_verdict st v))
  + length (unknown_number_candidates (apply_verdict st v))
  <= S (length (named_candidates st) + length (unknown_number_candidates st)).
Proof.
  destruct v as [|y|num y r]; simpl; rewrite ?List.length_app; simpl; [lia|lia|].
  destruct (_ && _); [|lia]. destruct (Str.truthy r); simpl;
    rewrite ?List.length_app; simpl; lia.
Qed.

Lemma run_length l : forall st,
  length (named_candidates (run ix cm st l))
  + length (unknown_number_candidates (run ix cm st l))
  <= length l + (length (named_candidates st) + length (unknown_number_candidates st)).
Proof.
  induction l as [|c l IH]; intros st; [simpl; lia|].
  rewrite run_cons. specialize (IH (apply_verdict st (verdict_of ix cm c))).
  pose proof (apply_verdict_length st (verdict_of ix cm c)). simpl. lia.
Qed.

(** The last component of the phone verdict is the result of the
    look-up. *)
Lemma verdict_phone_lookup c num x r :
  verdict_of ix cm c = Phone num x r ->
  r = resolve_phone_to_name (Str.strip (Str.or_empty (c_identifier c))) cm.
Proof.
  unfold verdict_of.
  destruct (is_phone_number _ || _);
    [destruct (Str.truthy (resolve_phone_to_name _ _))|];
    split_ifs; try discriminate; intros [= _ _ <-]; reflexivity.
Qed.

(** The condition at the head of a chain of tests. *)
Ltac head_if H :=
  match goal with
  | |- (if ?b then _ else _) = _ -> _ => destruct b eqn:H
  end.

(** What an unknown-number candidate went through. *)
Lemma verdict_unknown_facts c num x :
  verdict_of ix cm c = Phone num x "" ->
  let name := Str.strip (Str.or_empty (c_name c)) in
  let identifier := Str.strip (Str.or_empty (c_identifier c)) in
  resolve_phone_to_name identifier cm = ""
  /\ (Str.startswith "+" identifier = true \/ is_phone_number name = true)
  /\ (Str.startswith "+" identifier = true ->
      Str.truthy (normalize_phone identifier) = true ->
      normalize_phone identifier ∉ existing_phones ix)
  /\ (Str.startswith "+" identifier = false ->
      Str.startswith "+" name = true ->
      Str.truthy (normalize_phone name) = true ->
      normalize_phone name ∉ existing_phones ix).
Proof.
  intros V name identifier.
  pose proof (verdict_phone_lookup _ _ _ _ V) as R. symmetry in R. fold identifier in R.
  split; [exact R|]. revert V. unfold verdict_of. fold name identifier.
  rewrite R. cbn [Str.truthy].
  assert ((if is_phone_number name || negb (Str.truthy name)
           then (name, c) else (name, c)) = (name, c)) as ->
    by (destruct (_ || _); reflexivity).
  head_if H1; [discriminate|]. head_if H2; [discriminate|].
  head_if H3; [discriminate|]. head_if PH; [discriminate|].
  head_if H5; [discriminate|]. head_if H6; [discriminate|].
  head_if H7; [discriminate|]. head_if H8; [discriminate|].
  head_if B; [|discriminate]. intros _.
  split; [apply orb_prop; exact B|]. split.
  - intros P N Hin. rewrite P, N in PH. cbn [andb] in PH.
    apply bool_decide_eq_false in PH. contradiction.
  - intros P Q N Hin. rewrite P, Q, N in PH. cbn [andb] in PH.
    apply bool_decide_eq_false in PH. contradiction.
Qed.

(** A value that the report prints as it is: present and not empty. *)
Definition shown (o : option string) : Prop := exists s, o = Some s /\ s <> "".

Lemma py_or_shown_l a b : shown a -> shown (py_or a b).
Proof.
  intros (s & -> & N). simpl. destruct s; [congruence|]. exists (String a s). auto.
Qed.

Lemma py_or_shown_r a b : shown b -> shown (py_or a b).
Proof.
  intros H. destruct a as [[|c s]|]; simpl; [assumption| |assumption].
  exists (String c s). split; [reflexivity | discriminate].
Qed.

Lemma stripped_shown o : Str.truthy (Str.strip (Str.or_empty o)) = true -> shown o.
Proof.
  destruct o as [[|c s]|]; simpl; try discriminate.
  intros _. exists (String c s). split; [reflexivity | discriminate].
Qed.

Lemma contains_at_truthy s : Str.contains "@" s = true -> Str.truthy s = true.
Proof. destruct s; [discriminate | reflexivity]. Qed.

Lemma startswith_plus_truthy s : Str.startswith "+" s = true -> Str.truthy s = true.
Proof. destruct s; [discriminate | reflexivity]. Qed.

Lemma phone_number_truthy s : is_phone_number s = true -> Str.truthy s = true.
Proof. destruct s; [discriminate | reflexivity]. Qed.

(** The name that heads the entry of a named candidate. *)
Definition display_name (c : contact) : option string :=
  py_or (c_resolved_name c) (py_or (c_name c) (c_identifier c)).

Lemma verdict_named_display c x :
  verdict_of ix cm c = Named x -> shown (display_name x).
Proof.
  unfold verdict_of.
  set (name := Str.strip (Str.or_empty (c_name c))).
  set (identifier := Str.strip (Str.or_empty (c_identifier c))).
  assert (forall n, Str.truthy n = true -> shown (display_name (set_resolved_name n c)))
    as R.
  { intros n T. apply py_or_shown_l. exists n. split; [reflexivity|].
    apply truthy_true. exact T. }
  assert (Str.truthy name = true -> shown (display_name c)) as N
    by (intros T; apply py_or_shown_r, py_or_shown_l, stripped_shown, T).
  assert (Str.contains "@" identifier = true -> shown (display_name c)) as I
    by (intros T; apply py_or_shown_r, py_or_shown_r, stripped_shown,
          contains_at_truthy, T).
  destruct (is_phone_number name || negb (Str.truthy name));
    [destruct (Str.truthy (resolve_phone_to_name identifier cm)) eqn:T|];
    (head_if H1; [discriminate|]); (head_if H2; [discriminate|]);
    (head_if H3; [discriminate|]); (head_if H4; [discriminate|]);
    (head_if H5; [discriminate|]); (head_if H6; [discriminate|]);
    (head_if N1; [intros [= <-]; split_ands; auto|]);
    (head_if N2; [intros [= <-]; split_ands; auto|]);
    (head_if B; discriminate).
Qed.

(** A real name that the people files know makes the loop pass the
    contact over. *)
Lemma known_name_skipped c :
  let name := Str.strip (Str.or_empty (c_name c)) in
  Str.truthy name = true -> is_phone_number name = false ->
  Str.contains "@" name = false -> name_in_people ix name = true ->
  skipped ix cm c = true.
Proof.
  intros name T P A N. unfold skipped, verdict_of. fold name.
  rewrite T, P. cbn [orb negb]. rewrite A, N, T, P. cbn [orb negb andb].
  destruct (bool_decide _); [reflexivity|].
  destruct (is_likely_system_imessage_contact c); [reflexivity|].
  destruct (_ && _); [reflexivity|]. destruct (_ && _); reflexivity.
Qed.

(** An identifier that is an address of the people files makes the loop
    pass the contact over. *)
Lemma known_email_skipped c :
  let identifier := Str.strip (Str.or_empty (c_identifier c)) in
  Str.contains "@" identifier = true ->
  normalize_email identifier ∈ existing_emails ix ->
  skipped ix cm c = true.
Proof.
  intros identifier A Hin. unfold skipped, verdict_of. fold identifier.
  rewrite A, (bool_decide_eq_true_2 _ Hin).
  assert (Str.truthy (normalize_email identifier) = true) as ->
    by (apply contains_at_truthy; rewrite contains_at_normalize_email; exact A).
  cbn [andb].
  destruct (is_phone_number _ || _);
    [destruct (Str.truthy (resolve_phone_to_name _ _))|];
    (destruct (bool_decide _); [reflexivity|]);
    (destruct (is_likely_system_imessage_contact _); reflexivity).
Qed.

End Candidates.

(** X11: the function never raises; the two lists together are no
    longer than the input, and each candidate is a contact of the input,
    as it is or with a resolved name written to it. *)
Theorem candidates_come_from_the_input contacts people_dir all_dbs now :
  exists rep,
    generate_new_people_candidates_report contacts people_dir all_dbs now = Ok rep
    /\ length (r_named rep) + length (r_unknown rep) <= length contacts
    /\ forall x, x ∈ r_named rep \/ x ∈ r_unknown rep ->
         exists c, c ∈ contacts /\ (x = c \/ exists r, x = set_resolved_name r c).
Proof.
  eexists. split; [apply generate_ok|]. cbn [r_named r_unknown].
  set (ix := index_of people_dir). set (cm := load_contacts_map all_dbs).
  split.
  - rewrite !(Permutation_length (SortFacts.sorted_perm _)).
    pose proof (run_length ix cm contacts (LoopState [] [] ∅)) as L.
    simpl in L. unfold classify_contacts. fold (run ix cm (LoopState [] [] ∅) contacts).
    lia.
  - intros x. rewrite !SortFacts.elem_of_sorted. intros [H|H].
    + apply (run_named ix cm contacts (LoopState [] [] ∅)) in H
        as [[]%elem_of_nil|(c & Hc & H)].
      exists c. split; [exact Hc|].
      pose proof (verdict_shape ix cm c) as S.
      destruct H as [V|(num & y & r & V & _ & ->)]; rewrite V in S.
      * exact S.
      * right. exists r. destruct S as [->|[r' ->]]; reflexivity.
    + apply (run_unknown ix cm contacts (LoopState [] [] ∅)) in H
        as [[]%elem_of_nil|(Hx & _)].
      exists x. auto.
Qed.

(** X12: an unknown-number candidate is a contact of the input, as it
    is, that the directory does not resolve; it has an identifier that
    starts with [+] or a name shaped like a phone number, and the number
    it is filed under is not empty and not a phone of the people
    files. *)
Theorem unknown_candidates_are_unresolved contacts people_dir all_dbs now rep x :
  generate_new_people_candidates_report contacts people_dir all_dbs now = Ok rep ->
  x ∈ r_unknown rep ->
  x ∈ contacts
  /\ resolve_phone_to_name (Str.strip (Str.or_empty (c_identifier x)))
       (load_contacts_map all_dbs) = ""
  /\ (Str.startswith "+" (Str.strip (Str.or_empty (c_identifier x))) = true
      \/ is_phone_number (Str.strip (Str.or_empty (c_name x))) = true)
  /\ dedup_key x <> ""
  /\ forall ix, load_people_index people_dir = Ok ix ->
       dedup_key x ∉ existing_phones ix.
Proof.
  rewrite generate_ok. intros [= <-]. cbn [r_unknown].
  rewrite SortFacts.elem_of_sorted.
  set (ix := index_of people_dir). set (cm := load_contacts_map all_dbs).
  intros H. apply (run_unknown ix cm contacts (LoopState [] [] ∅)) in H
    as [[]%elem_of_nil|(Hx & num & V & T)].
  destruct (verdict_phone_unresolved ix cm _ _ _ V) as [_ ->].
  destruct (verdict_unknown_facts ix cm _ _ _ V) as (R & B & P1 & P2).
  split; [exact Hx|]. split; [exact R|]. split; [exact B|].
  split; [apply truthy_true; exact T|].
  intros ix'. rewrite load_people_index_ok. intros [= <-]. fold ix.
  revert T. unfold dedup_key.
  destruct (Str.startswith "+" (Str.strip (Str.or_empty (c_identifier x)))) eqn:P;
    [intros T; apply P1; auto|].
  destruct (Str.startswith "+" (Str.strip (Str.or_empty (c_name x)))) eqn:Q;
    [intros T; apply P2; auto|].
  intros _ Hin. apply index_phones in Hin as (ds & E & _).
  rewrite NormFacts.normalize_phone_eq, strip_fixed, Q in E. cbv zeta in E.
  pose proof (filter_all Char.is_decimal (Str.strip (Str.or_empty (c_name x)))) as D.
  destruct (Str.filter Char.is_decimal _) as [|d ds']; [discriminate E|].
  cbn [Str.truthy] in E. rewrite app_nil_l in E. injection E as -> _.
  discriminate D.
Qed.

Lemma unknown_candidates_are_unresolved_witness :
  exists rep,
    generate_new_people_candidates_report
      [Claims.plain "" "+19998887777" "2025-01-05"] (Some [Claims.jane_file])
      Claims.jane_book Claims.at_9 = Ok rep
    /\ r_unknown rep = [Claims.plain "" "+19998887777" "2025-01-05"]
    /\ dedup_key (Claims.plain "" "+19998887777" "2025-01-05") <> "".
Proof.
  eexists. split; [apply generate_ok|].
  assert (SortFacts.sorted
            (unknown_number_candidates
               (classify_contacts (index_of (Some [Claims.jane_file]))
                  (load_contacts_map Claims.jane_book)
                  [Claims.plain "" "+19998887777" "2025-01-05"]))
          = [Claims.plain "" "+19998887777" "2025-01-05"]) as U
    by (vm_compute; reflexivity).
  split; [exact U|].
  refine (proj1 (proj2 (proj2 (proj2
    (unknown_candidates_are_unresolved
       [Claims.plain "" "+19998887777" "2025-01-05"] (Some [Claims.jane_file])
       Claims.jane_book Claims.at_9 _ _ (generate_ok _ _ _ _) _))))).
  cbn [r_unknown]. rewrite U. apply list_elem_of_singleton. reflexivity.
Defined.

(** X13: every entry of the report has a heading: for a named candidate
    the resolved name, else the name, else the identifier, and for an
    unknown-number candidate the identifier, else the name, is present
    and not empty. *)
Theorem candidates_have_a_heading contacts people_dir all_dbs now rep x :
  generate_new_people_candidates_report contacts people_dir all_dbs now = Ok rep ->
  (x ∈ r_named rep ->
     exists s, py_or (c_resolved_name x) (py_or (c_name x) (c_identifier x)) = Some s
               /\ s <> "")
  /\ (x ∈ r_unknown rep ->
        exists s, py_or (c_identifier x) (c_name x) = Some s /\ s <> "").
Proof.
  rewrite generate_ok. intros [= <-]. cbn [r_named r_unknown].
  rewrite !SortFacts.elem_of_sorted.
  set (ix := index_of people_dir). set (cm := load_contacts_map all_dbs).
  split; intros H.
  - apply (run_named ix cm contacts (LoopState [] [] ∅)) in H
      as [[]%elem_of_nil|(c & _ & [V|(num & y & r & _ & T & ->)])].
    + apply (verdict_named_display ix cm c x V).
    + exists r. split; [|apply truthy_true; exact T].
      simpl. destruct r; [discriminate T | reflexivity].
  - apply (run_unknown ix cm contacts (LoopState [] [] ∅)) in H
      as [[]%elem_of_nil|(_ & num & V & _)].
    destruct (verdict_unknown_facts ix cm _ _ _ V) as (_ & [B|B] & _).
    + apply py_or_shown_l, stripped_shown, startswith_plus_truthy, B.
    + apply py_or_shown_r, stripped_shown, phone_number_truthy, B.
Qed.

Lemma candidates_have_a_heading_witness :
  exists s,
    py_or (c_resolved_name (Claims.plain "" "zed@x.org" "2025-01-03"))
      (py_or (c_name (Claims.plain "" "zed@x.org" "2025-01-03"))
         (c_identifier (Claims.plain "" "zed@x.org" "2025-01-03"))) = Some s
    /\ s <> "".
Proof.
  refine (proj1 (candidates_have_a_heading
                   [Claims.plain "" "zed@x.org" "2025-01-03"] None [] Claims.at_9 _
                   (Claims.plain "" "zed@x.org" "2025-01-03")
                   (generate_ok _ _ _ _)) _).
  cbn [r_named].
  assert (SortFacts.sorted
            (named_candidates
               (classify_contacts (index_of None) (load_contacts_map [])
                  [Claims.plain "" "zed@x.org" "2025-01-03"]))
          = [Claims.plain "" "zed@x.org" "2025-01-03"]) as ->
    by (vm_compute; reflexivity).
  apply list_elem_of_singleton. reflexivity.
Defined.

(** The words of a name, and the slug of the first and the last. *)
Definition words (name : string) : list string :=
  List.filter Str.truthy (Re.split (Re.Plus Char.is_space) name).

Definition first_last (name : string) : string :=
  slugify (default "" (head (words name)) +:+ " " +:+ default "" (last (words name))).

(** X14: a contact with a real name (not empty, not shaped like a phone
    number, without [@]) is in neither list when the slug of the name, or
    for a name of two or more words the slug of its first and last word,
    is a slug or a slugified name of the people files. *)
Theorem known_name_never_candidate contacts people_dir all_dbs now ix x :
  let name := Str.strip (Str.or_empty (c_name x)) in
  load_people_index people_dir = Ok ix ->
  name <> "" -> is_phone_number name = false -> Str.contains "@" name = false ->
  slugify name ∈ existing_slugs ix ∪ existing_names ix
  \/ (2 <= length (words name)
      /\ first_last name ∈ existing_slugs ix ∪ existing_names ix) ->
  exists rep,
    generate_new_people_candidates_report contacts people_dir all_dbs now = Ok rep
    /\ (x ∉ r_named rep) /\ (x ∉ r_unknown rep).
Proof.
  intros name. rewrite load_people_index_ok. intros [= <-] T P A K.
  apply skipped_absent, known_name_skipped; fold name;
    [apply truthy_true; exact T | exact P | exact A |].
  unfold name_in_people. fold (words name). fold (first_last name).
  destruct K as [K|[L K]]; apply elem_of_union in K.
  - replace (bool_decide _ || bool_decide _) with true; [reflexivity|].
    symmetry. apply orb_true_iff.
    destruct K as [K|K]; [left|right]; apply bool_decide_eq_true_2, K.
  - destruct (bool_decide _ || bool_decide _); [reflexivity|].
    apply Nat.leb_le in L. rewrite L. apply orb_true_iff.
    destruct K as [K|K]; [left|right]; apply bool_decide_eq_true_2, K.
Qed.

Lemma known_name_never_candidate_witness :
  exists rep,
    generate_new_people_candidates_report
      [Claims.plain "Jane Q. Doe" "+15550003333" "2025-01-02"]
      (Some [Claims.jane_file]) [] Claims.at_9 = Ok rep
    /\ (Claims.plain "Jane Q. Doe" "+15550003333" "2025-01-02" ∉ r_named rep)
    /\ (Claims.plain "Jane Q. Doe" "+15550003333" "2025-01-02" ∉ r_unknown rep).
Proof.
  apply (known_name_never_candidate
           [Claims.plain "Jane Q. Doe" "+15550003333" "2025-01-02"]
           (Some [Claims.jane_file]) [] Claims.at_9
           (index_of (Some [Claims.jane_file]))
           (Claims.plain "Jane Q. Doe" "+15550003333" "2025-01-02")).
  - apply load_people_index_ok.
  - discriminate.
  - reflexivity.
  - reflexivity.
  - right. split; [vm_compute; lia | Claims.by_compute].
Defined.

(** X15: a contact whose identifier has an [@] and, normalised, is an
    email of the people files is in neither list, whatever its name. *)
Theorem known_email_never_candidate contacts people_dir all_dbs now ix x :
  load_people_index people_dir = Ok ix ->
  Str.contains "@" (Str.strip (Str.or_empty (c_identifier x))) = true ->
  normalize_email (Str.strip (Str.or_empty (c_identifier x))) ∈ existing_emails ix ->
  exists rep,
    generate_new_people_candidates_report contacts people_dir all_dbs now = Ok rep
    /\ (x ∉ r_named rep) /\ (x ∉ r_unknown rep).
Proof.
  rewrite load_people_index_ok. intros [= <-] A Hin.
  apply skipped_absent, known_email_skipped; assumption.
Qed.

Lemma known_email_never_candidate_witness :
  exists rep,
    generate_new_people_candidates_report
      [Claims.plain "A. Lee" " Ann.Lee@example.com " "2025-01-02"]
      (Some [ann_file]) [] Claims.at_9 = Ok rep
    /\ (Claims.plain "A. Lee" " Ann.Lee@example.com " "2025-01-02" ∉ r_named rep)
    /\ (Claims.plain "A. Lee" " Ann.Lee@example.com " "2025-01-02" ∉ r_unknown rep).
Proof.
  apply (known_email_never_candidate
           [Claims.plain "A. Lee" " Ann.Lee@example.com " "2025-01-02"]
           (Some [ann_file]) [] Claims.at_9 (index_of (Some [ann_file]))
           (Claims.plain "A. Lee" " Ann.Lee@example.com " "2025-01-02")).
  - apply load_people_index_ok.
  - reflexivity.
  - Claims.by_compute.
Defined.

(** ** Slugs *)

(** Replacing every run of a class by one character of the class. *)
Section Collapse.
Variables (p : ascii -> bool) (dash : ascii).
Hypothesis p_dash : p dash = true.

Definition head_in (s : string) : bool :=
  match s with String d _ => p d | EmptyString => false end.

(** The only characters of the class are single [dash]es. *)
Fixpoint collapsed (s : string) : bool :=
  match s with
  | EmptyString => true
  | String c s' =>
      (negb (p c) || (Char.eqb c dash && negb (head_in s'))) && collapsed s'
  end.

Lemma head_in_lstrip s : head_in (Str.lstrip_by p s) = false.
Proof.
  induction s as [|c s IH]; [reflexivity|]. simpl.
  destruct (p c) eqn:E; [exact IH | simpl; exact E].
Qed.

Lemma lstrip_by_no_head s : head_in s = false -> Str.lstrip_by p s = s.
Proof. destruct s as [|c s]; [reflexivity|]. simpl. intros ->. reflexivity. Qed.

Lemma sub_from_head fuel prev s :
  head_in s = false ->
  head_in (Re.sub_from (S fuel) (Re.Plus p) (String dash "") prev s) = false.
Proof.
  destruct s as [|c s]; [reflexivity|]. intros H. simpl in H.
  cbn [Re.sub_from]. pose proof (ReFacts.match_here_plus p prev c s) as M.
  destruct (Re.match_here (Re.Plus p) prev (String c s)) as [f|].
  - destruct M as [E _]. congruence.
  - simpl. exact H.
Qed.

Lemma sub_from_collapsed fuel : forall prev s,
  String.length s < fuel ->
  collapsed (Re.sub_from fuel (Re.Plus p) (String dash "") prev s) = true.
Proof.
  induction fuel as [|fuel IH]; intros prev s Hl; [lia|].
  destruct s as [|c s]; [reflexivity|].
  cbn [Re.sub_from]. pose proof (ReFacts.match_here_plus p prev c s) as M.
  destruct (Re.match_here (Re.Plus p) prev (String c s)) as [f|].
  - destruct M as [E R]. rewrite R.
    pose proof (length_lstrip_by p s) as Hs. simpl in Hl.
    replace (_ <? _) with true by (symmetry; apply Nat.ltb_lt; simpl; lia).
    rewrite app_cons, app_nil_l. cbn [collapsed].
    rewrite IH by lia. destruct fuel as [|fuel']; [lia|].
    rewrite sub_from_head by apply head_in_lstrip.
    rewrite p_dash. unfold Char.eqb. rewrite Ascii.eqb_refl. reflexivity.
  - cbn [collapsed]. rewrite M. simpl. apply IH. simpl in Hl. lia.
Qed.

Lemma collapsed_sub_from fuel : forall prev s,
  String.length s < fuel -> collapsed s = true ->
  Re.sub_from fuel (Re.Plus p) (String dash "") prev s = s.
Proof.
  induction fuel as [|fuel IH]; intros prev s Hl C; [lia|].
  destruct s as [|c s]; [reflexivity|].
  cbn [collapsed] in C. apply andb_true_iff in C as [C1 C2].
  cbn [Re.sub_from]. pose proof (ReFacts.match_here_plus p prev c s) as M.
  simpl in Hl.
  destruct (Re.match_here (Re.Plus p) prev (String c s)) as [f|].
  - destruct M as [E R]. rewrite E in C1. simpl in C1.
    apply andb_true_iff in C1 as [D H]. apply CharFacts.eqb_eq in D as ->.
    apply negb_true_iff in H. rewrite R, (lstrip_by_no_head _ H).
    replace (_ <? _) with true by (symmetry; apply Nat.ltb_lt; simpl; lia).
    rewrite app_cons, app_nil_l, IH by (assumption || lia). reflexivity.
  - rewrite IH by (assumption || lia). reflexivity.
Qed.

Lemma collapsed_lstrip q s :
  collapsed s = true -> collapsed (Str.lstrip_by q s) = true.
Proof.
  induction s as [|c s IH]; [reflexivity|]. intros C. simpl.
  destruct (q c); [|exact C].
  apply IH. cbn [collapsed] in C. apply andb_true_iff in C as [_ C]. exact C.
Qed.

Lemma head_in_rstrip q s :
  head_in s = false -> head_in (Str.rstrip_by q s) = false.
Proof.
  destruct s as [|c s]; [reflexivity|]. intros H. rewrite rstrip_by_cons.
  destruct (Str.rstrip_by q s); [destruct (q c)|]; try reflexivity; exact H.
Qed.

Lemma collapsed_rstrip q s :
  collapsed s = true -> collapsed (Str.rstrip_by q s) = true.
Proof.
  induction s as [|c s IH]; [reflexivity|]. intros C.
  cbn [collapsed] in C. apply andb_true_iff in C as [C1 C2].
  specialize (IH C2). rewrite rstrip_by_cons.
  destruct (Str.rstrip_by q s) as [|d r] eqn:R.
  - destruct (q c); [reflexivity|]. cbn [collapsed head_in].
    destruct (p c); [|reflexivity]. simpl in *.
    apply andb_true_iff in C1 as [-> _]. reflexivity.
  - change (collapsed (String c (String d r)))
      with ((negb (p c) || (Char.eqb c dash && negb (head_in (String d r))))
            && collapsed (String d r)).
    rewrite IH, andb_true_r.
    destruct (p c); [|reflexivity]. cbn [negb orb] in *.
    apply andb_true_iff in C1 as [-> H]. apply negb_true_iff in H.
    pose proof (head_in_rstrip q s H) as H'. rewrite R in H'.
    rewrite H'. reflexivity.
Qed.

Lemma collapsed_all s :
  collapsed s = true ->
  Str.all (fun c => negb (p c) || Char.eqb c dash) s = true.
Proof.
  induction s as [|c s IH]; [reflexivity|]. cbn [collapsed Str.all].
  intros [C1 C2]%andb_true_iff. rewrite (IH C2), andb_true_r.
  destruct (p c); [|reflexivity]. simpl in *.
  apply andb_true_iff in C1 as [-> _]. reflexivity.
Qed.

Lemma collapsed_no_double s :
  collapsed s = true ->
  Str.contains (String dash (String dash "")) s = false.
Proof.
  induction s as [|c s IH]; [reflexivity|]. cbn [collapsed].
  intros [C1 C2]%andb_true_iff.
  change (Str.contains (String dash (String dash "")) (String c s))
    with (Str.startswith (String dash (String dash "")) (String c s)
          || Str.contains (String dash (String dash "")) s).
  rewrite (IH C2), orb_false_r.
  change (Str.startswith (String dash (String dash "")) (String c s))
    with (Char.eqb dash c && Str.startswith (String dash "") s).
  destruct (Char.eqb dash c) eqn:D; [|reflexivity].
  apply CharFacts.eqb_eq in D as <-. rewrite p_dash in C1. simpl in C1.
  apply andb_true_iff in C1 as [_ H]. apply negb_true_iff in H.
  destruct s as [|d s']; [reflexivity|]. simpl in H.
  change (Str.startswith (String dash "") (String d s'))
    with (Char.eqb dash d && true).
  rewrite andb_true_r. apply CharFacts.eqb_neq. intros <-. congruence.
Qed.

End Collapse.

Lemma rstrip_by_last q : forall s a c,
  Str.rstrip_by q s = a +:+ String c "" -> q c = false.
Proof.
  induction s as [|d s IH]; intros a c.
  - destruct a; discriminate.
  - rewrite rstrip_by_cons. destruct (Str.rstrip_by q s) as [|e r] eqn:R.
    + destruct (q d) eqn:Q; [destruct a; discriminate|].
      destruct a as [|x a]; [intros [= <-]; exact Q|].
      rewrite app_cons. intros [= _ H]. destruct a; discriminate.
    + destruct a as [|x a].
      * rewrite app_nil_l. intros H. discriminate H.
      * rewrite app_cons. intros [= _ H]. apply (IH a c). exact H.
Qed.

Lemma all_ext p q s : (forall c, p c = q c) -> Str.all p s = Str.all q s.
Proof.
  intros E. induction s as [|c s IH]; [reflexivity|]. cbn [Str.all].
  rewrite E, IH. reflexivity.
Qed.

Lemma slug_char_lower c :
  negb (not_slug_char c) || Char.eqb c "-" = true -> Char.lower c = c.
Proof. CharFacts.by_cases c. Qed.

Lemma lower_id s :
  Str.all (fun c => negb (not_slug_char c) || Char.eqb c "-") s = true ->
  Str.lower s = s.
Proof.
  unfold Str.lower. induction s as [|c s IH]; [reflexivity|]. cbn [Str.all Str.map].
  intros [H1 H2]%andb_true_iff. rewrite (slug_char_lower c H1), (IH H2). reflexivity.
Qed.

Lemma slugify_collapsed name : collapsed not_slug_char "-" (slugify name) = true.
Proof.
  unfold slugify, Str.strip_by. apply collapsed_rstrip, collapsed_lstrip.
  apply sub_from_collapsed; [reflexivity | lia].
Qed.

Lemma slugify_chars name :
  Str.all (fun c => negb (not_slug_char c) || Char.eqb c "-") (slugify name) = true.
Proof. apply collapsed_all, slugify_collapsed. Qed.

Lemma slugify_fixed name : slugify (slugify name) = slugify name.
Proof.
  unfold slugify at 1. rewrite (lower_id _ (slugify_chars name)).
  unfold Re.sub.
  rewrite (collapsed_sub_from not_slug_char "-" _ None _
             (Nat.lt_succ_diag_r _) (slugify_collapsed name)).
  unfold slugify. apply strip_by_fixed.
Qed.

(** X16: a slug is made of the letters [a]-[z], digits and single
    hyphens, with no hyphen at either end; taking the slug of a slug
    changes nothing, and the case of the name does not matter. *)
Theorem slugify_canonical name :
  Str.all (fun c => Char.is_az c || Char.between 48 57 c || Char.eqb c "-")
    (slugify name) = true
  /\ Str.contains "--" (slugify name) = false
  /\ Str.startswith "-" (slugify name) = false
  /\ (forall s, slugify name <> s +:+ "-")
  /\ slugify (slugify name) = slugify name
  /\ slugify (Str.lower name) = slugify name.
Proof.
  split; [|split; [|split; [|split; [|split]]]].
  - rewrite (all_ext _ (fun c => negb (not_slug_char c) || Char.eqb c "-"));
      [apply slugify_chars|].
    intros c. unfold not_slug_char. rewrite negb_involutive. reflexivity.
  - apply (collapsed_no_double not_slug_char "-");
      [reflexivity | apply slugify_collapsed].
  - unfold slugify, Str.strip_by.
    set (t := Re.sub _ _ _).
    pose proof (head_in_rstrip (fun c => Char.eqb c "-") (fun c => Char.eqb c "-")
                  (Str.lstrip_by (fun c => Char.eqb c "-") t)
                  (head_in_lstrip _ t)) as H.
    destruct (Str.rstrip_by _ _) as [|d r]; [reflexivity|]. simpl in H.
    change (Str.startswith "-" (String d r)) with (Char.eqb "-" d && true).
    rewrite andb_true_r. apply CharFacts.eqb_neq. intros <-. discriminate H.
  - intros s E. unfold slugify, Str.strip_by in E.
    apply rstrip_by_last in E. discriminate E.
  - apply slugify_fixed.
  - unfold slugify. rewrite lower_fixed. reflexivity.
Qed.

(** X17: a name of the people index is the slug of a name of one of the
    files, so that it is its own slug. *)
Theorem index_names_are_slugs people_dir ix n :
  load_people_index people_dir = Ok ix ->
  n ∈ existing_names ix ->
  slugify n = n
  /\ exists files md v,
       people_dir = Some files /\ md ∈ files
       /\ match parse_people_file md with
          | Ok rec => v ∈ names rec
          | Raise _ => False
          end
       /\ n = slugify v.
Proof.
  rewrite load_people_index_ok. intros [= <-].
  destruct people_dir as [files|]; [|intros []%elem_of_empty].
  simpl. intros H.
  apply (proj1 (proj1 (proj2 (PeopleFacts.foldl_add_record _ empty_index)) n)) in H
    as [[]%elem_of_empty | (rec & Hr & Hx)].
  apply elem_of_map in Hx as (v & -> & Hv).
  split; [apply slugify_fixed|].
  apply list_elem_of_fmap in Hr as (md & -> & Hmd).
  exists files, md, v. rewrite PeopleFacts.parse_people_file_ok. auto.
Qed.

Lemma index_names_are_slugs_witness :
  slugify "jane-doe" = "jane-doe"
  /\ exists files md v,
       Some [Claims.jane_file] = Some files /\ md ∈ files
       /\ match parse_people_file md with
          | Ok rec => v ∈ names rec
          | Raise _ => False
          end
       /\ "jane-doe" = slugify v.
Proof.
  apply (index_names_are_slugs (Some [Claims.jane_file])
           (index_of (Some [Claims.jane_file])) "jane-doe").
  - apply load_people_index_ok.
  - Claims.by_compute.
Defined.

(** ** Outreach drafts *)

(** What the loop requires of a contact [c] to draft a message for it
    under the name [n]. *)
Definition drafted (ix : people_index) (cm : gmap string string)
    (c : contact) (n : string) : Prop :=
  let name := Str.strip (Str.or_empty (c_name c)) in
  let identifier := Str.strip (Str.or_empty (c_identifier c)) in
  (Str.startswith "+" identifier = true \/ Str.contains "@" identifier = true)
  /\ (name <> "" /\ is_phone_number name = false /\ n = name
      \/ (name = "" \/ is_phone_number name = true)
         /\ n = resolve_phone_to_name identifier cm /\ n <> "")
  /\ (Str.lower n ∉ IMESSAGE_EXCLUDE_NAMES)
  /\ is_likely_system_imessage_contact c = false
  /\ (slugify n ∉ existing_slugs ix ∪ existing_names ix)
  /\ (Str.startswith "+" identifier = true ->
      normalize_phone identifier ∉ existing_phones ix)
  /\ (Str.contains "@" identifier = true ->
      normalize_email identifier ∉ existing_emails ix).

(** The name under which the loop goes on with a contact, if any. *)
Definition name_for (cm : gmap string string) (c : contact) : option string :=
  let name := Str.strip (Str.or_empty (c_name c)) in
  let identifier := Str.strip (Str.or_empty (c_identifier c)) in
  if negb (Str.truthy name) || is_phone_number name then
    let resolved := resolve_phone_to_name identifier cm in
    if Str.truthy resolved then Some resolved else None
  else Some name.

Lemma name_for_spec cm c n :
  name_for cm c = Some n <->
  let name := Str.strip (Str.or_empty (c_name c)) in
  let identifier := Str.strip (Str.or_empty (c_identifier c)) in
  name <> "" /\ is_phone_number name = false /\ n = name
  \/ (name = "" \/ is_phone_number name = true)
     /\ n = resolve_phone_to_name identifier cm /\ n <> "".
Proof.
  unfold name_for. cbv zeta.
  set (name := Str.strip (Str.or_empty (c_name c))).
  set (r := resolve_phone_to_name _ cm).
  assert (forall b : bool,
            (if Str.truthy r then Some r else None) = Some n <->
            n = r /\ n <> "") as R.
  { intros _. destruct (Str.truthy r) eqn:R.
    - apply truthy_true in R. split; [intros [= <-]; auto | intros [-> _]; auto].
    - apply truthy_false in R. split; [discriminate | intros [-> N]; tauto]. }
  destruct (Str.truthy name) eqn:T; cbn [negb orb].
  - apply truthy_true in T. destruct (is_phone_number name); [rewrite (R true)|].
    + split; [intros [-> N]; auto|].
      intros [(_ & D & _)|(_ & H)]; [discriminate D | exact H].
    + split; [intros [= <-]; auto|].
      intros [(_ & _ & ->)|([E|E] & _)]; [reflexivity | tauto | discriminate E].
  - apply truthy_false in T. rewrite (R true).
    split; [intros [-> N]; auto|].
    intros [(N & _)|(_ & H)]; [tauto | exact H].
Qed.

Lemma outreach_body_spec ix cm l c x :
  x ∈ outreach_body ix cm l c <->
  x ∈ l \/ exists n, x = set_resolved_name n c /\ drafted ix cm c n.
Proof.
  unfold drafted.
  setoid_rewrite <- (name_for_spec cm c).
  unfold outreach_body. fold (name_for cm c).
  set (identifier := Str.strip (Str.or_empty (c_identifier c))).
  destruct (Str.startswith "+" identifier || Str.contains "@" identifier) eqn:R;
    cbn [negb].
  2:{ apply orb_false_iff in R as [R1 R2]. rewrite R1, R2.
      split; [auto|]. intros [H|(n & _ & [H|H] & _)]; [exact H| |]; discriminate H. }
  apply orb_true_iff in R.
  destruct (name_for cm c) as [n|].
  2:{ split; [auto|]. intros [H|(n & _ & _ & H & _)]; [exact H | discriminate H]. }
  assert (forall m : string, Some n = Some m <-> m = n) as Inj
    by (intros m; split; [intros [= ->] | intros ->]; reflexivity).
  destruct (bool_decide (Str.lower n ∈ IMESSAGE_EXCLUDE_NAMES)) eqn:E.
  { apply bool_decide_eq_true in E. split; [auto|].
    intros [H|(m & _ & _ & ->%Inj & H & _)]; [exact H | contradiction]. }
  apply bool_decide_eq_false in E.
  destruct (is_likely_system_imessage_contact c) eqn:Y.
  { split; [auto|]. intros [H|(m & _ & _ & _ & _ & H & _)]; [exact H | discriminate H]. }
  destruct (Str.startswith "+" identifier
            && bool_decide (normalize_phone identifier ∈ existing_phones ix)) eqn:P.
  { apply andb_true_iff in P as [P1 P2]. apply bool_decide_eq_true in P2.
    split; [auto|].
    intros [H|(m & _ & _ & _ & _ & _ & _ & H & _)]; [exact H|].
    destruct (H P1 P2). }
  destruct (Str.contains "@" identifier
            && bool_decide (normalize_email identifier ∈ existing_emails ix)) eqn:M.
  { apply andb_true_iff in M as [M1 M2]. apply bool_decide_eq_true in M2.
    split; [auto|].
    intros [H|(m & _ & _ & _ & _ & _ & _ & _ & H)]; [exact H|].
    destruct (H M1 M2). }
  destruct (bool_decide (slugify n ∈ existing_slugs ix)
            || bool_decide (slugify n ∈ existing_names ix)) eqn:K.
  { split; [auto|].
    intros [H|(m & _ & _ & ->%Inj & _ & _ & H & _)]; [exact H|].
    exfalso. apply H, elem_of_union.
    apply orb_true_iff in K as [K|K]; apply bool_decide_eq_true in K; auto. }
  apply orb_false_iff in K as [K1 K2]. apply bool_decide_eq_false in K1, K2.
  rewrite elem_of_app, list_elem_of_singleton. split.
  - intros [H| ->]; [auto|]. right. exists n.
    repeat split; try assumption.
    + rewrite elem_of_union. tauto.
    + intros Q. rewrite Q in P. apply bool_decide_eq_false in P. exact P.
    + intros Q. rewrite Q in M. apply bool_decide_eq_false in M. exact M.
  - intros [H|(m & -> & _ & ->%Inj & _)]; auto.
Qed.

Lemma outreach_loop_spec ix cm contacts : forall l x,
  x ∈ foldl (outreach_body ix cm) l contacts <->
  x ∈ l
  \/ exists c n, c ∈ contacts /\ x = set_resolved_name n c /\ drafted ix cm c n.
Proof.
  induction contacts as [|c cs IH]; intros l x; simpl.
  - split; [auto|]. intros [H|(c & n & []%elem_of_nil & _)]. exact H.
  - rewrite IH, outreach_body_spec. setoid_rewrite elem_of_cons. split.
    + intros [[H|(n & H)]|(c' & n & Hc & H)]; [auto| |]; right.
      * exists c, n. auto.
      * exists c', n. auto.
    + intros [H|(c' & n & [->|Hc] & H)]; [auto| |].
      * left. right. exists n. exact H.
      * right. exists c', n. auto.
Qed.

(** X18: [generate_outreach_drafts_report] drafts a message exactly for
    the contacts of the input that can be written to (the identifier
    starts with [+] or has an [@]) and that have a name: their own when
    it is not empty and not shaped like a phone number, and otherwise the
    one the directory gives for the identifier. That name is written to
    the contact; it is not an excluded family label, the contact is not a
    system thread, and neither the slug of the name nor the phone or
    email of the identifier is in the people index. *)
Theorem outreach_candidates_are_new_and_reachable
    contacts people_dir all_dbs ix l x :
  load_people_index people_dir = Ok ix ->
  outreach_im_candidates contacts people_dir all_dbs = Ok l ->
  x ∈ l <->
  exists c n,
    c ∈ contacts /\ x = set_resolved_name n c
    /\ (Str.startswith "+" (Str.strip (Str.or_empty (c_identifier c))) = true
        \/ Str.contains "@" (Str.strip (Str.or_empty (c_identifier c))) = true)
    /\ (Str.strip (Str.or_empty (c_name c)) <> ""
          /\ is_phone_number (Str.strip (Str.or_empty (c_name c))) = false
          /\ n = Str.strip (Str.or_empty (c_name c))
        \/ (Str.strip (Str.or_empty (c_name c)) = ""
              \/ is_phone_number (Str.strip (Str.or_empty (c_name c))) = true)
           /\ n = resolve_phone_to_name (Str.strip (Str.or_empty (c_identifier c)))
                    (load_contacts_map all_dbs)
           /\ n <> "")
    /\ (Str.lower n ∉ IMESSAGE_EXCLUDE_NAMES)
    /\ is_likely_system_imessage_contact c = false
    /\ (slugify n ∉ existing_slugs ix ∪ existing_names ix)
    /\ (Str.startswith "+" (Str.strip (Str.or_empty (c_identifier c))) = true ->
        normalize_phone (Str.strip (Str.or_empty (c_identifier c)))
          ∉ existing_phones ix)
    /\ (Str.contains "@" (Str.strip (Str.or_empty (c_identifier c))) = true ->
        normalize_email (Str.strip (Str.or_empty (c_identifier c)))
          ∉ existing_emails ix).
Proof.
  unfold outreach_im_candidates. intros ->. simpl. intros [= <-].
  rewrite outreach_loop_spec. unfold drafted. cbv zeta. split.
  - intros [[]%elem_of_nil|H]. exact H.
  - auto.
Qed.

Lemma outreach_candidates_are_new_and_reachable_witness :
  set_resolved_name "Jane Doe" (Claims.plain "" "+14155551234" "2025-01-02")
  ∈ [set_resolved_name "Jane Doe" (Claims.plain "" "+14155551234" "2025-01-02")]
  <->
  exists c n,
    c ∈ [Claims.plain "" "+14155551234" "2025-01-02"]
    /\ set_resolved_name "Jane Doe" (Claims.plain "" "+14155551234" "2025-01-02")
       = set_resolved_name n c
    /\ (Str.startswith "+" (Str.strip (Str.or_empty (c_identifier c))) = true
        \/ Str.contains "@" (Str.strip (Str.or_empty (c_identifier c))) = true)
    /\ (Str.strip (Str.or_empty (c_name c)) <> ""
          /\ is_phone_number (Str.strip (Str.or_empty (c_name c))) = false
          /\ n = Str.strip (Str.or_empty (c_name c))
        \/ (Str.strip (Str.or_empty (c_name c)) = ""
              \/ is_phone_number (Str.strip (Str.or_empty (c_name c))) = true)
           /\ n = resolve_phone_to_name (Str.strip (Str.or_empty (c_identifier c)))
                    (load_contacts_map Claims.jane_book)
           /\ n <> "")
    /\ (Str.lower n ∉ IMESSAGE_EXCLUDE_NAMES)
    /\ is_likely_system_imessage_contact c = false
    /\ (slugify n ∉ existing_slugs (index_of None) ∪ existing_names (index_of None))
    /\ (Str.startswith "+" (Str.strip (Str.or_empty (c_identifier c))) = true ->
        normalize_phone (Str.strip (Str.or_empty (c_identifier c)))
          ∉ existing_phones (index_of None))
    /\ (Str.contains "@" (Str.strip (Str.or_empty (c_identifier c))) = true ->
        normalize_email (Str.strip (Str.or_empty (c_identifier c)))
          ∉ existing_emails (index_of None)).
Proof.
  apply (outreach_candidates_are_new_and_reachable
           [Claims.plain "" "+14155551234" "2025-01-02"] None Claims.jane_book
           (index_of None)
           [set_resolved_name "Jane Doe" (Claims.plain "" "+14155551234" "2025-01-02")]).
  - reflexivity.
  - vm_compute. reflexivity.
Defined.

(** ** The email filter *)

Lemma startswith_app p : forall s b,
  Str.startswith p s = true -> Str.startswith p (s +:+ b) = true.
Proof.
  induction p as [|a p IH]; intros [|c s] b; try reflexivity; try discriminate.
  rewrite app_cons. cbn [Str.startswith].
  intros [-> H]%andb_true_iff. rewrite (IH _ _ H). reflexivity.
Qed.

Lemma contains_unfold p c s :
  Str.contains p (String c s) = Str.startswith p (String c s) || Str.contains p s.
Proof. reflexivity. Qed.

Lemma contains_app_r p s b :
  Str.contains p s = true -> Str.contains p (s +:+ b) = true.
Proof.
  induction s as [|c s IH].
  - destruct p; [|discriminate]. intros _. destruct b; reflexivity.
  - rewrite app_cons, !contains_unfold. intros [H|H]%orb_true_iff.
    + rewrite <- app_cons, (startswith_app _ _ _ H). reflexivity.
    + rewrite (IH H). apply orb_true_r.
Qed.

Lemma contains_app_l p a s :
  Str.contains p s = true -> Str.contains p (a +:+ s) = true.
Proof.
  intros H. induction a as [|c a IH]; [exact H|].
  rewrite app_cons, contains_unfold, IH. apply orb_true_r.
Qed.

Lemma contains_inside p a s b :
  Str.contains p s = true -> Str.contains p (a +:+ s +:+ b) = true.
Proof. intros H. apply contains_app_l, contains_app_r, H. Qed.

Lemma existsb_impl {A} (f g : A -> bool) l :
  (forall x, f x = true -> g x = true) -> existsb f l = true -> existsb g l = true.
Proof.
  intros I. rewrite !existsb_exists. intros (x & Hx & H). exists x. auto.
Qed.

Lemma should_exclude_email_eq email name subject :
  should_exclude_email email name subject
  = existsb (fun pattern => Str.contains (Str.lower pattern) (Str.lower email))
      EMAIL_EXCLUDE_PATTERNS
    || existsb (fun pattern => Str.contains (Str.lower pattern) (Str.lower subject))
         SUBJECT_EXCLUDE_PATTERNS.
Proof.
  unfold should_exclude_email.
  replace (if Str.truthy subject then Str.lower subject else "")
    with (Str.lower subject) by (destruct subject; reflexivity).
  destruct (existsb _ EMAIL_EXCLUDE_PATTERNS); [reflexivity|].
  destruct (existsb _ SUBJECT_EXCLUDE_PATTERNS); reflexivity.
Qed.

(** X19: whether an email is filtered out does not depend on the name
    of the sender nor on the case of the address and the subject, and
    text around an address or a subject that is filtered out does not
    bring the email back. *)
Theorem email_filter_ignores_name_and_case email name subject :
  (forall name', should_exclude_email email name' subject
                 = should_exclude_email email name subject)
  /\ should_exclude_email (Str.lower email) name (Str.lower subject)
     = should_exclude_email email name subject
  /\ (should_exclude_email email name subject = true ->
      forall a b a' b',
        should_exclude_email (a +:+ email +:+ b) name (a' +:+ subject +:+ b') = true).
Proof.
  rewrite !should_exclude_email_eq. split; [|split].
  - intros name'. apply should_exclude_email_eq.
  - rewrite !lower_fixed. reflexivity.
  - intros H a b a' b'. rewrite should_exclude_email_eq.
    unfold Str.lower in *. rewrite !map_app.
    apply orb_true_iff in H as [H|H]; apply orb_true_iff; [left|right];
      revert H; apply existsb_impl; intros p; apply contains_inside.
Qed.

(** ** The email export *)

Lemma str_ltb_irrefl a : str_ltb a a = false.
Proof.
  induction a as [|x a IH]; [reflexivity|]. cbn [str_ltb].
  rewrite Nat.ltb_irrefl, Nat.eqb_refl, IH. reflexivity.
Qed.

Lemma str_ltb_trans : forall a b c,
  str_ltb a b = true -> str_ltb b c = true -> str_ltb a c = true.
Proof.
  induction a as [|x a IH]; intros [|y b] [|z c]; cbn [str_ltb];
    try discriminate; try reflexivity.
  rewrite !orb_true_iff, !andb_true_iff, !Nat.ltb_lt, !Nat.eqb_eq.
  intros [H1|[H1 H1']] [H2|[H2 H2']]; [left; lia | left; lia | left; lia |].
  right. split; [lia|]. eapply IH; eassumption.
Qed.

Lemma str_ltb_nil_l b : str_ltb "" b = false -> b = "".
Proof. destruct b; [reflexivity | discriminate]. Qed.

Lemma str_ltb_nil_r a : str_ltb a "" = false.
Proof. destruct a; reflexivity. Qed.

(** [d] is the date of one of the entries and none is later. *)
Definition latest (d : string) (es : list email_entry) : Prop :=
  (exists x, x ∈ es /\ e_date x = d)
  /\ forall x, x ∈ es -> str_ltb d (e_date x) = false.

Definition consistent (r : sender) : Prop :=
  s_count r = length (s_emails r) /\ 1 <= s_count r
  /\ exists d, s_last_date r = Some d /\ latest d (s_emails r).

Lemma latest_next d es date subject preview :
  latest d es ->
  latest (if negb (Str.truthy d) || str_ltb d date then date else d)
    (es ++ [EmailEntry date subject preview]).
Proof.
  intros [(x & Hx & Ex) M].
  destruct (negb (Str.truthy d) || str_ltb d date) eqn:C; split.
  - exists (EmailEntry date subject preview). split; [|reflexivity].
    apply elem_of_app. right. apply list_elem_of_singleton. reflexivity.
  - intros y [Hy| ->%list_elem_of_singleton]%elem_of_app;
      [|apply str_ltb_irrefl].
    specialize (M y Hy). apply orb_true_iff in C as [C|C].
    + apply negb_true_iff, truthy_false in C. rewrite C in M.
      apply str_ltb_nil_l in M. rewrite M. apply str_ltb_nil_r.
    + destruct (str_ltb date (e_date y)) eqn:L; [|reflexivity].
      rewrite (str_ltb_trans _ _ _ C L) in M. discriminate M.
  - exists x. split; [|exact Ex]. apply elem_of_app. left. exact Hx.
  - apply orb_false_iff in C as [_ C].
    intros y [Hy| ->%list_elem_of_singleton]%elem_of_app; [auto | exact C].
Qed.

Lemma record_email_consistent m date name email subject body :
  map_Forall (fun _ r => consistent r) m ->
  map_Forall (fun _ r => consistent r)
    (record_email m date name email subject body).
Proof.
  intros F. unfold record_email. apply map_Forall_insert_2; [|exact F].
  destruct (m !! Str.lower email) as [r|] eqn:E; cbn [default id].
  - destruct (F _ _ E) as (C1 & C2 & d & L & M).
    unfold consistent. cbn [s_count s_emails s_last_date id].
    change (id r) with r.
    rewrite List.length_app, C1. simpl. split; [lia|]. split; [lia|].
    rewrite L. cbn [Str.or_empty default]. change (id d) with d.
    exists (if negb (Str.truthy d) || str_ltb d date then date else d).
    split; [destruct (negb (Str.truthy d) || str_ltb d date); reflexivity|].
    apply latest_next, M.
  - unfold consistent. simpl. split; [reflexivity|]. split; [lia|].
    exists date. split; [reflexivity|]. split.
    + eexists. split; [apply list_elem_of_singleton; reflexivity | reflexivity].
    + intros y ->%list_elem_of_singleton. apply str_ltb_irrefl.
Qed.

Lemma parse_data_line_cases m line :
  parse_data_line m line = m
  \/ exists date name email subject body,
       should_exclude_email email name subject = false
       /\ parse_data_line m line = record_email m date name email subject body.
Proof.
  unfold parse_data_line.
  destruct (3 <=? length _); [|auto].
  destruct (Str.truthy _ && Str.contains "@" _); [|auto].
  destruct (Re.search from_pattern _) as [f|];
    match goal with
    | |- context [should_exclude_email ?e ?n ?s] =>
        destruct (should_exclude_email e n s) eqn:X; [auto|]
    end; right; eauto 10.
Qed.

Lemma foldl_invariant {A B} (P : A -> Prop) (f : A -> B -> A) l : forall a,
  P a -> (forall a b, P a -> P (f a b)) -> P (foldl f a l).
Proof. induction l as [|b l IH]; intros a Ha Hf; simpl; auto. Qed.

(** X20: in the summaries of [parse_email_export], the count of a
    sender is the number of its emails and at least one, and its last
    date is the date of one of these emails, with none of them later in
    the order of strings. *)
Theorem sender_summaries_are_consistent content key r :
  parse_email_export content !! key = Some r ->
  s_count r = length (s_emails r) /\ 1 <= s_count r
  /\ exists d,
       s_last_date r = Some d
       /\ (exists x, x ∈ s_emails r /\ e_date x = d)
       /\ forall x, x ∈ s_emails r -> str_ltb d (e_date x) = false.
Proof.
  intros H. revert key r H. change (map_Forall (fun _ r => consistent r)
                                      (parse_email_export content)).
  unfold parse_email_export. apply foldl_invariant; [apply map_Forall_empty|].
  intros m line F.
  destruct (parse_data_line_cases m line)
    as [->|(date & name & email & subject & body & _ & ->)];
    [exact F | apply record_email_consistent, F].
Qed.

Definition sample_export : string :=
  "----  ----" +:+ nl
  +:+ "2025-01-02 10:00  Ann Lee <Ann@x.org>  Hi  hello" +:+ nl
  +:+ "2025-01-01 09:00  ann@x.org  Older" +:+ nl.

Definition ann_summary : sender :=
  default new_sender (parse_email_export sample_export !! "ann@x.org").

Lemma sender_summaries_are_consistent_witness :
  s_count ann_summary = length (s_emails ann_summary) /\ 1 <= s_count ann_summary
  /\ exists d,
       s_last_date ann_summary = Some d
       /\ (exists x, x ∈ s_emails ann_summary /\ e_date x = d)
       /\ forall x, x ∈ s_emails ann_summary -> str_ltb d (e_date x) = false.
Proof.
  apply (sender_summaries_are_consistent sample_export "ann@x.org" ann_summary).
  vm_compute. reflexivity.
Defined.

(** The key of a summary is its address in lower case, and the address
    has none of the filtered patterns. *)
Definition keyed (key : string) (r : sender) : Prop :=
  exists e, s_email r = Some e /\ key = Str.lower e
    /\ existsb (fun pattern => Str.contains (Str.lower pattern) (Str.lower e))
         EMAIL_EXCLUDE_PATTERNS = false.

Lemma existsb_false {A} (f : A -> bool) l x :
  existsb f l = false -> In x l -> f x = false.
Proof.
  intros E H. destruct (f x) eqn:F; [|reflexivity].
  rewrite <- E. symmetry. apply existsb_exists. eauto.
Qed.

Lemma patterns_lower : Forall (fun p => Str.lower p = p) EMAIL_EXCLUDE_PATTERNS.
Proof. repeat constructor. Qed.

(** X21: a summary of [parse_email_export] is kept under the address of
    the sender in lower case, and no filtered pattern occurs in that
    key: the filter rejects no email for its address alone. *)
Theorem senders_are_keyed_by_unfiltered_address content key r :
  parse_email_export content !! key = Some r ->
  (exists e, s_email r = Some e /\ key = Str.lower e)
  /\ (forall p, p ∈ EMAIL_EXCLUDE_PATTERNS -> Str.contains p key = false)
  /\ forall name, should_exclude_email key name "" = false.
Proof.
  intros H.
  assert (keyed key r) as (e & E & -> & X).
  { revert key r H. change (map_Forall keyed (parse_email_export content)).
    unfold parse_email_export. apply foldl_invariant; [apply map_Forall_empty|].
    intros m line F.
    destruct (parse_data_line_cases m line)
      as [->|(date & name & email & subject & body & X & ->)]; [exact F|].
    unfold record_email. apply map_Forall_insert_2; [|exact F].
    exists email. split; [reflexivity|]. split; [reflexivity|].
    rewrite should_exclude_email_eq in X. apply orb_false_iff in X as [X _].
    exact X. }
  split; [eauto|]. split.
  - intros p Hp. pose proof patterns_lower as L.
    rewrite Forall_forall in L. rewrite <- (L p Hp).
    apply list_elem_of_In in Hp. apply (existsb_false _ _ p X Hp).
  - intros name. rewrite should_exclude_email_eq, lower_fixed, X. reflexivity.
Qed.

Lemma senders_are_keyed_by_unfiltered_address_witness :
  (exists e, s_email ann_summary = Some e /\ "ann@x.org" = Str.lower e)
  /\ (forall p, p ∈ EMAIL_EXCLUDE_PATTERNS -> Str.contains p "ann@x.org" = false)
  /\ forall name, should_exclude_email "ann@x.org" name "" = false.
Proof.
  apply (senders_are_keyed_by_unfiltered_address sample_export "ann@x.org"
           ann_summary).
  vm_compute. reflexivity.
Defined.

(** A line that the scan keeps when it comes after a separator. *)
Definition is_data_line (line : string) : Prop :=
  Str.strip line <> ""
  /\ Re.match_ separator_pattern line = None
  /\ Str.startswith "#" line = false
  /\ Str.startswith "Timeframe:" line = false
  /\ Str.contains "Date" line && Str.contains "From" line
     && Str.contains "Subject" line = false.

Definition after_separator (lines : list string) (line : option string) : Prop :=
  exists before sep after,
    lines = before ++ sep :: after
    /\ is_Some (Re.match_ separator_pattern sep)
    /\ match line with Some l => l ∈ after | None => True end.

Lemma after_separator_next lines x o :
  after_separator lines o -> after_separator (lines ++ [x]) o.
Proof.
  intros (before & sep & after & -> & S & H).
  exists before, sep, (after ++ [x]).
  split; [rewrite <- List.app_assoc; reflexivity|]. split; [exact S|].
  destruct o; [apply elem_of_app; auto | exact I].
Qed.

Lemma after_separator_last lines x :
  after_separator lines None -> after_separator (lines ++ [x]) (Some x).
Proof.
  intros (before & sep & after & -> & S & _).
  exists before, sep, (after ++ [x]).
  split; [rewrite <- List.app_assoc; reflexivity|]. split; [exact S|].
  apply elem_of_app. right. apply list_elem_of_singleton. reflexivity.
Qed.

Lemma scan_line_invariant lines :
  let st := foldl scan_line (false, []) lines in
  (fst st = true -> after_separator lines None)
  /\ forall l, l ∈ snd st -> after_separator lines (Some l) /\ is_data_line l.
Proof.
  induction lines as [|x lines IH] using rev_ind.
  - simpl. split; [discriminate | intros l []%elem_of_nil].
  - rewrite foldl_app. cbn [foldl].
    destruct (foldl scan_line (false, []) lines) as [in_data dl].
    cbv zeta in IH. cbn [fst snd] in IH. destruct IH as [I1 I2].
    assert (forall l, l ∈ dl ->
              after_separator (lines ++ [x]) (Some l) /\ is_data_line l) as K.
    { intros l Hl. destruct (I2 l Hl). split; [apply after_separator_next|]; auto. }
    assert (in_data = true -> after_separator (lines ++ [x]) None) as K1.
    { intros H. apply after_separator_next; auto. }
    cbv zeta. unfold scan_line.
    destruct (Str.truthy (Str.strip x)) eqn:B; cbn [negb]; [|split; assumption].
    destruct (Re.match_ separator_pattern x) as [f|] eqn:S.
    + rewrite bool_decide_eq_true_2 by eauto. cbn [fst snd]. split; [|exact K].
      intros _. exists lines, x, []. rewrite S. eauto.
    + rewrite bool_decide_eq_false_2 by (intros [? [=]]).
      destruct (Str.startswith "#" x || Str.startswith "Timeframe:" x) eqn:C;
        [split; assumption|].
      destruct (Str.contains "Date" x && Str.contains "From" x
                && Str.contains "Subject" x) eqn:Hd; [split; assumption|].
      destruct in_data; [|split; assumption]. cbn [fst snd]. split; [exact K1|].
      intros l [Hl| ->%list_elem_of_singleton]%elem_of_app; [auto|].
      split; [apply after_separator_last; auto|].
      apply orb_false_iff in C as [C1 C2].
      split; [apply truthy_true, B|]. auto.
Qed.

(** X22: the lines that [parse_email_export] reads as emails are lines
    of the file that come after a separator line (dashes, blanks,
    dashes); they are not blank, not separators themselves, do not
    start with [#] or [Timeframe:], and do not have the three words of
    the column header. A file without a separator line gives no
    summaries. *)
Theorem data_lines_follow_a_separator content :
  (forall line, line ∈ data_lines_of (split_on Re.newline content) ->
     (exists before sep after,
        split_on Re.newline content = before ++ sep :: after
        /\ is_Some (Re.match_ separator_pattern sep) /\ line ∈ after)
     /\ Str.strip line <> ""
     /\ Re.match_ separator_pattern line = None
     /\ Str.startswith "#" line = false
     /\ Str.startswith "Timeframe:" line = false
     /\ Str.contains "Date" line && Str.contains "From" line
        && Str.contains "Subject" line = false)
  /\ ((forall line, line ∈ split_on Re.newline content ->
         Re.match_ separator_pattern line = None) ->
      parse_email_export content = ∅).
Proof.
  split.
  - intros line H. apply scan_line_invariant in H as [A D].
    split; [exact A | exact D].
  - intros N. unfold parse_email_export.
    destruct (data_lines_of (split_on Re.newline content)) as [|l dl] eqn:E;
      [reflexivity|].
    assert (l ∈ data_lines_of (split_on Re.newline content)) as H
      by (rewrite E; left).
    apply scan_line_invariant in H as [(before & sep & after & S & [f M] & _) _].
    rewrite N in M; [discriminate M|].
    rewrite S. apply elem_of_app. right. left.
Qed.

(** ** Platform candidates *)

Lemma str_ltb_asym a b : str_ltb a b = true -> str_ltb b a = false.
Proof.
  intros H. destruct (str_ltb b a) eqn:E; [|reflexivity].
  rewrite <- (str_ltb_irrefl a). symmetry. eapply str_ltb_trans; eassumption.
Qed.

Lemma code_inj x y : Char.code x = Char.code y -> x = y.
Proof.
  intros H. rewrite <- (ascii_nat_embedding x), <- (ascii_nat_embedding y).
  unfold Char.code in H. rewrite H. reflexivity.
Qed.

Lemma str_ltb_total : forall a b,
  str_ltb a b = false -> a = b \/ str_ltb b a = true.
Proof.
  induction a as [|x a IH]; intros [|y b]; cbn [str_ltb]; auto; try discriminate.
  rewrite orb_false_iff, andb_false_iff, Nat.ltb_ge, Nat.eqb_neq.
  rewrite orb_true_iff, andb_true_iff, Nat.ltb_lt, Nat.eqb_eq.
  intros [H1 H2].
  destruct (Nat.eq_dec (Char.code x) (Char.code y)) as [E|E].
  - destruct H2 as [H2|H2]; [contradiction|].
    apply code_inj in E as ->. apply IH in H2 as [->|H2]; auto.
  - right. left. lia.
Qed.

Lemma str_geb_trans a b c :
  str_ltb a b = false -> str_ltb b c = false -> str_ltb a c = false.
Proof.
  intros H1 H2. destruct (str_ltb a c) eqn:L; [|reflexivity].
  apply str_ltb_total in H1 as [->|H1]; [congruence|].
  rewrite (str_ltb_trans _ _ _ H1 L) in H2. discriminate H2.
Qed.

(** [a] is not before [b]. *)
Definition not_earlier (a b : platform_candidate) : Prop :=
  str_ltb (pc_date a) (pc_date b) = false.

Lemma elem_of_insert_by_date z x l :
  z ∈ insert_by_date x l <-> z = x \/ z ∈ l.
Proof.
  induction l as [|y l IH]; simpl.
  - rewrite list_elem_of_singleton, elem_of_nil. tauto.
  - destruct (str_ltb (pc_date x) (pc_date y));
      rewrite !elem_of_cons, ?IH, ?elem_of_cons; tauto.
Qed.

Lemma elem_of_sort_by_date z l : z ∈ sort_by_date_reverse l <-> z ∈ l.
Proof.
  induction l as [|x l IH]; simpl; [tauto|].
  rewrite elem_of_insert_by_date, elem_of_cons, IH. tauto.
Qed.

Lemma insert_by_date_sorted x l :
  Sorted not_earlier l -> Sorted not_earlier (insert_by_date x l).
Proof.
  induction l as [|y l IH]; simpl; intros S; [repeat constructor|].
  destruct (str_ltb (pc_date x) (pc_date y)) eqn:L.
  - apply Sorted_inv in S as [S H]. constructor; [apply IH, S|].
    destruct l as [|z l]; simpl.
    + constructor. apply str_ltb_asym, L.
    + destruct (str_ltb (pc_date x) (pc_date z)).
      * constructor. apply HdRel_inv in H. exact H.
      * constructor. apply str_ltb_asym, L.
  - constructor; [exact S|]. constructor. exact L.
Qed.

Lemma sort_by_date_sorted l :
  StronglySorted not_earlier (sort_by_date_reverse l).
Proof.
  apply Sorted_StronglySorted.
  - intros a b c. apply str_geb_trans.
  - induction l as [|x l IH]; simpl;
      [constructor | apply insert_by_date_sorted, IH].
Qed.

(** What the loop requires of a line to make a candidate of it. *)
Definition invited (ix : people_index) (x : platform_candidate) : Prop :=
  Str.contains "linkedin.com" (pc_email x) = true
  /\ normalize_email (pc_email x) = pc_email x
  /\ (Str.contains "requested to connect" (Str.lower (pc_subject x)) = true
      \/ Str.contains "just messaged you" (Str.lower (pc_subject x)) = true
      \/ exists body, pc_snippet x = Str.take 200 body
           /\ Str.contains "requested to connect" (Str.lower body) = true)
  /\ (pc_name x = "" \/ slugify (pc_name x) ∉ existing_slugs ix ∪ existing_names ix)
  /\ String.length (pc_snippet x) <= 200.

Lemma length_take n s : String.length (Str.take n s) <= n.
Proof.
  revert s. induction n as [|n IH]; intros [|c s]; simpl; try lia.
  specialize (IH s). lia.
Qed.

Lemma platform_line_invited ix l line x :
  x ∈ platform_line ix l line -> x ∈ l \/ invited ix x.
Proof.
  unfold platform_line. destruct (length _ <? 3); [auto|].
  set (subject := if 2 <? _ then _ else _).
  set (body := if 3 <? _ then _ else _).
  destruct (Re.search from_pattern _) as [m|]; [|auto].
  set (name := Str.strip (Re.group 1 _)).
  set (email := normalize_email _).
  destruct (Str.contains "linkedin.com" email
            && (Str.contains "requested to connect" (Str.lower subject)
                || Str.contains "just messaged you" (Str.lower subject)
                || Str.contains "requested to connect" (Str.lower body))) eqn:I;
    cbn [negb]; [|auto].
  destruct (Str.truthy name
            && (bool_decide (slugify name ∈ existing_slugs ix)
                || bool_decide (slugify name ∈ existing_names ix))) eqn:K; [auto|].
  intros [H| ->%list_elem_of_singleton]%elem_of_app; [auto|]. right.
  apply andb_true_iff in I as [I1 I2].
  unfold invited. cbn [pc_email pc_subject pc_snippet pc_name].
  split; [exact I1|]. split; [apply normalize_email_fixed|]. split.
  - apply orb_true_iff in I2 as [I2|I2]; [apply orb_true_iff in I2; tauto|].
    right. right. exists body. split; [|exact I2].
    destruct body; reflexivity.
  - split.
    + apply andb_false_iff in K as [K|K]; [left; apply truthy_false, K|].
      right. apply orb_false_iff in K as [K1 K2].
      apply bool_decide_eq_false in K1, K2. rewrite elem_of_union. tauto.
    + destruct (Str.truthy body); [apply length_take | simpl; lia].
Qed.

Lemma platform_loop_invited ix lines : forall l x,
  x ∈ foldl (platform_line ix) l lines -> x ∈ l \/ invited ix x.
Proof.
  induction lines as [|line lines IH]; intros l x; simpl; [auto|].
  intros [H|H]%IH; [|auto]. apply platform_line_invited in H. exact H.
Qed.

(** X23: the function always returns, and every candidate it returns
    is an invitation through LinkedIn: its email, which is normalised,
    contains [linkedin.com]; the subject or the body says so; its name is
    empty or has a slug that is not in the people index; and its snippet
    has at most 200 characters. *)
Theorem platform_candidates_are_linkedin_invites content people_dir :
  exists l ix,
    extract_platform_people_candidates_from_received_emails content people_dir
      = Ok l
    /\ load_people_index people_dir = Ok ix
    /\ forall x, x ∈ l ->
         Str.contains "linkedin.com" (pc_email x) = true
         /\ normalize_email (pc_email x) = pc_email x
         /\ (Str.contains "requested to connect" (Str.lower (pc_subject x)) = true
             \/ Str.contains "just messaged you" (Str.lower (pc_subject x)) = true
             \/ exists body, pc_snippet x = Str.take 200 body
                  /\ Str.contains "requested to connect" (Str.lower body) = true)
         /\ (pc_name x = ""
             \/ slugify (pc_name x) ∉ existing_slugs ix ∪ existing_names ix)
         /\ String.length (pc_snippet x) <= 200.
Proof.
  unfold extract_platform_people_candidates_from_received_emails.
  rewrite load_people_index_ok. simpl.
  destruct content as [content|]; eexists _, _;
    (split; [reflexivity|]); (split; [reflexivity|]).
  - intros x H. apply elem_of_sort_by_date, platform_loop_invited in H
      as [[]%elem_of_nil|H].
    exact H.
  - intros x []%elem_of_nil.
Qed.

(** X24: the candidates come with the latest date first, in the order
    of strings: no candidate has an earlier date than one that comes
    after it; and a file that cannot be read gives no candidate. *)
Theorem platform_candidates_latest_first content people_dir :
  exists l,
    extract_platform_people_candidates_from_received_emails content people_dir
      = Ok l
    /\ StronglySorted (fun a b => str_ltb (pc_date a) (pc_date b) = false) l
    /\ (content = None -> l = []).
Proof.
  unfold extract_platform_people_candidates_from_received_emails.
  rewrite load_people_index_ok. simpl.
  destruct content as [content|]; eexists; (split; [reflexivity|]).
  - split; [apply sort_by_date_sorted | discriminate].
  - split; [constructor | reflexivity].
Qed.

(** ** New names are listed *)

Lemma apply_verdict_named_mono st v x :
  x ∈ named_candidates st -> x ∈ named_candidates (apply_verdict st v).
Proof.
  destruct v as [|y|num y r]; simpl; [auto| |].
  - intros H. apply elem_of_app. auto.
  - destruct (_ && _); [|auto]. destruct (Str.truthy r); simpl; [|auto].
    intros H. apply elem_of_app. auto.
Qed.

Lemma run_named_mono ix cm l : forall st x,
  x ∈ named_candidates st -> x ∈ named_candidates (run ix cm st l).
Proof.
  induction l as [|c l IH]; intros st x H; [exact H|].
  rewrite run_cons. apply IH, apply_verdict_named_mono, H.
Qed.

Lemma run_named_complete ix cm l : forall st c,
  c ∈ l -> verdict_of ix cm c = Named c -> c ∈ named_candidates (run ix cm st l).
Proof.
  induction l as [|d l IH]; intros st c Hc V; [apply elem_of_nil in Hc; tauto|].
  rewrite run_cons. apply elem_of_cons in Hc as [<-|Hc]; [|auto].
  apply run_named_mono. rewrite V. simpl. apply elem_of_app. right.
  apply list_elem_of_singleton. reflexivity.
Qed.

(** X25: a contact of the input with a real name (not empty, not shaped
    like a phone number, without [@]) is listed as a named candidate, as
    it is, when nothing makes the resolver pass over it: the name is not
    an excluded family label, the contact is not a system thread, the
    email or phone of its identifier and the phone of its name are not
    in the people index, and neither the slug of the name nor the slug of
    its first and last word is. *)
Theorem new_named_contact_is_listed contacts people_dir all_dbs now ix c :
  let name := Str.strip (Str.or_empty (c_name c)) in
  let identifier := Str.strip (Str.or_empty (c_identifier c)) in
  load_people_index people_dir = Ok ix ->
  c ∈ contacts ->
  name <> "" -> is_phone_number name = false -> Str.contains "@" name = false ->
  Str.lower name ∉ IMESSAGE_EXCLUDE_NAMES ->
  is_likely_system_imessage_contact c = false ->
  (Str.contains "@" identifier = true ->
   normalize_email identifier ∉ existing_emails ix) ->
  (Str.startswith "+" identifier = true ->
   normalize_phone identifier ∉ existing_phones ix) ->
  (Str.startswith "+" name = true -> normalize_phone name ∉ existing_phones ix) ->
  slugify name ∉ existing_slugs ix ∪ existing_names ix ->
  first_last name ∉ existing_slugs ix ∪ existing_names ix ->
  exists rep,
    generate_new_people_candidates_report contacts people_dir all_dbs now = Ok rep
    /\ c ∈ r_named rep.
Proof.
  intros name identifier. rewrite load_people_index_ok. intros [= <-].
  set (ix := index_of people_dir). set (cm := load_contacts_map all_dbs).
  intros Hc T P A X Y E F G K1 K2.
  eexists. split; [apply generate_ok|]. cbn [r_named].
  apply SortFacts.elem_of_sorted. fold ix cm.
  apply (run_named_complete ix cm contacts (LoopState [] [] ∅) c Hc).
  apply truthy_true in T.
  unfold verdict_of. fold name identifier. rewrite P, T. cbn [orb negb].
  rewrite (bool_decide_eq_false_2 _ X), Y.
  assert (Str.truthy (if Str.contains "@" identifier
                      then normalize_email identifier else "")
          && bool_decide ((if Str.contains "@" identifier
                           then normalize_email identifier else "")
                          ∈ existing_emails ix) = false) as ->.
  { destruct (Str.contains "@" identifier); [|reflexivity].
    rewrite (bool_decide_eq_false_2 _ (E eq_refl)). apply andb_false_r. }
  assert (Str.truthy (if Str.startswith "+" identifier
                      then normalize_phone identifier
                      else if Str.startswith "+" name
                      then normalize_phone name else "")
          && bool_decide ((if Str.startswith "+" identifier
                           then normalize_phone identifier
                           else if Str.startswith "+" name
                           then normalize_phone name else "")
                          ∈ existing_phones ix) = false) as ->.
  { destruct (Str.startswith "+" identifier).
    - rewrite (bool_decide_eq_false_2 _ (F eq_refl)). apply andb_false_r.
    - destruct (Str.startswith "+" name); [|reflexivity].
      rewrite (bool_decide_eq_false_2 _ (G eq_refl)). apply andb_false_r. }
  assert (name_in_people ix name = false) as ->.
  { unfold name_in_people. fold (words name). fold (first_last name).
    rewrite elem_of_union in K1, K2.
    rewrite !bool_decide_eq_false_2 by tauto.
    cbn [orb]. destruct (2 <=? _); reflexivity. }
  rewrite A, T, P. reflexivity.
Qed.

Lemma new_named_contact_is_listed_witness :
  exists rep,
    generate_new_people_candidates_report
      [Claims.plain "Zed Roe" "+15550009999" "2025-01-02"]
      (Some [Claims.jane_file]) Claims.jane_book Claims.at_9 = Ok rep
    /\ Claims.plain "Zed Roe" "+15550009999" "2025-01-02" ∈ r_named rep.
Proof.
  apply (new_named_contact_is_listed
           [Claims.plain "Zed Roe" "+15550009999" "2025-01-02"]
           (Some [Claims.jane_file]) Claims.jane_book Claims.at_9
           (index_of (Some [Claims.jane_file]))
           (Claims.plain "Zed Roe" "+15550009999" "2025-01-02")).
  - apply load_people_index_ok.
  - apply list_elem_of_singleton. reflexivity.
  - discriminate.
  - reflexivity.
  - reflexivity.
  - Claims.by_compute.
  - reflexivity.
  - discriminate.
  - intros _. Claims.by_compute.
  - discriminate.
  - Claims.by_compute.
  - Claims.by_compute.
Defined.

(** ** Dates without a time of day *)

(** The words a group of a pattern can capture. *)
Fixpoint group_lang (r : Re.regex) (i : nat) (v : string) : Prop :=
  match r with
  | Re.Grp j r' => (j = i /\ ReFacts.in_lang r' v) \/ group_lang r' i v
  | Re.Seq r1 r2 | Re.Alt r1 r2 => group_lang r1 i v \/ group_lang r2 i v
  | _ => False
  end.

Fixpoint group_ids (r : Re.regex) : list nat :=
  match r with
  | Re.Grp j r' => j :: group_ids r'
  | Re.Seq r1 r2 | Re.Alt r1 r2 => group_ids r1 ++ group_ids r2
  | _ => []
  end.

Lemma group_lang_ids r i v : group_lang r i v -> In i (group_ids r).
Proof.
  induction r; simpl; try tauto; rewrite ?in_app_iff; intuition.
Qed.

Definition captured (r : Re.regex) (new : Re.caps) : Prop :=
  Forall (fun e => group_lang r (fst e) (snd e)) new.

Lemma captured_impl r r' new :
  (forall i v, group_lang r i v -> group_lang r' i v) ->
  captured r new -> captured r' new.
Proof. intros I F. eapply Forall_impl; [exact F|]. intros e. apply I. Qed.

(** A successful run adds to the groups only words of the groups of the
    pattern. *)
Lemma run_captures {A} r : forall prev s cs (k : @Re.cont A) x,
  Re.run r prev s cs k = Some x ->
  exists w s' prev' new,
    s = w +:+ s' /\ ReFacts.in_lang r w /\ captured r new
    /\ k prev' s' (new ++ cs) = Some x.
Proof.
  induction r as [|p|r1 IH1 r2 IH2|r1 IH1 r2 IH2|p|p| | |i r IH];
    intros prev s cs k x; simpl.
  - intros H. exists "", s, prev, []. repeat split; auto. constructor.
  - destruct s as [|c s]; [discriminate|]. destruct (p c) eqn:E; [|discriminate].
    intros H. exists (String c ""), s, (Some c), [].
    repeat split; eauto. constructor.
  - intros H. apply IH1 in H as (w1 & s1 & prev1 & n1 & -> & L1 & C1 & H).
    apply IH2 in H as (w2 & s2 & prev2 & n2 & -> & L2 & C2 & H).
    exists (w1 +:+ w2), s2, prev2, (n2 ++ n1). rewrite app_assoc.
    split; [reflexivity|]. split; [eauto|]. split.
    + apply Forall_app. split;
        [eapply captured_impl; [|exact C2] | eapply captured_impl; [|exact C1]];
        simpl; auto.
    + rewrite <- List.app_assoc. exact H.
  - destruct (Re.run r1 prev s cs k) eqn:R1.
    + intros [= ->]. apply IH1 in R1 as (w & s' & prev' & n & -> & L & C & H).
      exists w, s', prev', n. repeat split; auto.
      eapply captured_impl; [|exact C]. simpl. auto.
    + intros R2. apply IH2 in R2 as (w & s' & prev' & n & -> & L & C & H).
      exists w, s', prev', n. repeat split; auto.
      eapply captured_impl; [|exact C]. simpl. auto.
  - intros H. apply ReFacts.star_sound in H as (w & s' & prev' & -> & L & H).
    exists w, s', prev', []. repeat split; auto. constructor.
  - intros H. apply ReFacts.star_lazy_sound in H as (w & s' & prev' & -> & L & H).
    exists w, s', prev', []. repeat split; auto. constructor.
  - destruct (Re.at_bol prev); [|discriminate]. intros H.
    exists "", s, prev, []. repeat split; auto. constructor.
  - destruct (Re.at_eol s); [|discriminate]. intros H.
    exists "", s, prev, []. repeat split; auto. constructor.
  - intros H. apply IH in H as (w & s' & prev' & n & -> & L & C & H).
    rewrite take_app in H.
    exists w, s', prev', ((i, w) :: n). repeat split; auto.
    constructor; [simpl; auto|]. eapply captured_impl; [|exact C]. simpl. auto.
Qed.

Lemma match_here_captures r prev s f :
  Re.match_here r prev s = Some f ->
  captured r (Re.f_caps f)
  /\ s = Re.f_text f +:+ Re.f_rest f /\ ReFacts.in_lang r (Re.f_text f).
Proof.
  intros H. split; [|apply (ReFacts.match_here_sound _ _ _ _ H)].
  unfold Re.match_here in H.
  apply run_captures in H as (w & s' & prev' & n & -> & L & C & [= <-]).
  simpl. rewrite app_nil_r. exact C.
Qed.

Lemma search_from_captures r : forall s prev f,
  Re.search_from r prev s = Some f -> captured r (Re.f_caps f).
Proof.
  induction s as [|c s IH]; intros prev f; simpl.
  - destruct (Re.match_here r prev "") eqn:M; [|discriminate].
    intros [= <-]. apply (match_here_captures _ _ _ _ M).
  - destruct (Re.match_here r prev (String c s)) eqn:M.
    + intros [= <-]. apply (match_here_captures _ _ _ _ M).
    + destruct (Re.search_from r (Some c) s) as [g|] eqn:S; [|discriminate].
      intros [= <-]. simpl. eapply IH, S.
Qed.

Lemma group_captured r cs i :
  captured r cs -> Re.group i cs = "" \/ group_lang r i (Re.group i cs).
Proof.
  induction 1 as [|[j v] cs H _ IH]; simpl; [auto|].
  destruct (Nat.eqb_spec j i) as [->|_]; [right; exact H | exact IH].
Qed.

Definition blank_free (s : string) : Prop := Str.filter Char.is_space s = "".

Lemma blank_free_app a b : blank_free (a +:+ b) <-> blank_free a /\ blank_free b.
Proof.
  unfold blank_free. rewrite filter_app.
  destruct (Str.filter Char.is_space a); [rewrite app_nil_l; tauto|].
  rewrite app_cons. split; [discriminate | intros [[=] _]].
Qed.

Lemma blank_free_take n : forall s, blank_free s -> blank_free (Str.take n s).
Proof.
  unfold blank_free. induction n as [|n IH]; intros [|c s]; simpl; auto.
  destruct (Char.is_space c); [discriminate|]. apply IH.
Qed.

Lemma filter_nil_lstrip q p s :
  Str.filter q s = "" -> Str.filter q (Str.lstrip_by p s) = "".
Proof.
  induction s as [|c s IH]; [reflexivity|]. simpl.
  destruct (q c) eqn:Q; [discriminate|]. intros H.
  destruct (p c); [auto|]. simpl. rewrite Q. exact H.
Qed.

Lemma filter_nil_rstrip q p s :
  Str.filter q s = "" -> Str.filter q (Str.rstrip_by p s) = "".
Proof.
  induction s as [|c s IH]; [reflexivity|]. rewrite rstrip_by_cons. simpl.
  destruct (q c) eqn:Q; [discriminate|]. intros H. specialize (IH H).
  destruct (Str.rstrip_by p s); [destruct (p c)|]; simpl; rewrite ?Q; auto.
Qed.

Lemma blank_free_strip s : blank_free s -> blank_free (Str.strip s).
Proof.
  unfold blank_free, Str.strip, Str.strip_by. intros H.
  apply filter_nil_rstrip, filter_nil_lstrip, H.
Qed.

Lemma plus_space_not_blank_free w :
  ReFacts.in_lang (Re.Plus Char.is_space) w -> ~ blank_free w.
Proof.
  simpl. intros (w1 & w2 & -> & (c & -> & E) & _). unfold blank_free.
  rewrite app_cons. simpl. rewrite E. discriminate.
Qed.

(** A format with a blank after the day accepts no text without a
    blank. *)
Lemma strptime_needs_blank data fmt a b c d e rest :
  Strptime.pattern false fmt
  = Some (Re.Seq a (Re.Seq b (Re.Seq c (Re.Seq d (Re.Seq e
            (Re.Seq (Re.Plus Char.is_space) rest)))))) ->
  blank_free data -> Strptime.strptime data fmt = Raise ValueError.
Proof.
  intros Pt B. unfold Strptime.strptime. rewrite Pt.
  destruct (Re.match_ _ data) as [f|] eqn:M; [|reflexivity].
  apply ReFacts.match_here_sound in M as [E L]. exfalso.
  cbn [ReFacts.in_lang] in L.
  destruct L as (w1 & t1 & E1 & _ & w2 & t2 & -> & _ & w3 & t3 & -> & _
                 & w4 & t4 & -> & _ & w5 & t5 & -> & _ & w6 & w7 & -> & L & _).
  rewrite E, E1 in B.
  repeat match goal with H : blank_free (_ +:+ _) |- _ =>
    apply blank_free_app in H as [? ?] end.
  eapply plus_space_not_blank_free; [exact L | assumption].
Qed.

Lemma strptime_date_only data dt :
  Strptime.strptime data "%Y-%m-%d" = Ok dt ->
  hour dt = 0 /\ minute dt = 0 /\ second dt = 0.
Proof.
  unfold Strptime.strptime.
  destruct (Strptime.pattern false "%Y-%m-%d") as [r|] eqn:Pt; [|discriminate].
  assert (group_ids r = [89; 109; 100]) as G.
  { assert (group_ids <$> Strptime.pattern false "%Y-%m-%d" = Some [89; 109; 100])
      as G by (vm_compute; reflexivity).
    rewrite Pt in G. injection G as G. exact G. }
  destruct (Re.match_ r data) as [f|] eqn:M; [|discriminate].
  apply match_here_captures in M as [C _].
  destruct (Str.truthy _); [discriminate|].
  assert (forall c, ~ In (Char.code c) [89; 109; 100] ->
            existsb (fun e => fst e =? Char.code c) (Re.f_caps f) = false) as N.
  { intros c Hc. destruct (existsb _ _) eqn:X; [|reflexivity].
    apply existsb_exists in X as (e & He & X). apply Nat.eqb_eq in X.
    unfold captured in C. rewrite Forall_forall in C.
    apply list_elem_of_In, C, group_lang_ids in He. rewrite G, X in He. tauto. }
  unfold Strptime.field at 4 5 6.
  rewrite !N by (vm_compute; intuition discriminate).
  unfold make_datetime. destruct (_ && _); [|discriminate].
  intros [= <-]. auto.
Qed.

(** On a text without blanks only the format of a date alone is left. *)
Lemma parse_dt_maybe_blank_free s :
  blank_free s ->
  parse_dt_maybe s
  = if negb (Str.truthy s) then Ok None
    else try_return (Strptime.strptime (Str.take 10 (Str.strip s)) "%Y-%m-%d")
           (Ok None).
Proof.
  intros B. unfold parse_dt_maybe. destruct (negb _); [reflexivity|].
  erewrite (strptime_needs_blank (Str.take 19 (Str.strip s)) "%Y-%m-%d %H:%M:%S");
    [|reflexivity | apply blank_free_take, blank_free_strip, B].
  erewrite (strptime_needs_blank (Str.take 16 (Str.strip s)) "%Y-%m-%d %H:%M");
    [|reflexivity | apply blank_free_take, blank_free_strip, B].
  reflexivity.
Qed.

(** X26: a text without blanks has no time of day: when
    [parse_dt_maybe] gives a date for it, the time is midnight. *)
Theorem dates_without_blanks_are_midnight s dt :
  Str.filter Char.is_space s = "" ->
  parse_dt_maybe s = Ok (Some dt) ->
  hour dt = 0 /\ minute dt = 0 /\ second dt = 0.
Proof.
  intros B. rewrite (parse_dt_maybe_blank_free s B).
  destruct (negb _); [discriminate|].
  destruct (Strptime.strptime (Str.take 10 (Str.strip s)) "%Y-%m-%d") as [d|] eqn:P;
    cbn [try_return]; [|discriminate].
  intros [= <-]. apply (strptime_date_only _ _ P).
Qed.

Lemma dates_without_blanks_are_midnight_witness :
  exists dt,
    parse_dt_maybe "2025-12-10T08:30" = Ok (Some dt)
    /\ hour dt = 0 /\ minute dt = 0 /\ second dt = 0.
Proof.
  exists (Datetime 2025 12 10 0 0 0).
  assert (parse_dt_maybe "2025-12-10T08:30" = Ok (Some (Datetime 2025 12 10 0 0 0)))
    as E by (vm_compute; reflexivity).
  split; [exact E|].
  apply (dates_without_blanks_are_midnight "2025-12-10T08:30" _ eq_refl E).
Defined.

(** No class of the pattern has a blank. *)
Fixpoint no_blank_class (r : Re.regex) : Prop :=
  match r with
  | Re.Cls p | Re.Star p | Re.StarLazy p =>
      forall c, p c = true -> Char.is_space c = false
  | Re.Seq r1 r2 | Re.Alt r1 r2 => no_blank_class r1 /\ no_blank_class r2
  | Re.Grp _ r' => no_blank_class r'
  | _ => True
  end.

Lemma all_blank_free p w :
  (forall c, p c = true -> Char.is_space c = false) ->
  Str.all p w = true -> blank_free w.
Proof.
  intros N. unfold blank_free. induction w as [|c w IH]; [reflexivity|]. simpl.
  intros [E H]%andb_true_iff. rewrite (N c E). auto.
Qed.

Lemma no_blank_class_lang r : forall w,
  no_blank_class r -> ReFacts.in_lang r w -> blank_free w.
Proof.
  induction r as [|p|r1 IH1 r2 IH2|r1 IH1 r2 IH2|p|p| | |i r IH];
    intros w; simpl.
  - intros _ ->. reflexivity.
  - intros N (c & -> & E). unfold blank_free. simpl. rewrite (N c E). reflexivity.
  - intros [N1 N2] (w1 & w2 & -> & L1 & L2). apply blank_free_app. auto.
  - intros [N1 N2] [L|L]; auto.
  - apply all_blank_free.
  - apply all_blank_free.
  - intros _ ->. reflexivity.
  - intros _ ->. reflexivity.
  - apply IH.
Qed.

Lemma ymd_blank_free v : ReFacts.in_lang ymd v -> blank_free v.
Proof.
  apply no_blank_class_lang. unfold ymd. simpl.
  repeat split; try apply CharFacts.decimal_not_space;
    intros c ->%CharFacts.eqb_eq; reflexivity.
Qed.

Lemma group_ymd_midnight r cs dt :
  captured r cs ->
  (forall v, group_lang r 1 v -> ReFacts.in_lang ymd v) ->
  parse_dt_maybe (Re.group 1 cs) = Ok (Some dt) ->
  hour dt = 0 /\ minute dt = 0 /\ second dt = 0.
Proof.
  intros C G. destruct (group_captured r cs 1 C) as [->|L]; [discriminate|].
  rewrite (parse_dt_maybe_blank_free _ (ymd_blank_free _ (G _ L))).
  destruct (negb _); [discriminate|].
  destruct (Strptime.strptime _ "%Y-%m-%d") as [d|] eqn:P;
    cbn [try_return]; [|discriminate].
  intros [= <-]. apply (strptime_date_only _ _ P).
Qed.

Lemma first_date_midnight lines dt :
  first_date lines = Some (Ok (Some dt)) ->
  hour dt = 0 /\ minute dt = 0 /\ second dt = 0.
Proof.
  induction lines as [|line lines IH]; simpl; [discriminate|].
  destruct (Re.search (Re.Grp 1 ymd) line) as [dm|] eqn:S; [|exact IH].
  intros [= H]. apply search_from_captures in S.
  eapply group_ymd_midnight; [exact S| |exact H].
  simpl. intros v [[_ L]|G]; [exact L|].
  unfold ymd in G. simpl in G. tauto.
Qed.

Lemma parse_dt_maybe_day s dt :
  parse_dt_maybe s = Ok (Some dt) ->
  1 <= month dt <= 12 /\ 1 <= day dt <= days_in_month (year dt) (month dt).
Proof.
  unfold parse_dt_maybe. destruct (negb _); [discriminate|].
  intros H. enough (valid_datetime dt) as V by (unfold valid_datetime in V; tauto).
  revert H.
  repeat (apply try_return_valid; [intros ?; apply strptime_valid|]).
  discriminate.
Qed.

Lemma first_date_day lines dt :
  first_date lines = Some (Ok (Some dt)) ->
  1 <= month dt <= 12 /\ 1 <= day dt <= days_in_month (year dt) (month dt).
Proof.
  induction lines as [|line lines IH]; simpl; [discriminate|].
  destruct (Re.search (Re.Grp 1 ymd) line); [|exact IH].
  intros [= H]. apply parse_dt_maybe_day in H. exact H.
Qed.

(** X27: the date that [parse_last_updated_date] reads from a people
    file is a day of the calendar, with no time of day. *)
Theorem last_updated_is_a_calendar_day text dt :
  parse_last_updated_date text = Ok (Some dt) ->
  (1 <= month dt <= 12 /\ 1 <= day dt <= days_in_month (year dt) (month dt))
  /\ hour dt = 0 /\ minute dt = 0 /\ second dt = 0.
Proof.
  unfold parse_last_updated_date. destruct (negb _); [discriminate|].
  destruct (Re.search last_updated_field text) as [m|] eqn:S.
  - intros H. split; [apply (parse_dt_maybe_day _ _ H)|].
    apply search_from_captures in S.
    eapply group_ymd_midnight; [exact S| |exact H].
    unfold last_updated_field. simpl. intros v G.
    unfold ymd in G. simpl in G. tauto.
  - destruct (Re.search last_updated_heading text) as [m|]; [|discriminate].
    destruct (first_date _) as [r|] eqn:F; simpl; [|discriminate].
    intros ->. split; [eapply first_date_day, F | eapply first_date_midnight, F].
Qed.

Lemma last_updated_is_a_calendar_day_witness :
  exists dt,
    parse_last_updated_date
      ("# Ann" +:+ nl +:+ "- **Last Updated:** 2025-12-10" +:+ nl) = Ok (Some dt)
    /\ (1 <= month dt <= 12 /\ 1 <= day dt <= days_in_month (year dt) (month dt))
    /\ hour dt = 0 /\ minute dt = 0 /\ second dt = 0.
Proof.
  exists (Datetime 2025 12 10 0 0 0).
  assert (parse_last_updated_date
            ("# Ann" +:+ nl +:+ "- **Last Updated:** 2025-12-10" +:+ nl)
          = Ok (Some (Datetime 2025 12 10 0 0 0))) as E
    by (vm_compute; reflexivity).
  split; [exact E|]. apply (last_updated_is_a_calendar_day _ _ E).
Defined.

(** ** Canonical numbers and system threads *)

Lemma plus_digits_normal (plus : bool) d ds :
  Char.is_decimal d = true -> Str.all Char.is_decimal ds = true ->
  normalize_phone ((if plus then "+" else "") +:+ String d ds)
  = (if plus then "+" else "") +:+ String d ds.
Proof.
  intros D A. rewrite NormFacts.normalize_phone_eq. cbv zeta.
  assert (Str.filter Char.is_decimal ((if plus then "+" else "") +:+ String d ds)
          = String d ds) as ->.
  { rewrite filter_app, (filter_id _ (String d ds)) by (simpl; rewrite D; exact A).
    destruct plus; reflexivity. }
  cbn [Str.truthy]. destruct plus.
  - rewrite app_cons, app_nil_l.
    destruct (strip_head "+" (String d ds) eq_refl) as [r ->]. reflexivity.
  - rewrite app_nil_l.
    destruct (strip_head d ds (CharFacts.decimal_not_space d D)) as [r ->].
    change (Str.startswith "+" (String d r)) with (Char.eqb "+" d && true).
    replace (Char.eqb "+" d) with false; [reflexivity|].
    symmetry. apply CharFacts.eqb_neq. intros <-. discriminate D.
Qed.

(** X28: a normalised phone number is its own normal form: normalising
    twice is normalising once. *)
Theorem normalize_phone_idempotent raw :
  normalize_phone (normalize_phone raw) = normalize_phone raw.
Proof.
  rewrite (NormFacts.normalize_phone_eq raw). cbv zeta.
  pose proof (filter_all Char.is_decimal raw) as A.
  destruct (Str.filter Char.is_decimal raw) as [|d ds]; [reflexivity|].
  cbn [Str.truthy]. simpl in A. apply andb_true_iff in A as [D A].
  destruct (Str.startswith "+" (Str.strip raw)).
  - apply (plus_digits_normal true); assumption.
  - apply (plus_digits_normal false); assumption.
Qed.

Lemma short_code_fullmatch s :
  Re.fullmatch short_code s
  = Str.all Char.is_decimal s && (4 <=? String.length s) && (String.length s <=? 6).
Proof.
  unfold Re.fullmatch, short_code.
  cbn [Re.run Re.Rep Re.Opt Strptime.dig].
  destruct s as [|c1 [|c2 [|c3 [|c4 [|c5 [|c6 [|c7 s]]]]]]];
    cbn [Str.all String.length Str.truthy Nat.leb];
    repeat match goal with
           | |- context [Char.is_decimal ?c] =>
               lazymatch c with
               | _ => is_var c; destruct (Char.is_decimal c)
               end
           end;
    cbn [andb]; rewrite ?andb_false_r; try reflexivity.
Qed.

(** X29: a contact is taken for a system thread exactly when its name,
    or its identifier when it has no name, is four to six decimal digits,
    or its name is [unknown] or [identifier] in any case, or a preview
    has one of the markers; the last test of the function, on a leading
    [+], never decides. *)
Theorem system_thread_tests c :
  let name := Str.strip (Str.or_empty (c_name c)) in
  let identifier := Str.strip (Str.or_empty (c_identifier c)) in
  let code := if Str.truthy name then name else identifier in
  is_likely_system_imessage_contact c
  = (Str.all Char.is_decimal code && (4 <=? String.length code)
     && (String.length code <=? 6))
    || bool_decide (Str.lower name = "unknown" \/ Str.lower name = "identifier")
    || has_marker
         (Str.lower (Str.join " " ((fun m => Str.or_empty (m_preview m)) <$> c_recent c))).
Proof.
  cbv zeta. unfold is_likely_system_imessage_contact.
  rewrite short_code_fullmatch.
  destruct (_ && _ && _); [reflexivity|]. cbn [orb].
  rewrite (bool_decide_ext _ (Str.lower (Str.strip (Str.or_empty (c_name c))) = "unknown"
             \/ Str.lower (Str.strip (Str.or_empty (c_name c))) = "identifier"))
    by set_solver.
  destruct (bool_decide _); [reflexivity|]. cbn [orb].
  destruct (has_marker _); [reflexivity|]. rewrite andb_false_r. reflexivity.
Qed.

End Extras.
